(** * Affine nonce relations in Schnorr-family signatures

    A shallow embedding of the [ecdsa-affine] Python sources:
    - [eddsa_affine/attacker.py]      (module [attacker]),
    - [scripts/flawed_eddsa_signer.py] (module [flawed_eddsa_signer]),
    - [scripts/flawed_signer.py]       (module [flawed_signer]),
    - [scripts/generate_fixtures.py]   (module [generate_fixtures]),
    followed by the properties of the recovery algebra proved on it. *)

From Stdlib Require Import String Ascii HexString DecimalString.
From Stdlib Require Import ZArith Znumtheory Zcong List Lia Bool.
From Stdlib Require Import Zmod.ZmodInv.
From Stdlib.Init Require Import Byte.
From Stdlib.Strings Require Byte.
Import ListNotations.
Local Open Scope list_scope.
Local Open Scope Z_scope.

(** * The Python values the scripts compute with *)

(** ** Exceptions and fallible computations *)

Inductive exn : Type :=
| ValueError (msg : string)
| OverflowError (msg : string)
| TypeError (msg : string)
| AttributeError (msg : string)
| UnicodeDecodeError (msg : string)
| MalformedPointError (msg : string).

Inductive result (A : Type) : Type :=
| Return (a : A)
| Raise (e : exn).

Arguments Return {A} a.
Arguments Raise {A} e.

Definition rbind {A B : Type} (m : result A) (k : A -> result B) : result B :=
  match m with
  | Return a => k a
  | Raise e => Raise e
  end.

Notation "x <- m ;; k" := (rbind m (fun x => k))
  (at level 61, m at next level, right associativity).

Definition raises {A : Type} (m : result A) : Prop := exists e, m = Raise e.

(** A computation that also threads an observable state [S] (a log of the
    operations carried out, or the files written so far).  An exception
    keeps the state reached when it was raised. *)
Definition prog (S A : Type) : Type := S -> S * result A.

Definition pret {S A : Type} (a : A) : prog S A := fun s => (s, Return a).

Definition praise {S A : Type} (e : exn) : prog S A := fun s => (s, Raise e).

Definition pbind {S A B : Type} (m : prog S A) (k : A -> prog S B) : prog S B :=
  fun s =>
    match m s with
    | (s', Return a) => k a s'
    | (s', Raise e) => (s', Raise e)
    end.

Definition lift {S A : Type} (m : result A) : prog S A := fun s => (s, m).

Definition emit {S : Type} (ev : S) : prog (list S) unit :=
  fun s => (s ++ [ev], Return tt).

Notation "x <<- m ;; k" := (pbind m (fun x => k))
  (at level 61, m at next level, right associativity).

(** ** [bytes] and [int] *)

Definition bytes : Type := list byte.

Fixpoint bytes_eqb (a b : bytes) : bool :=
  match a, b with
  | [], [] => true
  | x :: a', y :: b' => Byte.eqb x y && bytes_eqb a' b'
  | _, _ => false
  end.

Definition Z_of_byte (b : byte) : Z := Z.of_N (Byte.to_N b).

Definition byte_of_Z (z : Z) : byte :=
  match Byte.of_N (Z.to_N (z mod 256)) with
  | Some b => b
  | None => x00
  end.

(** [int.from_bytes(bs, 'big')] and [int.from_bytes(bs, 'little')]. *)
Definition from_bytes_big (bs : bytes) : Z :=
  fold_left (fun acc b => acc * 256 + Z_of_byte b) bs 0.

Fixpoint from_bytes_little (bs : bytes) : Z :=
  match bs with
  | [] => 0
  | b :: bs' => Z_of_byte b + 256 * from_bytes_little bs'
  end.

(** The [len] low-order base-256 digits of [z], least significant first. *)
Fixpoint le_digits (len : nat) (z : Z) : bytes :=
  match len with
  | O => []
  | S len' => byte_of_Z z :: le_digits len' (z / 256)
  end.

Definition be_digits (len : nat) (z : Z) : bytes := rev (le_digits len z).

Inductive byteorder : Type := little | big.

(** [z.to_bytes(len, order)] for the unsigned encoding: a negative or an
    oversized integer raises [OverflowError]. *)
Definition to_bytes (z : Z) (len : nat) (order : byteorder) : result bytes :=
  if z <? 0 then
    Raise (OverflowError "can't convert negative int to unsigned")
  else if 256 ^ Z.of_nat len <=? z then
    Raise (OverflowError "int too big to convert")
  else
    Return (match order with
            | little => le_digits len z
            | big => be_digits len z
            end).

(** [pow(b, -1, m)] for a positive modulus: the inverse in [[0, m)], or
    [ValueError] when [b] is not invertible. *)
Definition pow_inv (b m : Z) : result Z :=
  if Z.gcd b m =? 1 then Return (Z.invmod b m)
  else Raise (ValueError "base is not invertible for the given modulus").

(** [hex(z)] is [HexString.of_Z z]; [bs.hex()] writes two lower-case
    digits per byte. *)
Definition hex (z : Z) : string := HexString.of_Z z.

Definition hex_digit (d : Z) : ascii :=
  nth (Z.to_nat d) (list_ascii_of_string "0123456789abcdef") "0"%char.

Fixpoint bytes_hex (bs : bytes) : string :=
  match bs with
  | [] => EmptyString
  | b :: bs' =>
      String (hex_digit (Z_of_byte b / 16))
        (String (hex_digit (Z_of_byte b mod 16)) (bytes_hex bs'))
  end.

(** * [hashlib]: SHA-256 and SHA-512 (FIPS 180-4)

    The two digests the scripts call, written once over the word size. *)

Module hashlib.

Section Generic.
(** Word size in bits, round constants, initial hash value and the
    rotation/shift amounts of the four sigma functions. *)
Variable w : Z.
Variable K : list Z.
Variable IV : list Z.
Variables S0a S0b S0c S1a S1b S1c : Z.
Variables s0a s0b s0c s1a s1b s1c : Z.

Definition wrap (x : Z) : Z := x mod 2 ^ w.
Definition rotr (n x : Z) : Z :=
  wrap (Z.lor (Z.shiftr x n) (Z.shiftl x (w - n))).
Definition Ch (x y z : Z) : Z :=
  Z.lxor (Z.land x y) (Z.land (Z.lxor x (2 ^ w - 1)) z).
Definition Maj (x y z : Z) : Z :=
  Z.lxor (Z.lxor (Z.land x y) (Z.land x z)) (Z.land y z).
Definition Sigma0 (x : Z) : Z :=
  Z.lxor (Z.lxor (rotr S0a x) (rotr S0b x)) (rotr S0c x).
Definition Sigma1 (x : Z) : Z :=
  Z.lxor (Z.lxor (rotr S1a x) (rotr S1b x)) (rotr S1c x).
Definition sigma0 (x : Z) : Z :=
  Z.lxor (Z.lxor (rotr s0a x) (rotr s0b x)) (Z.shiftr x s0c).
Definition sigma1 (x : Z) : Z :=
  Z.lxor (Z.lxor (rotr s1a x) (rotr s1b x)) (Z.shiftr x s1c).

Definition word_bytes : nat := Z.to_nat (w / 8).
Definition block_bytes : nat := (16 * word_bytes)%nat.

(** Padding: a single 1 bit, zeros, then the bit length on two words. *)
Definition pad (msg : bytes) : bytes :=
  let len := Z.of_nat (length msg) in
  let blk := Z.of_nat block_bytes in
  let lenfield := Z.of_nat (2 * word_bytes) in
  let zeros := (blk - (len + 1 + lenfield) mod blk) mod blk in
  msg ++ [x80] ++ repeat x00 (Z.to_nat zeros)
      ++ be_digits (2 * word_bytes) (8 * len).

Fixpoint chunks (fuel size : nat) (bs : bytes) : list bytes :=
  match fuel with
  | O => []
  | S fuel' =>
      match bs with
      | [] => []
      | _ => firstn size bs :: chunks fuel' size (skipn size bs)
      end
  end.

Definition words_of_block (blk : bytes) : list Z :=
  map from_bytes_big (chunks 16 word_bytes blk).

(** One round: [win] holds the sixteen most recent schedule words. *)
Definition round (st : list Z * list Z) (k : Z) : list Z * list Z :=
  let '(h, win) := st in
  match h with
  | [a; b; c; d; e; f; g; hh] =>
      let wt := nth 0 win 0 in
      let t1 := wrap (hh + Sigma1 e + Ch e f g + k + wt) in
      let t2 := wrap (Sigma0 a + Maj a b c) in
      let wnew := wrap (sigma1 (nth 14 win 0) + nth 9 win 0
                        + sigma0 (nth 1 win 0) + nth 0 win 0) in
      ([wrap (t1 + t2); a; b; c; wrap (d + t1); e; f; g],
       tl win ++ [wnew])
  | _ => st
  end.

Definition compress (h : list Z) (blk : bytes) : list Z :=
  let '(h', _) := fold_left round K (h, words_of_block blk) in
  map (fun p => wrap (fst p + snd p)) (combine h h').

Definition digest_words (msg : bytes) : list Z :=
  let padded := pad msg in
  fold_left compress (chunks (length padded) block_bytes padded) IV.

Definition digest (out_words : nat) (msg : bytes) : bytes :=
  flat_map (be_digits word_bytes) (firstn out_words (digest_words msg)).
End Generic.

(** The constants are fractional parts of roots of the first primes:
    cube roots for the round constants, square roots for the initial
    hash value, each cut to one word. *)
Definition is_prime_nat (n : nat) : bool :=
  forallb (fun d => negb (Nat.eqb (Nat.modulo n d) 0)) (seq 2 (n - 2)).

Definition first_primes (count : nat) : list Z :=
  map Z.of_nat (firstn count (filter is_prime_nat (seq 2 420))).

(** Integer cube root, one bit at a time from bit [bits - 1] down. *)
Fixpoint cube_root_bits (bits : nat) (n acc : Z) : Z :=
  match bits with
  | O => acc
  | S bits' =>
      let try := acc + 2 ^ Z.of_nat bits' in
      cube_root_bits bits' n (if try * try * try <=? n then try else acc)
  end.

Definition cube_root_fraction (w p : Z) : Z :=
  cube_root_bits (Z.to_nat (w + 3)) (p * 2 ^ (3 * w)) 0 mod 2 ^ w.

Definition square_root_fraction (w p : Z) : Z :=
  Z.sqrt (p * 2 ^ (2 * w)) mod 2 ^ w.

Definition K256 : list Z :=
  Eval vm_compute in map (cube_root_fraction 32) (first_primes 64).

Definition IV256 : list Z :=
  Eval vm_compute in map (square_root_fraction 32) (first_primes 8).

Definition K512 : list Z :=
  Eval vm_compute in map (cube_root_fraction 64) (first_primes 80).

Definition IV512 : list Z :=
  Eval vm_compute in map (square_root_fraction 64) (first_primes 8).

Definition sha256 : bytes -> bytes :=
  digest 32 K256 IV256 2 13 22 6 11 25 7 18 3 17 19 10 8.

Definition sha512 : bytes -> bytes :=
  digest 64 K512 IV512 28 34 39 14 18 41 1 8 7 19 61 6 8.

End hashlib.

(** * [eddsa_affine/attacker.py] *)

Module attacker.

(** Ed25519 curve order *)
Definition CURVE_ORDER : Z := 2 ^ 252 + 27742317777372353535851937790883648493.

(** Compute H(R||A||M) for EdDSA signature: [r] is the R value as an
    integer, encoded on 32 little-endian bytes before hashing. *)
Definition compute_h (r : Z) (public_key message : bytes) : result Z :=
  r_bytes <- to_bytes r 32 little ;;
  let data := r_bytes ++ public_key ++ message in
  let h := hashlib.sha512 data in
  Return (from_bytes_little h mod CURVE_ORDER).

(** A signature as [attack] receives it: [(r, s, public_key, message)]. *)
Definition signature : Type := Z * Z * bytes * bytes.

(** The arithmetic [attack] carries out, in the order of the source. *)
Inductive arith : Type :=
| Challenge (r : Z) (public_key message : bytes)
| Numerator
| Denominator
| Inverse
| Quotient.

Definition attack (sig1 sig2 : signature) (alpha beta : Z)
  : prog (list arith) (option Z) :=
  let '(r1, s1, public_key1, message1) := sig1 in
  let '(r2, s2, public_key2, message2) := sig2 in
  if negb (bytes_eqb public_key1 public_key2) then
    praise (ValueError "Signatures must use the same public key")
  else
    let public_key := public_key1 in
    let q := CURVE_ORDER in
    _ <<- emit (Challenge r1 public_key message1) ;;
    h1 <<- lift (compute_h r1 public_key message1) ;;
    _ <<- emit (Challenge r2 public_key message2) ;;
    h2 <<- lift (compute_h r2 public_key message2) ;;
    _ <<- emit Numerator ;;
    let numerator := (s2 - alpha * s1 - beta) mod q in
    _ <<- emit Denominator ;;
    let denominator := (h2 - alpha * h1) mod q in
    if denominator =? 0 then pret None
    else
      _ <<- emit Inverse ;;
      match pow_inv denominator q with
      | Raise (ValueError _) => pret None
      | Raise e => praise e
      | Return denominator_inv =>
          _ <<- emit Quotient ;;
          let private_key := (numerator * denominator_inv) mod q in
          pret (Some private_key)
      end.

(** The call as a client sees it: the value returned or the exception
    raised, and separately the arithmetic performed on the way. *)
Definition attack_result (sig1 sig2 : signature) (alpha beta : Z)
  : result (option Z) :=
  snd (attack sig1 sig2 alpha beta []).

Definition attack_work (sig1 sig2 : signature) (alpha beta : Z) : list arith :=
  fst (attack sig1 sig2 alpha beta []).

End attacker.

(** * [scripts/flawed_eddsa_signer.py] *)

Module flawed_eddsa_signer.

(** Ed25519 curve order *)
Definition CURVE_ORDER : Z := 2 ^ 252 + 27742317777372353535851937790883648493.

(** The instance attributes the signing methods read: [self.private_key]
    (the 32-byte seed) and [self.public_key] (the encoded verify key). *)
Record FlawedEdDSASigner : Type := {
  private_key : bytes;
  public_key : bytes
}.

(** One entry of the list a signing method returns, keys ['message'],
    ['r'], ['s'] and ['public_key'], every value a hex string. *)
Record signature_dict : Type := {
  sig_message : string;
  sig_r : string;
  sig_s : string;
  sig_public_key : string
}.

(** Truth value of an [Optional[bytes]] argument: [None] and [b''] are
    false. *)
Definition truthy (x : option bytes) : bool :=
  match x with
  | Some (_ :: _) => true
  | _ => false
  end.

Section Init.

(** PyNaCl: [verify_key seed] is [SigningKey(seed).verify_key] in raw
    encoding, [generated_seed] the seed [SigningKey.generate()] draws. *)
Variable verify_key : bytes -> bytes.
Variable generated_seed : bytes.

Definition init (private_key : option bytes) : result FlawedEdDSASigner :=
  if truthy private_key then
    let seed := match private_key with Some bs => bs | None => [] end in
    if negb (Nat.eqb (List.length seed) 32) then
      Raise (ValueError "Private key must be 32 bytes")
    else
      Return {| private_key := seed; public_key := verify_key seed |}
  else
    Return {| private_key := generated_seed;
              public_key := verify_key generated_seed |}.

End Init.

(** Compute H(R||A||M) for EdDSA signature, [r] already being bytes. *)
Definition compute_h (r public_key message : bytes) : Z :=
  let data := r ++ public_key ++ message in
  let h := hashlib.sha512 data in
  from_bytes_little h mod CURVE_ORDER.

Section Methods.

Variable self : FlawedEdDSASigner.

(** [rnd] is the value [secrets.randbelow(CURVE_ORDER)] returns when the
    method has to draw its own nonce. *)
Variable rnd : Z.

Definition default_nonce (nonce : option Z) : Z :=
  match nonce with
  | None => rnd
  | Some k => k
  end.

(** The scalar [a] both loops recompute from the seed. *)
Definition signing_scalar : Z :=
  from_bytes_little (firstn 32 (private_key self)) mod CURVE_ORDER.

Definition record (message : bytes) (r_int s : Z) : signature_dict :=
  {| sig_message := bytes_hex message;
     sig_r := hex r_int;
     sig_s := hex s;
     sig_public_key := bytes_hex (public_key self) |}.

Fixpoint same_nonce_loop (nonce r_int : Z) (r_bytes : bytes)
  (messages : list bytes) : list signature_dict :=
  match messages with
  | [] => []
  | message :: rest =>
      let h := compute_h r_bytes (public_key self) message in
      let a := signing_scalar in
      let s := (nonce + h * a) mod CURVE_ORDER in
      record message r_int s :: same_nonce_loop nonce r_int r_bytes rest
  end.

Definition sign_with_same_nonce (messages : list bytes) (nonce : option Z)
  : result (list signature_dict) :=
  let nonce := default_nonce nonce in
  let r_int := nonce mod CURVE_ORDER in
  r_bytes <- to_bytes r_int 32 little ;;
  Return (same_nonce_loop nonce r_int r_bytes messages).

(** The body of [for i, message in enumerate(messages)], [len] being
    [len(messages)] of the whole list and [current_nonce] the loop-carried
    variable. *)
Fixpoint affine_loop (a b len i current_nonce : Z) (messages : list bytes)
  : result (list signature_dict) :=
  match messages with
  | [] => Return []
  | message :: rest =>
      let r_int := current_nonce mod CURVE_ORDER in
      r_bytes <- to_bytes r_int 32 little ;;
      let h := compute_h r_bytes (public_key self) message in
      let a_priv := signing_scalar in
      let s := (current_nonce + h * a_priv) mod CURVE_ORDER in
      let entry := record message r_int s in
      let current_nonce :=
        if i <? len - 1 then (a * current_nonce + b) mod CURVE_ORDER
        else current_nonce in
      signatures <- affine_loop a b len (i + 1) current_nonce rest ;;
      Return (entry :: signatures)
  end.

Definition sign_with_affine_nonces (messages : list bytes) (a b : Z)
  (start_nonce : option Z) : result (list signature_dict) :=
  let start_nonce := default_nonce start_nonce in
  affine_loop a b (Z.of_nat (List.length messages)) 0 start_nonce messages.

Definition sign_with_counter_nonce (messages : list bytes)
  (start_nonce : option Z) : result (list signature_dict) :=
  sign_with_affine_nonces messages 1 1 start_nonce.

Fixpoint hardcoded_step_loop (step start_nonce i : Z) (messages : list bytes)
  : result (list signature_dict) :=
  match messages with
  | [] => Return []
  | message :: rest =>
      let nonce := (start_nonce + i * step) mod CURVE_ORDER in
      let r_int := nonce mod CURVE_ORDER in
      r_bytes <- to_bytes r_int 32 little ;;
      let h := compute_h r_bytes (public_key self) message in
      let a_priv := signing_scalar in
      let s := (nonce + h * a_priv) mod CURVE_ORDER in
      let entry := record message r_int s in
      signatures <- hardcoded_step_loop step start_nonce (i + 1) rest ;;
      Return (entry :: signatures)
  end.

Definition sign_with_hardcoded_step (messages : list bytes) (step : Z)
  (start_nonce : option Z) : result (list signature_dict) :=
  let start_nonce := default_nonce start_nonce in
  hardcoded_step_loop step start_nonce 0 messages.

End Methods.

End flawed_eddsa_signer.

(** * [scripts/flawed_signer.py] *)

Module flawed_signer.

(** secp256k1 curve order *)
Definition CURVE_ORDER : Z :=
  0xFFFFFFFFFFFFFFFFFFFFFFFFFFFFFFFEBAAEDCE6AF48A03BBFD25E8CD0364141.

(** ** What the scripts use of the [ecdsa] package *)

(** [SECP256k1.order], the value [n = curve.order] is bound to. *)
Definition SECP256k1_order : Z :=
  0xFFFFFFFFFFFFFFFFFFFFFFFFFFFFFFFEBAAEDCE6AF48A03BBFD25E8CD0364141.

(** A [SigningKey]: [sk.privkey.secret_multiplier] and the coordinates of
    [sk.verifying_key.pubkey.point]. *)
Record SigningKey : Type := {
  secret_multiplier : Z;
  point_x : Z;
  point_y : Z
}.

(** The package itself: [generator_mul_x k] is [(k * G).x()], which is
    [None] at the point at infinity; [from_secret_exponent] builds a key
    or raises. *)
Record ecdsa_package : Type := {
  generator_mul_x : Z -> result (option Z);
  from_secret_exponent : Z -> result SigningKey
}.

(** ** [str] *)

(** A [str] is kept as the UTF-8 encoding of its text, so that
    [bs.decode('utf-8')] is the check that [bs] is well-formed UTF-8. *)
Definition byte_in (lo hi : Z) (b : byte) : bool :=
  (lo <=? Z_of_byte b) && (Z_of_byte b <=? hi).

Fixpoint utf8_valid (bs : bytes) : bool :=
  match bs with
  | [] => true
  | b0 :: rest =>
      if byte_in 0x00 0x7F b0 then utf8_valid rest
      else if byte_in 0xC2 0xDF b0 then
        match rest with
        | b1 :: rest' => byte_in 0x80 0xBF b1 && utf8_valid rest'
        | _ => false
        end
      else if byte_in 0xE0 0xEF b0 then
        match rest with
        | b1 :: b2 :: rest' =>
            (if byte_in 0xE0 0xE0 b0 then byte_in 0xA0 0xBF b1
             else if byte_in 0xED 0xED b0 then byte_in 0x80 0x9F b1
             else byte_in 0x80 0xBF b1)
            && byte_in 0x80 0xBF b2 && utf8_valid rest'
        | _ => false
        end
      else if byte_in 0xF0 0xF4 b0 then
        match rest with
        | b1 :: b2 :: b3 :: rest' =>
            (if byte_in 0xF0 0xF0 b0 then byte_in 0x90 0xBF b1
             else if byte_in 0xF4 0xF4 b0 then byte_in 0x80 0x8F b1
             else byte_in 0x80 0xBF b1)
            && byte_in 0x80 0xBF b2 && byte_in 0x80 0xBF b3
            && utf8_valid rest'
        | _ => false
        end
      else false
  end.

Definition decode_utf8 (bs : bytes) : result string :=
  if utf8_valid bs then Return (string_of_list_byte bs)
  else Raise (UnicodeDecodeError "'utf-8' codec can't decode bytes").

(** [str(z)], as an f-string interpolates an [int]. *)
Definition str_of_int (z : Z) : string :=
  DecimalString.NilZero.string_of_int (Z.to_int z).

(** ** class [FlawedSigner] *)

Record FlawedSigner : Type := {
  private_key : Z;
  public_key : bytes
}.

(** One entry of the list a signing method returns; ['nonce_index'] and
    ['nonce_relation'] are [None] where the method does not set the key. *)
Record signature_dict : Type := {
  sig_message : string;
  sig_z : Z;
  sig_r : Z;
  sig_s : Z;
  sig_nonce_index : option Z;
  sig_nonce_relation : option string
}.

(** Truth value of an [Optional[int]] argument: [None] and [0] are
    false. *)
Definition truthy (x : option Z) : bool :=
  match x with
  | Some k => negb (k =? 0)
  | None => false
  end.

(** Hash a message using SHA-256. *)
Definition hash_message (message : bytes) : Z :=
  let h := hashlib.sha256 message in
  from_bytes_big h mod CURVE_ORDER.

Section Package.

Variable ecdsa : ecdsa_package.

(** [generated] is the key [SigningKey.generate(curve=SECP256k1)] draws. *)
Definition init (generated : SigningKey) (private_key : option Z)
  : result FlawedSigner :=
  keyed <- (if truthy private_key then
              let k := match private_key with Some k => k | None => 0 end in
              sk <- from_secret_exponent ecdsa k ;;
              Return (sk, k)
            else
              Return (generated, secret_multiplier generated)) ;;
  let '(sk, private_key) := keyed in
  let x := point_x sk in
  let y := point_y sk in
  let prefix := if y mod 2 =? 0 then [x02] else [x03] in
  x_bytes <- to_bytes x 32 big ;;
  Return {| private_key := private_key; public_key := prefix ++ x_bytes |}.

(** [(nonce * G).x() % n]: the remainder of [None] is a [TypeError]. *)
Definition nonce_r (nonce : Z) : result Z :=
  x <- generator_mul_x ecdsa nonce ;;
  match x with
  | Some x => Return (x mod SECP256k1_order)
  | None =>
      Raise (TypeError "unsupported operand type(s) for %: 'NoneType' and 'int'")
  end.

Section Methods.

Variable self : FlawedSigner.

(** [rnd] is the value [secrets.randbelow(CURVE_ORDER)] returns when the
    method has to draw its own nonce. *)
Variable rnd : Z.

Definition default_nonce (nonce : option Z) : Z :=
  match nonce with
  | None => rnd
  | Some k => k
  end.

(** [s = (pow(nonce, -1, n) * (z + r * self.private_key)) % n] *)
Definition compute_s (nonce z r : Z) : result Z :=
  let n := SECP256k1_order in
  nonce_inv <- pow_inv nonce n ;;
  Return ((nonce_inv * (z + r * private_key self)) mod n).

Fixpoint same_nonce_loop (nonce r : Z) (messages : list bytes)
  : result (list signature_dict) :=
  match messages with
  | [] => Return []
  | message :: rest =>
      let z := hash_message message in
      s <- compute_s nonce z r ;;
      text <- decode_utf8 message ;;
      let entry := {| sig_message := text; sig_z := z; sig_r := r; sig_s := s;
                      sig_nonce_index := None; sig_nonce_relation := None |} in
      signatures <- same_nonce_loop nonce r rest ;;
      Return (entry :: signatures)
  end.

Definition sign_with_same_nonce (messages : list bytes) (nonce : option Z)
  : result (list signature_dict) :=
  let nonce := default_nonce nonce in
  r <- nonce_r nonce ;;
  same_nonce_loop nonce r messages.

Definition nonce_relation (a b i : Z) : string :=
  if 0 <? i then
    ("k" ++ str_of_int (i + 1) ++ " = " ++ str_of_int a ++ "*k"
         ++ str_of_int i ++ " + " ++ str_of_int b)%string
  else "k1 (base)"%string.

Fixpoint affine_loop (a b i current_nonce : Z) (messages : list bytes)
  : result (list signature_dict) :=
  match messages with
  | [] => Return []
  | message :: rest =>
      let n := SECP256k1_order in
      let z := hash_message message in
      r <- nonce_r current_nonce ;;
      s <- compute_s current_nonce z r ;;
      text <- decode_utf8 message ;;
      let entry := {| sig_message := text; sig_z := z; sig_r := r; sig_s := s;
                      sig_nonce_index := Some i;
                      sig_nonce_relation := Some (nonce_relation a b i) |} in
      let current_nonce := (a * current_nonce + b) mod n in
      signatures <- affine_loop a b (i + 1) current_nonce rest ;;
      Return (entry :: signatures)
  end.

Definition sign_with_affine_nonces (messages : list bytes)
  (base_nonce : option Z) (a b : Z) : result (list signature_dict) :=
  let base_nonce := default_nonce base_nonce in
  affine_loop a b 0 base_nonce messages.

(** The nonce the counter loop computes for the message of index [i]. *)
Definition counter_nonce (start_nonce i : Z) : Z :=
  (start_nonce + i * 123456) mod SECP256k1_order.

Fixpoint counter_loop (start_nonce i : Z) (messages : list bytes)
  : result (list signature_dict) :=
  match messages with
  | [] => Return []
  | message :: rest =>
      let nonce := counter_nonce start_nonce i in
      let z := hash_message message in
      r <- nonce_r nonce ;;
      s <- compute_s nonce z r ;;
      text <- decode_utf8 message ;;
      let entry := {| sig_message := text; sig_z := z; sig_r := r; sig_s := s;
                      sig_nonce_index := Some i;
                      sig_nonce_relation := None |} in
      signatures <- counter_loop start_nonce (i + 1) rest ;;
      Return (entry :: signatures)
  end.

Definition sign_with_counter_nonce (messages : list bytes)
  (start_nonce : option Z) : result (list signature_dict) :=
  let start_nonce := default_nonce start_nonce in
  counter_loop start_nonce 0 messages.

End Methods.

End Package.

End flawed_signer.

(** * [scripts/generate_fixtures.py] *)

Module generate_fixtures.

Import flawed_signer.

(** The names the body of [class FlawedSigner] binds. *)
Inductive method : Type :=
| m_init
| m_hash_message
| m_sign_with_same_nonce
| m_sign_with_affine_nonces
| m_sign_with_counter_nonce
| m_save_signatures
| m_get_key_info.

Definition method_name (m : method) : string :=
  match m with
  | m_init => "__init__"
  | m_hash_message => "hash_message"
  | m_sign_with_same_nonce => "sign_with_same_nonce"
  | m_sign_with_affine_nonces => "sign_with_affine_nonces"
  | m_sign_with_counter_nonce => "sign_with_counter_nonce"
  | m_save_signatures => "save_signatures"
  | m_get_key_info => "get_key_info"
  end.

Definition FlawedSigner_methods : list method :=
  [m_init; m_hash_message; m_sign_with_same_nonce; m_sign_with_affine_nonces;
   m_sign_with_counter_nonce; m_save_signatures; m_get_key_info].

(** [signer.name] for a call: the method of that name, or
    [AttributeError].  (The instance attributes [sk], [private_key], [vk]
    and [public_key] are data; the script calls none of them.) *)
Definition getattr (name : string) : result method :=
  match find (fun m => String.eqb (method_name m) name) FlawedSigner_methods with
  | Some m => Return m
  | None =>
      Raise (AttributeError
               ("'FlawedSigner' object has no attribute '" ++ name ++ "'"))
  end.

(** Keyword arguments of a call; [kwarg_default name default kw] is the
    value the parameter [name] is bound to. *)
Definition kwargs : Type := list (string * Z).

Definition kwarg (name : string) (kw : kwargs) : option Z :=
  match find (fun e => String.eqb (fst e) name) kw with
  | Some e => Some (snd e)
  | None => None
  end.

Definition kwarg_default (name : string) (default : Z) (kw : kwargs) : Z :=
  match kwarg name kw with
  | Some v => v
  | None => default
  end.

Section Run.

Variable ecdsa : ecdsa_package.

(** Calling a bound method with [messages] and keyword arguments; a
    method that does not take these arguments is a [TypeError]. *)
Definition call (m : method) (self : FlawedSigner) (rnd : Z)
  (messages : list bytes) (kw : kwargs) : result (list signature_dict) :=
  match m with
  | m_sign_with_same_nonce =>
      sign_with_same_nonce ecdsa self rnd messages (kwarg "nonce" kw)
  | m_sign_with_affine_nonces =>
      sign_with_affine_nonces ecdsa self rnd messages (kwarg "base_nonce" kw)
        (kwarg_default "a" 2 kw) (kwarg_default "b" 1 kw)
  | m_sign_with_counter_nonce =>
      sign_with_counter_nonce ecdsa self rnd messages (kwarg "start_nonce" kw)
  | _ => Raise (TypeError "unexpected arguments")
  end.

(** What a run draws from its random sources: the generated key and the
    nonce of each signing call that is not given one. *)
Record draws : Type := {
  generated : SigningKey;
  rnd_same : Z;
  rnd_counter : Z;
  rnd_step : Z;
  rnd_affine : Z;
  rnd_affine2 : Z
}.

Definition messages : list bytes :=
  map list_byte_of_string
    ["Transaction 1: Send 1 ETH"%string;
     "Transaction 2: Send 2 ETH"%string;
     "Transaction 3: Send 3 ETH"%string;
     "Transaction 4: Send 4 ETH"%string;
     "Transaction 5: Send 5 ETH"%string].

(** The state threaded through the run is the list of fixture files
    written so far, oldest first. *)
Definition write_json (filename : string) : prog (list string) unit :=
  emit filename.

Definition save_signatures (signatures : list signature_dict)
  (filename : string) : prog (list string) unit :=
  write_json filename.

(** One stage: look the method up on [signer], call it, save the result. *)
Definition stage (signer : FlawedSigner) (name : string) (rnd : Z)
  (kw : kwargs) (filename : string) : prog (list string) unit :=
  m <<- lift (getattr name) ;;
  signatures <<- lift (call m signer rnd messages kw) ;;
  save_signatures signatures filename.

Definition generate_fixtures (d : draws) : prog (list string) unit :=
  signer <<- lift (init ecdsa (generated d) None) ;;
  _ <<- write_json "test_key_info.json" ;;
  _ <<- stage signer "sign_with_same_nonce" (rnd_same d) []
          "test_signatures_same_nonce.json" ;;
  _ <<- stage signer "sign_with_counter_nonce" (rnd_counter d) []
          "test_signatures_counter.json" ;;
  _ <<- stage signer "sign_with_hardcoded_step" (rnd_step d)
          [("step"%string, 12345)]
          "test_signatures_hardcoded_step.json" ;;
  _ <<- stage signer "sign_with_affine_nonces" (rnd_affine d)
          [("a"%string, 2); ("b"%string, 1)]
          "test_signatures_affine.json" ;;
  stage signer "sign_with_affine_nonces" (rnd_affine2 d)
    [("a"%string, 3); ("b"%string, 5)]
    "test_signatures_affine_3x_plus_5.json".

End Run.

End generate_fixtures.

(** * Reference behaviour of the [ecdsa] package on secp256k1 *)

Module secp256k1.

Import flawed_signer.

(** The field prime and the standard base point. *)
Definition p : Z := 2 ^ 256 - 2 ^ 32 - 977.

Definition G : Z * Z :=
  (0x79BE667EF9DCBBAC55A06295CE870B07029BFCDB2DCE28D959F2815B16F81798,
   0x483ADA7726A3C4655DA4FBFC0E1108A8FD17B448A68554199C47D08FFB10D4B8).

(** A point of [y^2 = x^3 + 7], [None] the point at infinity. *)
Definition point : Type := option (Z * Z).

Definition on_curve (P : Z * Z) : bool :=
  let '(x, y) := P in
  (0 <=? x) && (x <? p) && (0 <=? y) && (y <? p)
  && ((y * y) mod p =? (x * x * x + 7) mod p).

(** Jacobian coordinates [(X, Y, Z)] stand for [(X / Z^2, Y / Z^3)], and
    [Z = 0] for the point at infinity, so that a scalar multiplication
    needs a single field inversion. *)
Definition jacobian : Type := Z * Z * Z.

Definition infinity : jacobian := (1, 1, 0).

Definition double (P : jacobian) : jacobian :=
  let '(x, y, z) := P in
  if (z =? 0) || (y =? 0) then infinity
  else
    let a := (x * x) mod p in
    let b := (y * y) mod p in
    let c := (b * b) mod p in
    let d := (2 * ((x + b) * (x + b) - a - c)) mod p in
    let e := (3 * a) mod p in
    let x3 := (e * e - 2 * d) mod p in
    (x3, (e * (d - x3) - 8 * c) mod p, (2 * y * z) mod p).

(** Adding the affine point [Q] to [P]. *)
Definition add_affine (P : jacobian) (Q : Z * Z) : jacobian :=
  let '(x1, y1, z1) := P in
  let '(x2, y2) := Q in
  if z1 =? 0 then (x2, y2, 1)
  else
    let zz := (z1 * z1) mod p in
    let u2 := (x2 * zz) mod p in
    let s2 := (y2 * z1 mod p * zz) mod p in
    let h := (u2 - x1) mod p in
    let r := (s2 - y1) mod p in
    if h =? 0 then
      if r =? 0 then double P else infinity
    else
      let hh := (h * h) mod p in
      let hhh := (h * hh) mod p in
      let v := (x1 * hh) mod p in
      let x3 := (r * r - hhh - 2 * v) mod p in
      (x3, (r * (v - x3) - y1 * hhh) mod p, (z1 * h) mod p).

Fixpoint mul_pos (k : positive) (P : Z * Z) : jacobian :=
  match k with
  | xH => (fst P, snd P, 1)
  | xO k' => double (mul_pos k' P)
  | xI k' => add_affine (double (mul_pos k' P)) P
  end.

Definition to_affine (P : jacobian) : point :=
  let '(x, y, z) := P in
  if z =? 0 then None
  else
    let zi := Z.invmod z p in
    let zi2 := (zi * zi) mod p in
    Some ((x * zi2) mod p, (y * (zi2 * zi mod p)) mod p).

(** [k * P], the scalar taken modulo the group order. *)
Definition mul (k : Z) (P : Z * Z) : point :=
  match k mod SECP256k1_order with
  | Zpos k' => to_affine (mul_pos k' P)
  | _ => None
  end.

Definition key_of (base : Z * Z) (k : Z) : SigningKey :=
  match mul k base with
  | Some (x, y) => {| secret_multiplier := k; point_x := x; point_y := y |}
  | None => {| secret_multiplier := k; point_x := 0; point_y := 0 |}
  end.

(** The package with [base] as the generator of the group. *)
Definition package_with_generator (base : Z * Z) : ecdsa_package :=
  {| generator_mul_x := fun k => Return (option_map fst (mul k base));
     from_secret_exponent := fun k =>
       if (1 <=? k) && (k <? SECP256k1_order) then Return (key_of base k)
       else Raise (MalformedPointError "Invalid value for secexp") |}.

Definition package : ecdsa_package := package_with_generator G.

End secp256k1.

(** * Reading a signature record back *)

Definition hex_value (c : ascii) : option Z :=
  option_map Z.of_N (HexString.ascii_to_digit c).

(** [bytes.fromhex(s)] on a string of hex digit pairs. *)
Fixpoint fromhex (s : string) : result bytes :=
  match s with
  | EmptyString => Return []
  | String c1 (String c2 rest) =>
      match hex_value c1, hex_value c2 with
      | Some hi, Some lo =>
          bs <- fromhex rest ;;
          Return (byte_of_Z (16 * hi + lo) :: bs)
      | _, _ => Raise (ValueError "non-hexadecimal number found in fromhex() arg")
      end
  | String _ EmptyString =>
      Raise (ValueError "non-hexadecimal number found in fromhex() arg")
  end.

(** [int(s, 16)] on the strings [hex] produces. *)
Definition int16 (s : string) : Z := HexString.to_Z s.

(** Modelled from the spec: the step between the EdDSA-style signature
    record [{message, r, s, public_key}] of hex strings (section 6) and
    the tuple [(r, s, public_key, message)] the recovery engine takes is
    not in the sources; each field is read back from its hex string. *)
Definition signature_of_record (d : flawed_eddsa_signer.signature_dict)
  : result attacker.signature :=
  public_key <- fromhex (flawed_eddsa_signer.sig_public_key d) ;;
  message <- fromhex (flawed_eddsa_signer.sig_message d) ;;
  Return (int16 (flawed_eddsa_signer.sig_r d),
          int16 (flawed_eddsa_signer.sig_s d), public_key, message).

(** * Certificates of primality *)

Fixpoint powmod_pos (a : Z) (e : positive) (m : Z) : Z :=
  match e with
  | xH => a mod m
  | xO e' => let t := powmod_pos a e' m in (t * t) mod m
  | xI e' => let t := powmod_pos a e' m in ((t * t) mod m * a) mod m
  end.

Definition powmod (a e m : Z) : Z :=
  match e with
  | Z0 => 1 mod m
  | Zpos p => powmod_pos a p m
  | Zneg _ => 0
  end.

Definition no_small_divisor (n : Z) (k : nat) : bool :=
  forallb (fun d => negb (n mod Z.of_nat d =? 0)) (seq 2 k).

(** * Notions the statements below are written with *)

(** The challenge the EdDSA-style signer computes for a message signed
    under [nonce], and the record its loops append for it. *)
Definition challenge (self : flawed_eddsa_signer.FlawedEdDSASigner)
  (nonce : Z) (message : bytes) : Z :=
  flawed_eddsa_signer.compute_h
    (le_digits 32 (nonce mod flawed_eddsa_signer.CURVE_ORDER))
    (flawed_eddsa_signer.public_key self) message.

Definition signed (self : flawed_eddsa_signer.FlawedEdDSASigner)
  (nonce : Z) (message : bytes) : flawed_eddsa_signer.signature_dict :=
  flawed_eddsa_signer.record self message
    (nonce mod flawed_eddsa_signer.CURVE_ORDER)
    ((nonce + challenge self nonce message
              * flawed_eddsa_signer.signing_scalar self)
     mod flawed_eddsa_signer.CURVE_ORDER).

(** The nonce the ECDSA-style affine loop consumes for the message of
    index [i]: the recurrence [k <- (a * k + b) % n] applied [i] times to
    the base nonce. *)
Definition affine_nonce (a b base : Z) (i : nat) : Z :=
  Nat.iter i (fun k => (a * k + b) mod flawed_signer.SECP256k1_order) base.

(** [signatures] is what some signing method of [self] returned for
    [messages], whatever the nonce policy and the nonce. *)
Definition signed_by (ecdsa : flawed_signer.ecdsa_package)
  (self : flawed_signer.FlawedSigner) (messages : list bytes)
  (signatures : list flawed_signer.signature_dict) : Prop :=
  (exists rnd nonce,
      flawed_signer.sign_with_same_nonce ecdsa self rnd messages nonce
      = Return signatures)
  \/ (exists rnd base_nonce a b,
         flawed_signer.sign_with_affine_nonces ecdsa self rnd messages
           base_nonce a b = Return signatures)
  \/ (exists rnd start_nonce,
         flawed_signer.sign_with_counter_nonce ecdsa self rnd messages
           start_nonce = Return signatures).

(** The record [d] carries the digest of [message] as its challenge. *)
Definition digest_of (message : bytes) (d : flawed_signer.signature_dict)
  : Prop :=
  flawed_signer.sig_z d = flawed_signer.hash_message message.

(** * Sample inputs *)

Module sample.

Definition public_key : bytes :=
  list_byte_of_string "0123456789abcdef0123456789abcdef".

Definition other_key : bytes :=
  list_byte_of_string "fedcba9876543210fedcba9876543210".

Definition m1 : bytes := list_byte_of_string "m1".

Definition m2 : bytes := list_byte_of_string "m2".

(** The challenges of the nonces 13 and 17 on [m1] and [m2]. *)
Definition h1 : Z :=
  Eval vm_compute in
    match attacker.compute_h 13 public_key m1 with
    | Return h => h
    | Raise _ => 0
    end.

Definition h2 : Z :=
  Eval vm_compute in
    match attacker.compute_h 17 public_key m2 with
    | Return h => h
    | Raise _ => 0
    end.

(** The coefficient that makes the two challenges dependent:
    [h2 = alpha * h1 (mod n)]. *)
Definition degenerate_alpha : Z :=
  Eval vm_compute in
    (h2 * Z.invmod h1 attacker.CURVE_ORDER) mod attacker.CURVE_ORDER.

End sample.

Module sample_signer.

(** A signer whose seed is 32 bytes. *)
Definition self : flawed_eddsa_signer.FlawedEdDSASigner :=
  {| flawed_eddsa_signer.private_key :=
       list_byte_of_string "an example seed of thirty-two b.";
     flawed_eddsa_signer.public_key := sample.public_key |}.

End sample_signer.

Module sample_ecdsa.

Definition self : flawed_signer.FlawedSigner :=
  {| flawed_signer.private_key := 5; flawed_signer.public_key := [] |}.

Definition other : flawed_signer.FlawedSigner :=
  {| flawed_signer.private_key := 7; flawed_signer.public_key := [] |}.

End sample_ecdsa.

Module sample_run.

(** What the signing calls of the examples return. *)
Definition unwrap (m : result (list flawed_signer.signature_dict))
  : list flawed_signer.signature_dict :=
  match m with
  | Return l => l
  | Raise _ => []
  end.

Definition same_nonce_1 : list flawed_signer.signature_dict :=
  Eval vm_compute in
    unwrap (flawed_signer.sign_with_same_nonce secp256k1.package
              sample_ecdsa.self 0 [sample.m1] (Some 1)).

Definition affine_2 : list flawed_signer.signature_dict :=
  Eval vm_compute in
    unwrap (flawed_signer.sign_with_affine_nonces secp256k1.package
              sample_ecdsa.other 0 [sample.m1] (Some 2) 2 1).

Definition counter_1 : list flawed_signer.signature_dict :=
  Eval vm_compute in
    unwrap (flawed_signer.sign_with_counter_nonce secp256k1.package
              sample_ecdsa.self 0 [sample.m1; sample.m2] (Some 1)).

End sample_run.

Module sample_draws.

(** The key of secret exponent 11, as the package generates it. *)
Definition key : flawed_signer.SigningKey :=
  Eval vm_compute in secp256k1.key_of secp256k1.G 11.

(** A run in which the same-nonce call draws the nonce 0. *)
Definition zero_nonce : generate_fixtures.draws :=
  {| generate_fixtures.generated := key;
     generate_fixtures.rnd_same := 0;
     generate_fixtures.rnd_counter := 3;
     generate_fixtures.rnd_step := 4;
     generate_fixtures.rnd_affine := 5;
     generate_fixtures.rnd_affine2 := 6 |}.

(** A run in which every drawn nonce is invertible. *)
Definition ordinary : generate_fixtures.draws :=
  {| generate_fixtures.generated := key;
     generate_fixtures.rnd_same := 2;
     generate_fixtures.rnd_counter := 3;
     generate_fixtures.rnd_step := 4;
     generate_fixtures.rnd_affine := 5;
     generate_fixtures.rnd_affine2 := 6 |}.

Definition signer : flawed_signer.FlawedSigner :=
  Eval vm_compute in
    match flawed_signer.init secp256k1.package key None with
    | Return s => s
    | Raise _ => sample_ecdsa.self
    end.

Definition signatures_same : list flawed_signer.signature_dict :=
  Eval vm_compute in
    sample_run.unwrap
      (flawed_signer.sign_with_same_nonce secp256k1.package signer 2
         generate_fixtures.messages None).

Definition signatures_counter : list flawed_signer.signature_dict :=
  Eval vm_compute in
    sample_run.unwrap
      (flawed_signer.sign_with_counter_nonce secp256k1.package signer 3
         generate_fixtures.messages None).

End sample_draws.

(** * The rest of [scripts/flawed_eddsa_signer.py] *)

Module flawed_eddsa_signer_main.

Import flawed_eddsa_signer.

(** Hash a message using SHA-512 (EdDSA standard). *)
Definition hash_message (message : bytes) : bytes := hashlib.sha512 message.

(** The dictionary [get_key_info] returns, keys ['private_key'],
    ['public_key_hex'] and ['public_key']. *)
Record key_info : Type := {
  info_private_key : Z;
  info_public_key_hex : string;
  info_public_key : string
}.

Definition get_key_info (self : FlawedEdDSASigner) : key_info :=
  {| info_private_key := from_bytes_little (firstn 32 (private_key self));
     info_public_key_hex := bytes_hex (public_key self);
     info_public_key := bytes_hex (public_key self) |}.

(** What [json.dump] writes to a fixture file. *)
Inductive fixture : Type :=
| KeyInfo (info : key_info)
| Signatures (signatures : list signature_dict).

(** What a run of [main] draws: the seed of the generated key and the
    nonce of each signing call. *)
Record draws : Type := {
  generated_seed : bytes;
  rnd_same : Z;
  rnd_counter : Z;
  rnd_affine : Z;
  rnd_step : Z
}.

(** [[f"Test message {i}".encode() for i in range(5)]] *)
Definition messages : list bytes :=
  map (fun i => list_byte_of_string
                  ("Test message " ++ flawed_signer.str_of_int (Z.of_nat i))%string)
    (seq 0 5).

(** The state threaded through [main] is the list of files written so
    far with their contents, oldest first. *)
Definition dump (filename : string) (content : fixture)
  : prog (list (string * fixture)) unit :=
  emit (filename, content).

Section Main.

(** PyNaCl, as in [init]. *)
Variable verify_key : bytes -> bytes.

Definition main (d : draws) : prog (list (string * fixture)) unit :=
  signer <<- lift (init verify_key (generated_seed d) None) ;;
  let info := get_key_info signer in
  _ <<- dump "fixtures/test_eddsa_key_info.json" (KeyInfo info) ;;
  same_nonce_sigs <<-
    lift (sign_with_same_nonce signer (rnd_same d) messages None) ;;
  _ <<- dump "fixtures/test_eddsa_signatures_same_nonce.json"
          (Signatures same_nonce_sigs) ;;
  counter_sigs <<-
    lift (sign_with_counter_nonce signer (rnd_counter d) messages None) ;;
  _ <<- dump "fixtures/test_eddsa_signatures_counter.json"
          (Signatures counter_sigs) ;;
  affine_sigs <<-
    lift (sign_with_affine_nonces signer (rnd_affine d) messages 2 1 None) ;;
  _ <<- dump "fixtures/test_eddsa_signatures_affine.json"
          (Signatures affine_sigs) ;;
  step_sigs <<-
    lift (sign_with_hardcoded_step signer (rnd_step d) messages 1234567 None) ;;
  dump "fixtures/test_eddsa_signatures_hardcoded_step.json"
    (Signatures step_sigs).

End Main.

End flawed_eddsa_signer_main.

(** * The rest of [scripts/flawed_signer.py] *)

Module flawed_signer_main.

Import flawed_signer.

(** The dictionary [get_key_info] returns, keys ['private_key'],
    ['public_key_hex'] and ['public_key_compressed']. *)
Record key_info : Type := {
  info_private_key : Z;
  info_public_key_hex : string;
  info_public_key_compressed : string
}.

Definition get_key_info (self : FlawedSigner) : key_info :=
  {| info_private_key := private_key self;
     info_public_key_hex := bytes_hex (public_key self);
     info_public_key_compressed := bytes_hex (public_key self) |}.

Record draws : Type := {
  generated : SigningKey;
  rnd_same : Z;
  rnd_counter : Z;
  rnd_affine : Z
}.

Definition messages : list bytes :=
  map list_byte_of_string
    ["Transaction 1: Send 1 ETH"%string;
     "Transaction 2: Send 2 ETH"%string;
     "Transaction 3: Send 3 ETH"%string;
     "Transaction 4: Send 4 ETH"%string;
     "Transaction 5: Send 5 ETH"%string].

Section Script.

Variable ecdsa : ecdsa_package.

(** The state is the list of fixture files written so far, as in
    [generate_fixtures]; the value returned is the key information. *)
Definition create_test_signatures (d : draws) : prog (list string) key_info :=
  signer <<- lift (init ecdsa (generated d) None) ;;
  let info := get_key_info signer in
  signatures_same <<-
    lift (sign_with_same_nonce ecdsa signer (rnd_same d) messages None) ;;
  _ <<- generate_fixtures.save_signatures signatures_same
          "test_signatures_same_nonce.json" ;;
  _ <<- generate_fixtures.write_json "test_key_info.json" ;;
  signatures_counter <<-
    lift (sign_with_counter_nonce ecdsa signer (rnd_counter d) messages None) ;;
  _ <<- generate_fixtures.save_signatures signatures_counter
          "test_signatures_counter.json" ;;
  signatures_affine <<-
    lift (sign_with_affine_nonces ecdsa signer (rnd_affine d) messages None
            2 1) ;;
  _ <<- generate_fixtures.save_signatures signatures_affine
          "test_signatures_affine.json" ;;
  pret info.

End Script.

End flawed_signer_main.

(** * Further notions for the statements *)

(** The nonce the EdDSA-style affine loop carries into the message of
    index [i]: the start nonce as given, then the recurrence. *)
Definition eddsa_affine_nonce (a b start_nonce : Z) (i : nat) : Z :=
  Nat.iter i
    (fun k => (a * k + b) mod flawed_eddsa_signer.CURVE_ORDER) start_nonce.

(** The tuple [attack] takes for the message [message] signed under
    [nonce] by [self]. *)
Definition signature_under (self : flawed_eddsa_signer.FlawedEdDSASigner)
  (nonce : Z) (message : bytes) : attacker.signature :=
  (nonce mod flawed_eddsa_signer.CURVE_ORDER,
   (nonce + challenge self nonce message
            * flawed_eddsa_signer.signing_scalar self)
   mod flawed_eddsa_signer.CURVE_ORDER,
   flawed_eddsa_signer.public_key self, message).

(** The record [d] reads back as a signature of [message] under the key
    of [self]: its [r] and [s] are reduced, and [s = r + h * a (mod n)]
    for the challenge [h] that [attack] recomputes and the scalar [a] of
    the signer. *)
Definition valid_record (self : flawed_eddsa_signer.FlawedEdDSASigner)
  (message : bytes) (d : flawed_eddsa_signer.signature_dict) : Prop :=
  exists r s h,
    signature_of_record d
    = Return (r, s, flawed_eddsa_signer.public_key self, message)
    /\ 0 <= r < flawed_eddsa_signer.CURVE_ORDER
    /\ 0 <= s < flawed_eddsa_signer.CURVE_ORDER
    /\ attacker.compute_h r (flawed_eddsa_signer.public_key self) message
       = Return h
    /\ s = (r + h * flawed_eddsa_signer.signing_scalar self)
           mod flawed_eddsa_signer.CURVE_ORDER.

Module sample_attack.

(** What [attack] computes from two forged signatures, [(13, 5)] on
    [sample.m1] and [(17, 7)] on [sample.m2], under [k2 = 2 * k1 + 1]. *)
Definition forged_solution : Z :=
  Eval vm_compute in
    match attacker.attack_result (13, 5, sample.public_key, sample.m1)
            (17, 7, sample.public_key, sample.m2) 2 1 with
    | Return (Some a) => a
    | _ => 0
    end.

End sample_attack.

(** * Notions for the ECDSA-style statements *)

(** The nonce [k] can be signed under: it is invertible modulo [n] and
    the package gives [k * G] an x-coordinate. *)
Definition nonce_ok (ecdsa : flawed_signer.ecdsa_package) (k : Z) : bool :=
  negb (k mod flawed_signer.SECP256k1_order =? 0)
  && match flawed_signer.generator_mul_x ecdsa k with
     | Return (Some _) => true
     | _ => false
     end.

(** The body the three ECDSA-style loops share: the record appended for
    [message] under [nonce], with the two optional keys as given. *)
Definition sign_one (ecdsa : flawed_signer.ecdsa_package)
  (self : flawed_signer.FlawedSigner) (nonce : Z) (message : bytes)
  (index : option Z) (relation : option string)
  : result flawed_signer.signature_dict :=
  let z := flawed_signer.hash_message message in
  r <- flawed_signer.nonce_r ecdsa nonce ;;
  s <- flawed_signer.compute_s self nonce z r ;;
  text <- flawed_signer.decode_utf8 message ;;
  Return {| flawed_signer.sig_message := text;
            flawed_signer.sig_z := z;
            flawed_signer.sig_r := r;
            flawed_signer.sig_s := s;
            flawed_signer.sig_nonce_index := index;
            flawed_signer.sig_nonce_relation := relation |}.

(** The record [d] is an ECDSA signature of [message] by [self] under
    [nonce]: its text is the message, [z] its digest, [r] the reduced
    x-coordinate of [nonce * G], and [s * nonce = z + r * d (mod n)] with
    [s] reduced. *)
Definition ecdsa_signed (ecdsa : flawed_signer.ecdsa_package)
  (self : flawed_signer.FlawedSigner) (nonce : Z) (message : bytes)
  (d : flawed_signer.signature_dict) : Prop :=
  let n := flawed_signer.SECP256k1_order in
  list_byte_of_string (flawed_signer.sig_message d) = message
  /\ flawed_signer.sig_z d = flawed_signer.hash_message message
  /\ flawed_signer.nonce_r ecdsa nonce = Return (flawed_signer.sig_r d)
  /\ 0 <= flawed_signer.sig_r d < n
  /\ 0 <= flawed_signer.sig_s d < n
  /\ (flawed_signer.sig_s d * nonce) mod n
     = (flawed_signer.sig_z d
        + flawed_signer.sig_r d * flawed_signer.private_key self) mod n.

(** A record without its ['nonce_relation'] key, and without both of the
    optional keys. *)
Definition forget_relation (d : flawed_signer.signature_dict)
  : flawed_signer.signature_dict :=
  {| flawed_signer.sig_message := flawed_signer.sig_message d;
     flawed_signer.sig_z := flawed_signer.sig_z d;
     flawed_signer.sig_r := flawed_signer.sig_r d;
     flawed_signer.sig_s := flawed_signer.sig_s d;
     flawed_signer.sig_nonce_index := flawed_signer.sig_nonce_index d;
     flawed_signer.sig_nonce_relation := None |}.

Definition forget_nonce_keys (d : flawed_signer.signature_dict)
  : flawed_signer.signature_dict :=
  {| flawed_signer.sig_message := flawed_signer.sig_message d;
     flawed_signer.sig_z := flawed_signer.sig_z d;
     flawed_signer.sig_r := flawed_signer.sig_r d;
     flawed_signer.sig_s := flawed_signer.sig_s d;
     flawed_signer.sig_nonce_index := None;
     flawed_signer.sig_nonce_relation := None |}.

(** [f] applied to the value a call returns. *)
Definition on_return {A B : Type} (f : A -> B) (m : result A) : result B :=
  x <- m ;; Return (f x).

(** [signatures] holds one record per message, in order, and the record
    of the message of index [j] satisfies [P j]. *)
Definition records_of (messages : list bytes)
  (signatures : list flawed_signer.signature_dict)
  (P : nat -> bytes -> flawed_signer.signature_dict -> Prop) : Prop :=
  List.length signatures = List.length messages
  /\ forall j message,
       nth_error messages j = Some message ->
       exists d, nth_error signatures j = Some d /\ P j message d.

Module sample_more.

(** Two messages signed under the nonces 1 and [2 * 1 + 1], and under
    the nonce 1 twice. *)
Definition affine_pair : list flawed_signer.signature_dict :=
  Eval vm_compute in
    sample_run.unwrap
      (flawed_signer.sign_with_affine_nonces secp256k1.package
         sample_ecdsa.self 0 [sample.m1; sample.m2] (Some 1) 2 1).

Definition same_pair : list flawed_signer.signature_dict :=
  Eval vm_compute in
    sample_run.unwrap
      (flawed_signer.sign_with_same_nonce secp256k1.package
         sample_ecdsa.self 0 [sample.m1; sample.m2] (Some 1)).

End sample_more.

Module sample_script.

(** A run of [create_test_signatures] that generates the key of secret
    exponent 11 and draws the nonces 2, 3 and 5. *)
Definition ordinary : flawed_signer_main.draws :=
  {| flawed_signer_main.generated := sample_draws.key;
     flawed_signer_main.rnd_same := 2;
     flawed_signer_main.rnd_counter := 3;
     flawed_signer_main.rnd_affine := 5 |}.

Definition signatures_affine : list flawed_signer.signature_dict :=
  Eval vm_compute in
    sample_run.unwrap
      (flawed_signer.sign_with_affine_nonces secp256k1.package
         sample_draws.signer 5 flawed_signer_main.messages None 2 1).

(** A run of the EdDSA-style [main]. *)
Definition eddsa_draws : flawed_eddsa_signer_main.draws :=
  {| flawed_eddsa_signer_main.generated_seed :=
       list_byte_of_string "an example seed of thirty-two b.";
     flawed_eddsa_signer_main.rnd_same := 2;
     flawed_eddsa_signer_main.rnd_counter := 3;
     flawed_eddsa_signer_main.rnd_affine := 5;
     flawed_eddsa_signer_main.rnd_step := 7 |}.

End sample_script.

(** * Primality of the Ed25519 group order

    Pocklington certificates, checked by computation. *)

Lemma powmod_pos_spec a e m : m <> 0 -> powmod_pos a e m = a ^ Zpos e mod m.
Proof.
  intros Hm.
  induction e as [e IH | e IH |]; cbn [powmod_pos].
  - rewrite IH, Pos2Z.inj_xI.
    replace (2 * Zpos e + 1) with (Zpos e + Zpos e + 1) by lia.
    rewrite !Z.pow_add_r, Z.pow_1_r by lia.
    rewrite <- Z.mul_mod by assumption.
    rewrite Z.mul_mod_idemp_l by assumption. reflexivity.
  - rewrite IH, Pos2Z.inj_xO.
    replace (2 * Zpos e) with (Zpos e + Zpos e) by lia.
    rewrite Z.pow_add_r by lia.
    rewrite <- Z.mul_mod by assumption. reflexivity.
  - now rewrite Z.pow_1_r.
Qed.

Lemma powmod_spec a e m : m <> 0 -> 0 <= e -> powmod a e m = a ^ e mod m.
Proof.
  intros Hm He. destruct e as [| p | p]; cbn [powmod].
  - reflexivity.
  - now apply powmod_pos_spec.
  - lia.
Qed.

(** Exponents of [a] that give 1 modulo [q] are closed under gcd. *)
Lemma pow_one_gcd q a (Hq : 1 < q) :
  forall (n : nat) x y, 0 < x -> 0 < y -> x + y <= Z.of_nat n ->
    a ^ x mod q = 1 -> a ^ y mod q = 1 -> a ^ Z.gcd x y mod q = 1.
Proof.
  induction n as [| n IH]; intros x y Hx Hy Hn Ex Ey; [lia |].
  destruct (Z.compare_spec x y) as [E | L | L].
  - subst y. rewrite Z.gcd_diag, Z.abs_eq by lia. exact Ex.
  - rewrite <- Z.gcd_sub_diag_r.
    apply IH; try lia; trivial.
    assert (Hmul : (a ^ x * a ^ (y - x)) mod q = 1).
    { rewrite <- Z.pow_add_r by lia. now replace (x + (y - x)) with y by lia. }
    rewrite Z.mul_mod, Ex, Z.mul_1_l, Z.mod_mod in Hmul by lia. exact Hmul.
  - rewrite Z.gcd_comm, <- Z.gcd_sub_diag_r.
    apply IH; try lia; trivial.
    assert (Hmul : (a ^ y * a ^ (x - y)) mod q = 1).
    { rewrite <- Z.pow_add_r by lia. now replace (y + (x - y)) with x by lia. }
    rewrite Z.mul_mod, Ey, Z.mul_1_l, Z.mod_mod in Hmul by lia. exact Hmul.
Qed.

Lemma pow_one_multiple q a g k (Hq : 1 < q) :
  0 <= g -> 0 <= k -> a ^ g mod q = 1 -> a ^ (g * k) mod q = 1.
Proof.
  intros Hg Hk E.
  rewrite Z.pow_mul_r, <- Z.mod_pow_l, E, Z.pow_1_l by lia.
  apply Z.mod_1_l; lia.
Qed.

(** Pocklington's criterion, one prime factor [p] of [N - 1] at a time:
    every prime divisor [q] of [N] is congruent to 1 modulo [p]. *)
Lemma pocklington_step N p a q :
  1 < N -> Z.prime p -> (p | N - 1) ->
  powmod a (N - 1) N = 1 ->
  Z.gcd (powmod a ((N - 1) / p) N - 1) N = 1 ->
  Z.prime q -> (q | N) -> (p | q - 1).
Proof.
  intros HN Hp [R HR] Hfer Hgcd Hq HqN.
  pose proof (Z.prime_ge_2 _ Hp) as Hp2.
  pose proof (Z.prime_ge_2 _ Hq) as Hq2.
  assert (HR0 : 0 < R) by nia.
  assert (HdivR : (N - 1) / p = R) by (rewrite HR; apply Z.div_mul; lia).
  rewrite HdivR in Hgcd.
  rewrite powmod_spec in Hfer, Hgcd by lia.
  assert (EN : a ^ (N - 1) mod q = 1).
  { rewrite <- (Z.mod_mod_divide _ N q HqN), Hfer. apply Z.mod_1_l; lia. }
  assert (Ha : a mod q <> 0).
  { intros Ha0. rewrite <- Z.mod_pow_l, Ha0, Z.pow_0_l, Z.mod_0_l in EN; lia. }
  pose proof (Z.fermat_nz q a Hq Ha) as Eq.
  set (g := Z.gcd (N - 1) (q - 1)).
  assert (Eg : a ^ g mod q = 1).
  { apply (pow_one_gcd q a ltac:(lia) (Z.to_nat (N + q))); try lia; trivial. }
  assert (Hg0 : 0 < g).
  { pose proof (Z.gcd_nonneg (N - 1) (q - 1)).
    destruct (Z.eq_dec g 0) as [E0 | ]; [| subst g; lia].
    apply Z.gcd_eq_0_l in E0. lia. }
  destruct (Z.BoolSpec_divide p g) as [Hpg | Hpg].
  - eapply Z.divide_trans; [exact Hpg | apply Z.gcd_divide_r].
  - exfalso.
    assert (HgR : (g | R)).
    { apply (Z.gauss g p R).
      - rewrite Z.mul_comm, <- HR. apply Z.gcd_divide_l.
      - rewrite Z.gcd_comm. apply Z.coprime_prime_l; trivial. }
    destruct HgR as [k Hk].
    assert (ER : a ^ R mod q = 1).
    { rewrite Hk, Z.mul_comm. apply pow_one_multiple; trivial; nia. }
    assert (Hq1 : (q | a ^ R mod N - 1)).
    { apply Z.mod_divide; [lia |].
      rewrite <- Z.cong_iff_0, Z.mod_mod_divide, ER by assumption.
      symmetry. apply Z.mod_1_l; lia. }
    pose proof (Z.gcd_greatest _ _ _ Hq1 HqN) as Hq1'.
    rewrite Hgcd in Hq1'. apply Z.divide_1_r_nonneg in Hq1'; lia.
Qed.

Lemma prime_divisor_exists :
  forall (n : nat) d, 1 < d -> d <= Z.of_nat n ->
    exists q, Z.prime q /\ (q | d).
Proof.
  induction n as [| n IH]; intros d Hd Hn; [lia |].
  destruct (prime_dec d) as [Hp | Hnp].
  - exists d. split; [now apply prime_alt | apply Z.divide_refl].
  - destruct (not_prime_divide d Hd Hnp) as [m [Hm Hmd]].
    destruct (IH m) as [q [Hq Hqm]]; try lia.
    exists q. split; [assumption | eapply Z.divide_trans; eassumption].
Qed.

(** If every prime divisor of [N] is 1 modulo [F] and [N < (F+1)^2],
    then [N] is prime. *)
Lemma pocklington N F :
  1 < N -> 0 < F -> N < (F + 1) * (F + 1) ->
  (forall q, Z.prime q -> (q | N) -> (F | q - 1)) ->
  Z.prime N.
Proof.
  intros HN HF Hbound Hall. split; [assumption |].
  intros n Hn [m Hm].
  assert (Hm1 : 1 < m < N) by nia.
  assert (Hsmall : exists d, 1 < d /\ (d | N) /\ d * d <= N).
  { destruct (Z_le_gt_dec n m).
    - exists n. repeat split; try lia; [exists m; lia | nia].
    - exists m. repeat split; try lia; [exists n; lia | nia]. }
  destruct Hsmall as [d [Hd [HdN Hdd]]].
  destruct (prime_divisor_exists (Z.to_nat d) d) as [q [Hq Hqd]]; try lia.
  pose proof (Z.prime_ge_2 _ Hq) as Hq2.
  assert (HqN : (q | N)) by (eapply Z.divide_trans; eassumption).
  pose proof (Hall q Hq HqN) as HF1.
  apply Z.divide_pos_le in HF1; [| lia].
  apply Z.divide_pos_le in Hqd; [| lia].
  nia.
Qed.

Lemma trial_division n k :
  1 < n -> n < (Z.of_nat k + 2) * (Z.of_nat k + 2) ->
  no_small_divisor n k = true -> Z.prime n.
Proof.
  intros Hn Hk Hall. split; [assumption |].
  intros d Hd [m Hm].
  assert (Hm1 : 1 < m < n) by nia.
  unfold no_small_divisor in Hall. rewrite forallb_forall in Hall.
  assert (Hsmall : exists e, 1 < e /\ (e | n) /\ e * e <= n).
  { destruct (Z_le_gt_dec d m).
    - exists d. repeat split; try lia; [exists m; lia | nia].
    - exists m. repeat split; try lia; [exists d; lia | nia]. }
  destruct Hsmall as [e [He [Hen Hee]]].
  specialize (Hall (Z.to_nat e)).
  rewrite in_seq, Z2Nat.id in Hall by lia.
  assert (Hrange : (2 <= Z.to_nat e < 2 + k)%nat) by nia.
  specialize (Hall Hrange).
  apply Z.mod_divide in Hen; [| lia].
  rewrite Hen in Hall. discriminate.
Qed.

(** One-factor certificate: [p] prime, [p | N - 1], [N < (p+1)^2],
    witness [a]. *)
Lemma pocklington_cert N p a :
  Z.prime p ->
  (1 <? N) && (N <? (p + 1) * (p + 1)) && ((N - 1) mod p =? 0)
  && (powmod a (N - 1) N =? 1)
  && (Z.gcd (powmod a ((N - 1) / p) N - 1) N =? 1) = true ->
  Z.prime N.
Proof.
  intros Hp H.
  repeat (apply andb_prop in H; destruct H as [H ?]).
  pose proof (Z.prime_ge_2 _ Hp).
  apply (pocklington N p); try lia.
  intros q Hq HqN.
  apply (pocklington_step N p a q); trivial; try lia.
  apply Z.mod_divide; lia.
Qed.

Lemma pocklington_cert2 N p1 p2 a1 a2 :
  Z.prime p1 -> Z.prime p2 ->
  negb (p1 =? p2) && (1 <? N) && (N <? (p1 * p2 + 1) * (p1 * p2 + 1))
  && ((N - 1) mod p1 =? 0) && ((N - 1) mod p2 =? 0)
  && (powmod a1 (N - 1) N =? 1)
  && (Z.gcd (powmod a1 ((N - 1) / p1) N - 1) N =? 1)
  && (powmod a2 (N - 1) N =? 1)
  && (Z.gcd (powmod a2 ((N - 1) / p2) N - 1) N =? 1) = true ->
  Z.prime N.
Proof.
  intros Hp1 Hp2 H.
  repeat (apply andb_prop in H; destruct H as [H ?]).
  apply negb_true_iff in H.
  pose proof (Z.prime_ge_2 _ Hp1). pose proof (Z.prime_ge_2 _ Hp2).
  apply (pocklington N (p1 * p2)); try lia.
  intros q Hq HqN.
  assert (D1 : (p1 | q - 1)).
  { apply (pocklington_step N p1 a1 q); trivial; try lia. apply Z.mod_divide; lia. }
  assert (D2 : (p2 | q - 1)).
  { apply (pocklington_step N p2 a2 q); trivial; try lia. apply Z.mod_divide; lia. }
  destruct D1 as [k Hk]. rewrite Hk in *.
  assert (D3 : (p2 | k)).
  { apply (Z.gauss p2 p1 k); [now rewrite Z.mul_comm |].
    apply Z.coprime_prime_l; trivial.
    intros Hdiv. apply (Z.divide_prime_prime _ _ Hp2 Hp1) in Hdiv. lia. }
  destruct D3 as [j Hj]. exists j. lia.
Qed.

Lemma prime_73 : Z.prime 73.
Proof. apply (trial_division 73 7); [lia | lia | vm_compute; reflexivity]. Qed.

Lemma prime_531581 : Z.prime 531581.
Proof. apply (trial_division 531581 728); [lia | lia | vm_compute; reflexivity]. Qed.

Lemma prime_1224481 : Z.prime 1224481.
Proof. apply (trial_division 1224481 1105); [lia | lia | vm_compute; reflexivity]. Qed.

Lemma prime_1257559732178653 : Z.prime 1257559732178653.
Proof.
  apply (pocklington_cert2 _ 1224481 531581 2 2 prime_1224481 prime_531581).
  vm_compute; reflexivity.
Qed.

Lemma prime_4434155615661930479 : Z.prime 4434155615661930479.
Proof.
  apply (pocklington_cert _ 1257559732178653 2 prime_1257559732178653).
  vm_compute; reflexivity.
Qed.

Lemma prime_172054593956031949258510691 : Z.prime 172054593956031949258510691.
Proof.
  apply (pocklington_cert _ 4434155615661930479 2 prime_4434155615661930479).
  vm_compute; reflexivity.
Qed.

Lemma prime_19757330305831588566944191468367130476339 :
  Z.prime 19757330305831588566944191468367130476339.
Proof.
  apply (pocklington_cert _ 172054593956031949258510691 2
           prime_172054593956031949258510691).
  vm_compute; reflexivity.
Qed.

Lemma prime_276602624281642239937218680557139826668747 :
  Z.prime 276602624281642239937218680557139826668747.
Proof.
  apply (pocklington_cert _ 19757330305831588566944191468367130476339 2
           prime_19757330305831588566944191468367130476339).
  vm_compute; reflexivity.
Qed.

Lemma prime_ed25519_order :
  Z.prime (2 ^ 252 + 27742317777372353535851937790883648493).
Proof.
  apply (pocklington_cert _ 276602624281642239937218680557139826668747 2
           prime_276602624281642239937218680557139826668747).
  vm_compute; reflexivity.
Qed.


(** * The library models against published values *)

(** FIPS 180-4 test vectors for the message "abc". *)
Example sha256_abc :
  bytes_hex (hashlib.sha256 (list_byte_of_string "abc")) =
  "ba7816bf8f01cfea414140de5dae2223b00361a396177a9cb410ff61f20015ad"%string.
Proof. vm_compute. reflexivity. Qed.

Example sha512_abc :
  bytes_hex (hashlib.sha512 (list_byte_of_string "abc")) =
  ("ddaf35a193617abacc417349ae20413112e6fa4e89a97ea20a9eeee64b55d39a"
   ++ "2192992a274fc1a836ba3c23a3feebbd454d4423643ce80e2a9ac94fa54ca49f")%string.
Proof. vm_compute. reflexivity. Qed.

(** The base point is on the curve, and doubling it gives the known
    x-coordinate of [2 * G]. *)
Example secp256k1_base_point :
  secp256k1.on_curve secp256k1.G = true
  /\ option_map fst (secp256k1.mul 2 secp256k1.G) =
     Some 0xC6047F9441ED7D6D3045406E95C07CD85C778E4B8CEF3CA7ABAC09B95C709EE5
  /\ secp256k1.mul flawed_signer.SECP256k1_order secp256k1.G = None.
Proof. vm_compute. repeat split; reflexivity. Qed.

(** * Facts about the Python values *)

Lemma bytes_eqb_refl (a : bytes) : bytes_eqb a a = true.
Proof.
  induction a as [| x a IH]; cbn; [reflexivity |].
  rewrite IH, andb_true_r. now apply Byte.byte_dec_lb.
Qed.

Lemma bytes_eqb_eq (a b : bytes) : bytes_eqb a b = true <-> a = b.
Proof.
  split; [| intros ->; apply bytes_eqb_refl].
  revert b. induction a as [| x a IH]; intros [| y b]; cbn; try discriminate.
  - reflexivity.
  - intros [Hx Hab]%andb_prop.
    apply Byte.byte_dec_bl in Hx. apply IH in Hab. congruence.
Qed.

Lemma bytes_eqb_neq (a b : bytes) : a <> b -> bytes_eqb a b = false.
Proof.
  intros Hne. destruct (bytes_eqb a b) eqn:E; [| reflexivity].
  apply bytes_eqb_eq in E. contradiction.
Qed.

Lemma Z_of_byte_range (b : byte) : 0 <= Z_of_byte b < 256.
Proof.
  unfold Z_of_byte. pose proof (Byte.to_N_bounded b). lia.
Qed.

Lemma Z_of_byte_of_Z (z : Z) : Z_of_byte (byte_of_Z z) = z mod 256.
Proof.
  unfold byte_of_Z, Z_of_byte.
  pose proof (Z.mod_pos_bound z 256 ltac:(lia)) as Hr.
  destruct (Byte.of_N (Z.to_N (z mod 256))) as [b |] eqn:E.
  - apply Byte.to_of_N in E. rewrite E. lia.
  - apply Byte.of_N_None_iff in E. lia.
Qed.

Lemma byte_of_Z_of_byte (b : byte) : byte_of_Z (Z_of_byte b) = b.
Proof.
  unfold byte_of_Z, Z_of_byte.
  pose proof (Byte.to_N_bounded b).
  rewrite Z.mod_small, N2Z.id, Byte.of_to_N by lia. reflexivity.
Qed.

Lemma length_le_digits (len : nat) (z : Z) : List.length (le_digits len z) = len.
Proof.
  revert z. induction len as [| len IH]; intros z; cbn; [reflexivity |].
  now rewrite IH.
Qed.

Lemma from_bytes_little_le_digits (len : nat) (z : Z) :
  from_bytes_little (le_digits len z) = z mod 256 ^ Z.of_nat len.
Proof.
  revert z. induction len as [| len IH]; intros z.
  - cbn. now rewrite Z.mod_1_r.
  - cbn [le_digits from_bytes_little].
    rewrite IH, Z_of_byte_of_Z, Nat2Z.inj_succ, Z.pow_succ_r by lia.
    rewrite Z.rem_mul_r by lia. reflexivity.
Qed.

Lemma from_bytes_little_range (bs : bytes) :
  0 <= from_bytes_little bs < 256 ^ Z.of_nat (List.length bs).
Proof.
  induction bs as [| b bs IH]; cbn [from_bytes_little List.length].
  - cbn. lia.
  - pose proof (Z_of_byte_range b).
    rewrite Nat2Z.inj_succ, Z.pow_succ_r by lia. lia.
Qed.

Lemma le_digits_from_bytes_little (bs : bytes) :
  le_digits (List.length bs) (from_bytes_little bs) = bs.
Proof.
  induction bs as [| b bs IH]; [reflexivity |].
  cbn [from_bytes_little List.length le_digits].
  pose proof (Z_of_byte_range b) as Hb.
  assert (Hq : (Z_of_byte b + 256 * from_bytes_little bs) / 256
               = from_bytes_little bs).
  { rewrite Z.mul_comm, Z.div_add, Z.div_small by lia. lia. }
  assert (Hr : byte_of_Z (Z_of_byte b + 256 * from_bytes_little bs) = b).
  { rewrite <- (byte_of_Z_of_byte b) at 2. unfold byte_of_Z.
    rewrite Z.mul_comm, Z.mod_add by lia. reflexivity. }
  rewrite Hq, Hr, IH. reflexivity.
Qed.

Lemma to_bytes_little_ok (z : Z) (len : nat) :
  0 <= z < 256 ^ Z.of_nat len ->
  to_bytes z len little = Return (le_digits len z).
Proof.
  intros [Hlo Hhi]. unfold to_bytes.
  destruct (Z.ltb_spec z 0); [lia |].
  destruct (Z.leb_spec (256 ^ Z.of_nat len) z); [lia |]. reflexivity.
Qed.

Lemma hex_digit_value (d : Z) :
  0 <= d < 16 -> hex_value (hex_digit d) = Some d.
Proof.
  intros Hd.
  assert (Hcases : d = 0 \/ d = 1 \/ d = 2 \/ d = 3 \/ d = 4 \/ d = 5 \/ d = 6
                   \/ d = 7 \/ d = 8 \/ d = 9 \/ d = 10 \/ d = 11 \/ d = 12
                   \/ d = 13 \/ d = 14 \/ d = 15) by lia.
  repeat (destruct Hcases as [-> | Hcases]; [reflexivity |]).
  subst d. reflexivity.
Qed.

Lemma fromhex_bytes_hex (bs : bytes) : fromhex (bytes_hex bs) = Return bs.
Proof.
  induction bs as [| b bs IH]; [reflexivity |].
  cbn [bytes_hex fromhex].
  pose proof (Z_of_byte_range b) as Hb.
  rewrite !hex_digit_value.
  - rewrite IH. cbn [rbind].
    replace (16 * (Z_of_byte b / 16) + Z_of_byte b mod 16) with (Z_of_byte b)
      by (rewrite (Z.div_mod (Z_of_byte b) 16) at 1; lia).
    now rewrite byte_of_Z_of_byte.
  - apply Z.mod_pos_bound. lia.
  - split; [apply Z.div_pos; lia | apply Z.div_lt_upper_bound; lia].
Qed.

Lemma int16_hex (z : Z) : int16 (hex z) = z.
Proof. apply HexString.to_Z_of_Z. Qed.

(** * The Ed25519 scalar field *)

Lemma order_prime : Z.prime attacker.CURVE_ORDER.
Proof. exact prime_ed25519_order. Qed.

Lemma order_pos : 0 < attacker.CURVE_ORDER.
Proof. reflexivity. Qed.

Lemma order_fits_32_bytes : attacker.CURVE_ORDER < 256 ^ Z.of_nat 32.
Proof. reflexivity. Qed.

Lemma signer_order_eq :
  flawed_eddsa_signer.CURVE_ORDER = attacker.CURVE_ORDER.
Proof. reflexivity. Qed.

Lemma reduced_fits_32_bytes (k : Z) :
  0 <= k mod attacker.CURVE_ORDER < 256 ^ Z.of_nat 32.
Proof.
  pose proof (Z.mod_pos_bound k _ order_pos).
  pose proof order_fits_32_bytes. lia.
Qed.

Lemma pow_inv_prime (d q : Z) :
  Z.prime q -> 0 < d < q -> pow_inv d q = Return (Z.invmod d q).
Proof.
  intros Hq Hd. unfold pow_inv.
  assert (Hg : Z.gcd d q = 1).
  { rewrite Z.gcd_comm. apply Z.coprime_prime_small; [assumption | lia]. }
  now rewrite Hg.
Qed.

Lemma pow_inv_zero_mod (k n : Z) :
  1 < n -> k mod n = 0 -> exists e, pow_inv k n = Raise e.
Proof.
  intros Hn Hk. unfold pow_inv.
  apply Z.mod_divide in Hk; [| lia].
  assert (Hg : Z.gcd k n = n).
  { rewrite Z.gcd_comm. apply Z.divide_gcd_iff; [lia | assumption]. }
  rewrite Hg. destruct (Z.eqb_spec n 1); [lia |]. eauto.
Qed.

(** The closed form the recovery rests on: with [s_i = k_i + h_i * a] and
    [k2 = alpha * k1 + beta], the quotient of the numerator by an
    invertible denominator is [a]. *)
Lemma numerator_is_multiple (q a k1 h1 h2 alpha beta : Z) :
  q <> 0 ->
  let k2 := (alpha * k1 + beta) mod q in
  let s1 := (k1 + h1 * a) mod q in
  let s2 := (k2 + h2 * a) mod q in
  (s2 - alpha * s1 - beta) mod q = (a * ((h2 - alpha * h1) mod q)) mod q.
Proof.
  intros Hq k2 s1 s2. subst k2 s1 s2.
  apply Z.cong_iff_0, Z.mod_divide; [assumption |].
  rewrite !(Z.mod_eq _ q) by assumption.
  set (c1 := (alpha * k1 + beta) / q).
  set (c2 := (alpha * k1 + beta - q * c1 + h2 * a) / q).
  set (c3 := (k1 + h1 * a) / q).
  set (c4 := (h2 - alpha * h1) / q).
  exists (- c1 - c2 + alpha * c3 + a * c4). ring.
Qed.

Lemma recover_algebra (q a k1 h1 h2 alpha beta : Z) :
  Z.prime q ->
  let k2 := (alpha * k1 + beta) mod q in
  let s1 := (k1 + h1 * a) mod q in
  let s2 := (k2 + h2 * a) mod q in
  let denominator := (h2 - alpha * h1) mod q in
  denominator <> 0 ->
  ((s2 - alpha * s1 - beta) mod q * Z.invmod denominator q) mod q = a mod q.
Proof.
  intros Hq k2 s1 s2 den Hden.
  pose proof (Z.prime_ge_2 _ Hq) as Hq2.
  assert (Hq0 : q <> 0) by lia.
  subst k2 s1 s2. rewrite (numerator_is_multiple q a k1 h1 h2 alpha beta Hq0).
  fold den.
  rewrite Z.mul_mod_idemp_l, <- Z.mul_assoc by assumption.
  rewrite <- Z.mul_mod_idemp_r by assumption.
  rewrite (Z.mul_comm den), Z.invmod_prime; trivial.
  - now rewrite Z.mul_1_r.
  - subst den. now rewrite Z.mod_mod.
Qed.

(** * [attacker.attack] *)

Section Attack.

Import attacker.

Lemma compute_h_in_range (r : Z) (pk m : bytes) :
  0 <= r < 256 ^ Z.of_nat 32 ->
  compute_h r pk m =
    Return (from_bytes_little (hashlib.sha512 (le_digits 32 r ++ pk ++ m))
            mod CURVE_ORDER).
Proof.
  intros Hr. unfold compute_h. now rewrite to_bytes_little_ok.
Qed.

Lemma compute_h_reduced (k : Z) (pk m : bytes) :
  compute_h (k mod CURVE_ORDER) pk m =
    Return (flawed_eddsa_signer.compute_h
              (le_digits 32 (k mod CURVE_ORDER)) pk m).
Proof.
  rewrite compute_h_in_range by apply reduced_fits_32_bytes. reflexivity.
Qed.

Lemma compute_h_bounds (r h : Z) (pk m : bytes) :
  compute_h r pk m = Return h -> 0 <= h < CURVE_ORDER.
Proof.
  unfold compute_h. destruct (to_bytes r 32 little); cbn [rbind]; [| discriminate].
  intros [= <-]. apply Z.mod_pos_bound, order_pos.
Qed.

(** On every 32-byte string the signer's [compute_h] is the attacker's
    at the integer the string encodes. *)
Lemma compute_h_agree_on_bytes (r_bytes pk m : bytes) :
  List.length r_bytes = 32%nat ->
  compute_h (from_bytes_little r_bytes) pk m =
    Return (flawed_eddsa_signer.compute_h r_bytes pk m).
Proof.
  intros Hlen.
  pose proof (from_bytes_little_range r_bytes) as Hr. rewrite Hlen in Hr.
  rewrite compute_h_in_range by exact Hr.
  rewrite <- Hlen, le_digits_from_bytes_little. reflexivity.
Qed.

(** The run of [attack] on two signatures of different keys, from any
    log. *)
Lemma attack_mismatch_run (r1 s1 r2 s2 : Z) (pk1 m1 pk2 m2 : bytes)
  (alpha beta : Z) (log : list arith) :
  pk1 <> pk2 ->
  attack (r1, s1, pk1, m1) (r2, s2, pk2, m2) alpha beta log =
    (log, Raise (ValueError "Signatures must use the same public key")).
Proof.
  intros Hne. unfold attack. now rewrite (bytes_eqb_neq _ _ Hne).
Qed.

(** The run of [attack] on two signatures of one key whose challenges are
    [h1] and [h2]. *)
Lemma attack_same_key_run (r1 s1 r2 s2 : Z) (pk m1 m2 : bytes)
  (alpha beta h1 h2 : Z) :
  compute_h r1 pk m1 = Return h1 ->
  compute_h r2 pk m2 = Return h2 ->
  let numerator := (s2 - alpha * s1 - beta) mod CURVE_ORDER in
  let denominator := (h2 - alpha * h1) mod CURVE_ORDER in
  attack (r1, s1, pk, m1) (r2, s2, pk, m2) alpha beta [] =
    if denominator =? 0 then
      ([Challenge r1 pk m1; Challenge r2 pk m2; Numerator; Denominator],
       Return None)
    else
      ([Challenge r1 pk m1; Challenge r2 pk m2; Numerator; Denominator;
        Inverse; Quotient],
       Return (Some ((numerator * Z.invmod denominator CURVE_ORDER)
                     mod CURVE_ORDER))).
Proof.
  intros H1 H2 numerator denominator.
  unfold attack. rewrite bytes_eqb_refl. cbn [negb].
  unfold pbind, emit, lift, pret. cbn [app]. rewrite H1, H2.
  fold denominator. fold numerator.
  destruct (Z.eqb_spec denominator 0) as [E | E]; [reflexivity |].
  assert (Hd : 0 < denominator < CURVE_ORDER).
  { pose proof (Z.mod_pos_bound (h2 - alpha * h1) _ order_pos).
    subst denominator. lia. }
  now rewrite (pow_inv_prime _ _ order_prime Hd).
Qed.

End Attack.

(** C3. Key mismatch: two signatures whose [public_key] fields differ make
    [attack] raise the mismatched-keys [ValueError], and the log of the
    arithmetic performed is empty: no challenge, numerator, denominator or
    inverse was computed before the exception. *)
Theorem attack_mismatched_keys (r1 s1 r2 s2 : Z) (pk1 m1 pk2 m2 : bytes)
  (alpha beta : Z) :
  pk1 <> pk2 ->
  attacker.attack_result (r1, s1, pk1, m1) (r2, s2, pk2, m2) alpha beta =
    Raise (ValueError "Signatures must use the same public key")
  /\ attacker.attack_work (r1, s1, pk1, m1) (r2, s2, pk2, m2) alpha beta = [].
Proof.
  intros Hne. unfold attacker.attack_result, attacker.attack_work.
  rewrite (attack_mismatch_run _ _ _ _ _ _ _ _ _ _ [] Hne). now split.
Qed.

Lemma attack_mismatched_keys_witness :
  sample.public_key <> sample.other_key
  /\ attacker.attack_result (-1, 5, sample.public_key, sample.m1)
       (2 ^ 300, 7, sample.other_key, sample.m2) 2 1 =
     Raise (ValueError "Signatures must use the same public key")
  /\ attacker.attack_work (-1, 5, sample.public_key, sample.m1)
       (2 ^ 300, 7, sample.other_key, sample.m2) 2 1 = [].
Proof.
  split; [discriminate |].
  apply (attack_mismatched_keys (-1) 5 (2 ^ 300) 7 sample.public_key sample.m1
           sample.other_key sample.m2 2 1).
  discriminate.
Defined.

(** With equal keys the first thing [attack] does is the challenge of the
    first signature, so the empty log above is not an artefact: an [r]
    that does not fit 32 bytes is then an [OverflowError]. *)
Lemma attack_same_key_overflow (r1 s1 r2 s2 : Z) (pk m1 m2 : bytes)
  (alpha beta : Z) :
  r1 < 0 ->
  attacker.attack (r1, s1, pk, m1) (r2, s2, pk, m2) alpha beta [] =
    ([attacker.Challenge r1 pk m1],
     Raise (OverflowError "can't convert negative int to unsigned")).
Proof.
  intros Hr. unfold attacker.attack. rewrite bytes_eqb_refl. cbn [negb].
  unfold pbind, emit, lift, attacker.compute_h, to_bytes. cbn [app].
  destruct (Z.ltb_spec r1 0); [reflexivity | lia].
Qed.

(** C2. Degeneracy: for two signatures of one public key with challenges
    [h1] and [h2], [attack] returns [None] when the denominator
    [(h2 - alpha * h1) mod n] is zero, and returns a scalar when and only
    when it is not. *)
Theorem attack_degenerate (r1 s1 r2 s2 : Z) (pk1 m1 pk2 m2 : bytes)
  (alpha beta h1 h2 : Z) :
  pk1 = pk2 ->
  attacker.compute_h r1 pk1 m1 = Return h1 ->
  attacker.compute_h r2 pk1 m2 = Return h2 ->
  let denominator := (h2 - alpha * h1) mod attacker.CURVE_ORDER in
  let outcome :=
    attacker.attack_result (r1, s1, pk1, m1) (r2, s2, pk2, m2) alpha beta in
  (denominator = 0 -> outcome = Return None)
  /\ (forall a, outcome = Return (Some a) -> denominator <> 0)
  /\ (denominator <> 0 -> exists a, outcome = Return (Some a)).
Proof.
  intros <- H1 H2 denominator outcome.
  subst outcome. unfold attacker.attack_result.
  rewrite (attack_same_key_run _ _ _ _ _ _ _ _ _ _ _ H1 H2).
  fold denominator.
  destruct (Z.eqb_spec denominator 0) as [E | E]; cbn [snd].
  - split; [reflexivity | split]; [intros a; discriminate | contradiction].
  - split; [contradiction | split]; [intros a _; exact E | eauto].
Qed.

Lemma attack_degenerate_witness :
  (sample.h2 - sample.degenerate_alpha * sample.h1) mod attacker.CURVE_ORDER = 0
  /\ attacker.attack_result (13, 5, sample.public_key, sample.m1)
       (17, 7, sample.public_key, sample.m2) sample.degenerate_alpha 1 =
     Return None.
Proof.
  assert (H1 : attacker.compute_h 13 sample.public_key sample.m1
               = Return sample.h1) by (vm_compute; reflexivity).
  assert (H2 : attacker.compute_h 17 sample.public_key sample.m2
               = Return sample.h2) by (vm_compute; reflexivity).
  assert (H0 : (sample.h2 - sample.degenerate_alpha * sample.h1)
               mod attacker.CURVE_ORDER = 0) by (vm_compute; reflexivity).
  split; [exact H0 |].
  exact (proj1 (attack_degenerate 13 5 17 7 sample.public_key sample.m1
                  sample.public_key sample.m2 sample.degenerate_alpha 1
                  sample.h1 sample.h2 eq_refl H1 H2) H0).
Defined.

(** C4. EdDSA-style challenge transform: for an [r] that fits 32 bytes,
    the challenge is SHA-512 of the 32 little-endian bytes of [r], then
    the public key, then the message, read as a little-endian integer and
    reduced modulo the Ed25519 group order; the attacker's [compute_h] on
    the integer and the signer's [compute_h] on its 32-byte encoding give
    the same value. *)
Theorem compute_h_transform (r : Z) (public_key message : bytes) :
  0 <= r < 2 ^ 256 ->
  let r_bytes := le_digits 32 r in
  let challenge :=
    from_bytes_little (hashlib.sha512 (r_bytes ++ public_key ++ message))
    mod (2 ^ 252 + 27742317777372353535851937790883648493) in
  to_bytes r 32 little = Return r_bytes
  /\ List.length r_bytes = 32%nat
  /\ from_bytes_little r_bytes = r
  /\ attacker.compute_h r public_key message = Return challenge
  /\ flawed_eddsa_signer.compute_h r_bytes public_key message = challenge.
Proof.
  intros Hr r_bytes challenge.
  assert (Hr' : 0 <= r < 256 ^ Z.of_nat 32).
  { change (256 ^ Z.of_nat 32) with (2 ^ 256). exact Hr. }
  split; [| split; [| split; [| split]]].
  - now apply to_bytes_little_ok.
  - apply length_le_digits.
  - subst r_bytes. rewrite from_bytes_little_le_digits.
    now apply Z.mod_small.
  - now apply compute_h_in_range.
  - reflexivity.
Qed.

Lemma compute_h_transform_witness :
  0 <= 13 < 2 ^ 256
  /\ attacker.compute_h 13 sample.public_key sample.m1 =
     Return (flawed_eddsa_signer.compute_h (le_digits 32 13)
               sample.public_key sample.m1).
Proof.
  split; [lia |].
  pose proof (compute_h_transform 13 sample.public_key sample.m1 ltac:(lia))
    as (_ & _ & _ & Ha & Hs).
  cbv zeta in Ha, Hs. rewrite Hs. exact Ha.
Defined.

(** * [flawed_eddsa_signer]: the signing loops *)

Section EdDSA.

Import flawed_eddsa_signer.

Variable self : FlawedEdDSASigner.
Variable rnd : Z.

Lemma add_congruent (q k k' x : Z) :
  k mod q = k' mod q -> (k + x) mod q = (k' + x) mod q.
Proof.
  intros E. destruct (Z.eq_dec q 0) as [-> | Hq].
  - rewrite !Z.mod_0_r in *. now subst.
  - now rewrite <- (Z.add_mod_idemp_l k), E, Z.add_mod_idemp_l.
Qed.

Lemma to_bytes_reduced (k : Z) :
  to_bytes (k mod CURVE_ORDER) 32 little =
    Return (le_digits 32 (k mod CURVE_ORDER)).
Proof. apply to_bytes_little_ok, reduced_fits_32_bytes. Qed.

Lemma affine_loop_step (a b len i current_nonce : Z) (message : bytes)
  (rest : list bytes) :
  affine_loop self a b len i current_nonce (message :: rest) =
    signatures <-
      affine_loop self a b len (i + 1)
        (if i <? len - 1 then (a * current_nonce + b) mod CURVE_ORDER
         else current_nonce) rest ;;
    Return (signed self current_nonce message :: signatures).
Proof.
  cbn [affine_loop]. rewrite to_bytes_reduced. reflexivity.
Qed.

Lemma hardcoded_step_loop_step (step start_nonce i : Z) (message : bytes)
  (rest : list bytes) :
  hardcoded_step_loop self step start_nonce i (message :: rest) =
    signatures <- hardcoded_step_loop self step start_nonce (i + 1) rest ;;
    Return (signed self ((start_nonce + i * step) mod CURVE_ORDER) message
            :: signatures).
Proof.
  cbn [hardcoded_step_loop]. rewrite to_bytes_reduced. reflexivity.
Qed.

(** The affine loop never raises: it returns one record per message. *)
Lemma affine_loop_returns (a b len : Z) (messages : list bytes) :
  forall i current_nonce,
    exists signatures,
      affine_loop self a b len i current_nonce messages = Return signatures
      /\ List.length signatures = List.length messages.
Proof.
  induction messages as [| message rest IH]; intros i current_nonce.
  - exists []. split; reflexivity.
  - rewrite affine_loop_step.
    destruct (IH (i + 1)
                (if i <? len - 1 then (a * current_nonce + b) mod CURVE_ORDER
                 else current_nonce)) as [signatures [-> Hlen]].
    eexists. split; [reflexivity |]. cbn. now rewrite Hlen.
Qed.

(** Two nonces congruent modulo the order sign a message alike. *)
Lemma signed_congruent (k k' : Z) (message : bytes) :
  k mod CURVE_ORDER = k' mod CURVE_ORDER ->
  signed self k message = signed self k' message.
Proof.
  intros E. unfold signed, challenge. rewrite <- E.
  now rewrite (add_congruent _ _ _ _ E).
Qed.

(** While messages remain, the nonce carried by the affine loop with
    [a = 1] is congruent to the closed form of the fixed-step loop. *)
Lemma affine_loop_fixed_step (step start_nonce : Z) (messages : list bytes) :
  forall i current_nonce len,
    0 <= i ->
    len = i + Z.of_nat (List.length messages) ->
    current_nonce mod CURVE_ORDER = (start_nonce + i * step) mod CURVE_ORDER ->
    affine_loop self 1 step len i current_nonce messages =
      hardcoded_step_loop self step start_nonce i messages.
Proof.
  induction messages as [| message rest IH]; intros i current_nonce len Hi Hlen Hc.
  - reflexivity.
  - rewrite affine_loop_step, hardcoded_step_loop_step.
    rewrite (signed_congruent current_nonce
               ((start_nonce + i * step) mod CURVE_ORDER))
      by (now rewrite Z.mod_mod by discriminate).
    destruct rest as [| message' rest'].
    + reflexivity.
    + rewrite (IH (i + 1) _ len); [reflexivity | lia | |].
      * cbn [List.length] in Hlen |- *. lia.
      * cbn [List.length] in Hlen.
        destruct (Z.ltb_spec i (len - 1)); [| lia].
        rewrite Z.mod_mod, Z.mul_1_l by discriminate.
        rewrite (add_congruent _ _ _ step Hc).
        apply (f_equal (fun x => x mod CURVE_ORDER)). ring.
Qed.

End EdDSA.

(** C8. Fixed-step equivalence: for every signer, message list, step and
    start nonce (given, or drawn alike by both), the closed form
    [nonce_i = start + i * step mod n] of [sign_with_hardcoded_step] and
    the recurrence of [sign_with_affine_nonces] with [a = 1], [b = step]
    produce the same list of signature records. *)
Theorem hardcoded_step_is_affine (self : flawed_eddsa_signer.FlawedEdDSASigner)
  (rnd : Z) (messages : list bytes) (step : Z) (start_nonce : option Z) :
  flawed_eddsa_signer.sign_with_hardcoded_step self rnd messages step start_nonce
  = flawed_eddsa_signer.sign_with_affine_nonces self rnd messages 1 step
      start_nonce.
Proof.
  unfold flawed_eddsa_signer.sign_with_hardcoded_step,
    flawed_eddsa_signer.sign_with_affine_nonces.
  symmetry. apply affine_loop_fixed_step; [lia | lia |].
  f_equal. ring.
Qed.

(** * Round trip *)

Lemma signature_of_signed (self : flawed_eddsa_signer.FlawedEdDSASigner)
  (nonce : Z) (message : bytes) :
  signature_of_record (signed self nonce message) =
    Return (nonce mod flawed_eddsa_signer.CURVE_ORDER,
            (nonce + challenge self nonce message
                     * flawed_eddsa_signer.signing_scalar self)
            mod flawed_eddsa_signer.CURVE_ORDER,
            flawed_eddsa_signer.public_key self, message).
Proof.
  unfold signature_of_record, signed, flawed_eddsa_signer.record.
  cbn [flawed_eddsa_signer.sig_public_key flawed_eddsa_signer.sig_message
       flawed_eddsa_signer.sig_r flawed_eddsa_signer.sig_s].
  rewrite !fromhex_bytes_hex. cbn [rbind]. now rewrite !int16_hex.
Qed.

Lemma attacker_challenge (self : flawed_eddsa_signer.FlawedEdDSASigner)
  (nonce : Z) (message : bytes) :
  attacker.compute_h (nonce mod flawed_eddsa_signer.CURVE_ORDER)
    (flawed_eddsa_signer.public_key self) message =
  Return (challenge self nonce message).
Proof. apply compute_h_reduced. Qed.

(** C1. Round trip: for every signer (every private scalar), every
    [(alpha, beta)], every start nonce (given or drawn) and every two
    messages heading the list whose challenges satisfy
    [h2 <> alpha * h1 (mod n)], the first two records returned by
    [sign_with_affine_nonces], read back as signature tuples, make
    [attack] with the same [(alpha, beta)] return exactly the signing
    scalar: the seed bytes read little-endian, reduced modulo the curve
    order. *)
Theorem affine_round_trip (self : flawed_eddsa_signer.FlawedEdDSASigner)
  (rnd : Z) (m1 m2 : bytes) (rest : list bytes) (alpha beta : Z)
  (start_nonce : option Z) :
  let n := flawed_eddsa_signer.CURVE_ORDER in
  let k1 := flawed_eddsa_signer.default_nonce rnd start_nonce in
  let k2 := (alpha * k1 + beta) mod n in
  let h1 := challenge self k1 m1 in
  let h2 := challenge self k2 m2 in
  h2 mod n <> (alpha * h1) mod n ->
  exists d1 d2 tail sig1 sig2,
    flawed_eddsa_signer.sign_with_affine_nonces self rnd (m1 :: m2 :: rest)
      alpha beta start_nonce = Return (d1 :: d2 :: tail)
    /\ List.length tail = List.length rest
    /\ signature_of_record d1 = Return sig1
    /\ signature_of_record d2 = Return sig2
    /\ attacker.compute_h (fst (fst (fst sig1)))
         (flawed_eddsa_signer.public_key self) m1 = Return h1
    /\ attacker.compute_h (fst (fst (fst sig2)))
         (flawed_eddsa_signer.public_key self) m2 = Return h2
    /\ attacker.attack_result sig1 sig2 alpha beta =
       Return (Some (from_bytes_little
                       (firstn 32 (flawed_eddsa_signer.private_key self))
                     mod n)).
Proof.
  intros n k1 k2 h1 h2 Hindep.
  assert (Hn0 : n <> 0) by discriminate.
  unfold flawed_eddsa_signer.sign_with_affine_nonces. fold k1.
  rewrite !affine_loop_step.
  destruct (affine_loop_returns self alpha beta
              (Z.of_nat (List.length (m1 :: m2 :: rest))) rest (0 + 1 + 1)
              (if 0 + 1 <? Z.of_nat (List.length (m1 :: m2 :: rest)) - 1
               then (alpha * k2 + beta) mod n else k2))
    as [tail [Htail Hlen]].
  assert (Hfirst : (0 <? Z.of_nat (List.length (m1 :: m2 :: rest)) - 1) = true).
  { apply Z.ltb_lt. cbn [List.length]. lia. }
  rewrite Hfirst. fold n. fold k2. rewrite Htail. cbn [rbind].
  exists (signed self k1 m1), (signed self k2 m2), tail.
  eexists. eexists.
  split; [reflexivity |].
  split; [exact Hlen |].
  split; [apply signature_of_signed |].
  split; [apply signature_of_signed |].
  cbn [fst]. fold n.
  split; [apply attacker_challenge |].
  split; [apply attacker_challenge |].
  unfold attacker.attack_result.
  rewrite (attack_same_key_run _ _ _ _ _ _ _ _ _ _ _
             (attacker_challenge self k1 m1) (attacker_challenge self k2 m2)).
  fold h1. fold h2. change attacker.CURVE_ORDER with n.
  assert (Hden : (h2 - alpha * h1) mod n <> 0).
  { intros E. apply Hindep. now apply Z.cong_iff_0. }
  destruct (Z.eqb_spec ((h2 - alpha * h1) mod n) 0) as [E | _]; [contradiction |].
  cbn [snd]. do 2 f_equal.
  transitivity (flawed_eddsa_signer.signing_scalar self mod n).
  - exact (recover_algebra n (flawed_eddsa_signer.signing_scalar self) k1 h1 h2
             alpha beta order_prime Hden).
  - unfold flawed_eddsa_signer.signing_scalar. fold n. now rewrite Z.mod_mod.
Qed.

Lemma affine_round_trip_witness :
  exists d1 d2 sig1 sig2,
    flawed_eddsa_signer.sign_with_affine_nonces sample_signer.self 0
      [sample.m1; sample.m2] 2 1 (Some 13) = Return [d1; d2]
    /\ signature_of_record d1 = Return sig1
    /\ signature_of_record d2 = Return sig2
    /\ attacker.attack_result sig1 sig2 2 1 =
       Return (Some (flawed_eddsa_signer.signing_scalar sample_signer.self)).
Proof.
  assert (Hindep :
            challenge sample_signer.self
              ((2 * 13 + 1) mod flawed_eddsa_signer.CURVE_ORDER) sample.m2
            mod flawed_eddsa_signer.CURVE_ORDER
            <> (2 * challenge sample_signer.self 13 sample.m1)
               mod flawed_eddsa_signer.CURVE_ORDER)
    by (vm_compute; discriminate).
  destruct (affine_round_trip sample_signer.self 0 sample.m1 sample.m2 [] 2 1
              (Some 13) Hindep)
    as (d1 & d2 & tail & sig1 & sig2 & Hsign & Hlen & H1 & H2 & _ & _ & Hattack).
  destruct tail as [| d3 tail]; [| discriminate Hlen].
  exists d1, d2, sig1, sig2.
  split; [exact Hsign |]. split; [exact H1 |]. split; [exact H2 |].
  exact Hattack.
Defined.

(** * [flawed_signer]: the signing loops *)

Lemma raises_bind {A B : Type} (m : result A) (k : A -> result B) :
  raises m -> raises (rbind m k).
Proof. intros [e ->]. exists e. reflexivity. Qed.

Lemma raises_bind_cont {A B : Type} (m : result A) (k : A -> result B) :
  (forall a, m = Return a -> raises (k a)) -> raises (rbind m k).
Proof.
  intros H. destruct m as [a | e]; [now apply H | exists e; reflexivity].
Qed.

Section ECDSA.

Import flawed_signer.

Variable ecdsa : ecdsa_package.
Variable self : FlawedSigner.
Variable rnd : Z.

Lemma secp256k1_order_gt_1 : 1 < SECP256k1_order.
Proof. reflexivity. Qed.

Lemma compute_s_zero_nonce (nonce z r : Z) :
  nonce mod SECP256k1_order = 0 -> raises (compute_s self nonce z r).
Proof.
  intros H0. unfold compute_s.
  apply raises_bind, (pow_inv_zero_mod _ _ secp256k1_order_gt_1 H0).
Qed.

Lemma same_nonce_loop_zero (nonce r : Z) (messages : list bytes) :
  messages <> [] -> nonce mod SECP256k1_order = 0 ->
  raises (same_nonce_loop self nonce r messages).
Proof.
  intros Hne H0. destruct messages as [| message rest]; [contradiction |].
  cbn [same_nonce_loop]. now apply raises_bind, compute_s_zero_nonce.
Qed.

Lemma affine_loop_zero (a b : Z) (messages : list bytes) :
  forall (j : nat) (i current_nonce : Z),
    (j < List.length messages)%nat ->
    affine_nonce a b current_nonce j mod SECP256k1_order = 0 ->
    raises (affine_loop ecdsa self a b i current_nonce messages).
Proof.
  induction messages as [| message rest IH]; intros j i current_nonce Hj H0.
  - cbn in Hj. lia.
  - cbn [affine_loop]. apply raises_bind_cont. intros r _.
    destruct j as [| j].
    + now apply raises_bind, compute_s_zero_nonce.
    + apply raises_bind_cont. intros s _.
      apply raises_bind_cont. intros text _.
      apply raises_bind, (IH j).
      * cbn [List.length] in Hj. lia.
      * unfold affine_nonce in *. now rewrite Nat.iter_succ_r in H0.
Qed.

Lemma counter_loop_zero (start_nonce : Z) (messages : list bytes) :
  forall (j : nat) (i : Z),
    (j < List.length messages)%nat ->
    counter_nonce start_nonce (i + Z.of_nat j) mod SECP256k1_order = 0 ->
    raises (counter_loop ecdsa self start_nonce i messages).
Proof.
  induction messages as [| message rest IH]; intros j i Hj H0.
  - cbn in Hj. lia.
  - cbn [counter_loop]. apply raises_bind_cont. intros r _.
    destruct j as [| j].
    + apply raises_bind, compute_s_zero_nonce.
      now rewrite Z.add_0_r in H0.
    + apply raises_bind_cont. intros s _.
      apply raises_bind_cont. intros text _.
      apply raises_bind, (IH j).
      * cbn [List.length] in Hj. lia.
      * now replace (i + 1 + Z.of_nat j) with (i + Z.of_nat (S j)) by lia.
Qed.

Lemma same_nonce_loop_z (nonce r : Z) (messages : list bytes) :
  forall signatures,
    same_nonce_loop self nonce r messages = Return signatures ->
    Forall2 digest_of messages signatures.
Proof.
  induction messages as [| message rest IH]; intros signatures; cbn [same_nonce_loop].
  - intros [= <-]. constructor.
  - destruct (compute_s self nonce (hash_message message) r); [| discriminate].
    destruct (decode_utf8 message); [| discriminate]. cbn [rbind].
    destruct (same_nonce_loop self nonce r rest) as [l |]; [| discriminate].
    cbn [rbind]. intros [= <-]. constructor; [reflexivity | now apply IH].
Qed.

Lemma affine_loop_z (a b : Z) (messages : list bytes) :
  forall i current_nonce signatures,
    affine_loop ecdsa self a b i current_nonce messages = Return signatures ->
    Forall2 digest_of messages signatures.
Proof.
  induction messages as [| message rest IH]; intros i current_nonce signatures;
    cbn [affine_loop].
  - intros [= <-]. constructor.
  - destruct (nonce_r ecdsa current_nonce) as [r |]; [| discriminate].
    cbn [rbind].
    destruct (compute_s self current_nonce (hash_message message) r);
      [| discriminate].
    destruct (decode_utf8 message); [| discriminate]. cbn [rbind].
    destruct (affine_loop ecdsa self a b (i + 1) _ rest) as [l |] eqn:E;
      [| discriminate].
    cbn [rbind]. intros [= <-]. constructor; [reflexivity | now apply (IH _ _ _ E)].
Qed.

Lemma counter_loop_z (start_nonce : Z) (messages : list bytes) :
  forall i signatures,
    counter_loop ecdsa self start_nonce i messages = Return signatures ->
    Forall2 digest_of messages signatures.
Proof.
  induction messages as [| message rest IH]; intros i signatures;
    cbn [counter_loop].
  - intros [= <-]. constructor.
  - destruct (nonce_r ecdsa (counter_nonce start_nonce i)) as [r |];
      [| discriminate].
    cbn [rbind].
    destruct (compute_s self _ (hash_message message) r); [| discriminate].
    destruct (decode_utf8 message); [| discriminate]. cbn [rbind].
    destruct (counter_loop ecdsa self start_nonce (i + 1) rest) as [l |] eqn:E;
      [| discriminate].
    cbn [rbind]. intros [= <-]. constructor; [reflexivity | now apply (IH _ _ E)].
Qed.

End ECDSA.

(** Nothing in the signer looks at [r]: one message under an invertible
    nonce is signed whatever [r] the package gives, 0 included. *)
Lemma signing_ignores_r (ecdsa : flawed_signer.ecdsa_package)
  (self : flawed_signer.FlawedSigner) (rnd : Z) (message : bytes)
  (nonce a b r : Z) :
  flawed_signer.nonce_r ecdsa nonce = Return r ->
  Z.gcd nonce flawed_signer.SECP256k1_order = 1 ->
  flawed_signer.utf8_valid message = true ->
  exists d,
    flawed_signer.sign_with_affine_nonces ecdsa self rnd [message]
      (Some nonce) a b = Return [d]
    /\ flawed_signer.sig_r d = r.
Proof.
  intros Hr Hg Hutf.
  unfold flawed_signer.sign_with_affine_nonces.
  cbn [flawed_signer.default_nonce flawed_signer.affine_loop].
  rewrite Hr. cbn [rbind].
  unfold flawed_signer.compute_s, pow_inv. rewrite Hg. cbn [Z.eqb Pos.eqb rbind].
  unfold flawed_signer.decode_utf8. rewrite Hutf. cbn [rbind].
  eexists. split; reflexivity.
Qed.

Lemma signed_by_digest (ecdsa : flawed_signer.ecdsa_package)
  (self : flawed_signer.FlawedSigner) (messages : list bytes)
  (signatures : list flawed_signer.signature_dict) :
  signed_by ecdsa self messages signatures ->
  Forall2 digest_of messages signatures.
Proof.
  intros [(rnd & nonce & H) | [(rnd & base & a & b & H) | (rnd & start & H)]].
  - unfold flawed_signer.sign_with_same_nonce in H.
    destruct (flawed_signer.nonce_r ecdsa _) as [r |]; [| discriminate].
    cbn [rbind] in H. eapply same_nonce_loop_z; eassumption.
  - eapply affine_loop_z; eassumption.
  - eapply counter_loop_z; eassumption.
Qed.

Lemma Forall2_nth_error {A B : Type} (P : A -> B -> Prop) (l : list A)
  (l' : list B) :
  Forall2 P l l' ->
  forall i a b, nth_error l i = Some a -> nth_error l' i = Some b -> P a b.
Proof.
  induction 1 as [| x y l l' Hxy _ IH]; intros [| i] a b Ha Hb;
    cbn in Ha, Hb; try discriminate.
  - now injection Ha as <-; injection Hb as <-.
  - eapply IH; eassumption.
Qed.

(** C7. ECDSA-style challenge transform: the challenge [z] of a record is
    SHA-256 of the message read as a big-endian integer and reduced modulo
    the secp256k1 group order; neither nonce nor key enters it, so two
    records over the same message, from any two signers, methods and
    nonces, carry equal challenges. *)
Theorem ecdsa_challenge_is_digest
  (ecdsa1 ecdsa2 : flawed_signer.ecdsa_package)
  (self1 self2 : flawed_signer.FlawedSigner)
  (messages1 messages2 : list bytes)
  (signatures1 signatures2 : list flawed_signer.signature_dict)
  (i j : nat) (message : bytes) (d1 d2 : flawed_signer.signature_dict) :
  signed_by ecdsa1 self1 messages1 signatures1 ->
  signed_by ecdsa2 self2 messages2 signatures2 ->
  nth_error messages1 i = Some message -> nth_error signatures1 i = Some d1 ->
  nth_error messages2 j = Some message -> nth_error signatures2 j = Some d2 ->
  flawed_signer.sig_z d1 =
    from_bytes_big (hashlib.sha256 message)
    mod 0xFFFFFFFFFFFFFFFFFFFFFFFFFFFFFFFEBAAEDCE6AF48A03BBFD25E8CD0364141
  /\ flawed_signer.sig_z d2 = flawed_signer.sig_z d1.
Proof.
  intros S1 S2 Hm1 Hd1 Hm2 Hd2.
  pose proof (Forall2_nth_error _ _ _ (signed_by_digest _ _ _ _ S1) _ _ _ Hm1 Hd1)
    as E1.
  pose proof (Forall2_nth_error _ _ _ (signed_by_digest _ _ _ _ S2) _ _ _ Hm2 Hd2)
    as E2.
  unfold digest_of in E1, E2. rewrite E2, E1. split; reflexivity.
Qed.

(** Degenerate ECDSA-style signing, the nonce half of C5: whatever the
    [ecdsa] package does, each signing method raises, returning no record
    at all, when the nonce consumed for one of the messages is congruent
    to 0 modulo [n]; the one nonce drawn or given is the only one used, no
    fresh one is tried.  The other half of C5 is left open: the methods
    have no check on [r] ([signing_ignores_r]), and a nonce whose [r] is 0
    under the standard base point is a discrete logarithm. *)
Theorem zero_nonce_fails (ecdsa : flawed_signer.ecdsa_package)
  (self : flawed_signer.FlawedSigner) (rnd : Z) (messages : list bytes)
  (nonce : option Z) (a b : Z) (j : nat) :
  (j < List.length messages)%nat ->
  let n := flawed_signer.SECP256k1_order in
  let k := flawed_signer.default_nonce rnd nonce in
  (k mod n = 0 ->
   raises (flawed_signer.sign_with_same_nonce ecdsa self rnd messages nonce))
  /\ (affine_nonce a b k j mod n = 0 ->
      raises (flawed_signer.sign_with_affine_nonces ecdsa self rnd messages
                nonce a b))
  /\ (flawed_signer.counter_nonce k (Z.of_nat j) mod n = 0 ->
      raises (flawed_signer.sign_with_counter_nonce ecdsa self rnd messages
                nonce)).
Proof.
  intros Hj n k. split; [| split]; intros H0.
  - unfold flawed_signer.sign_with_same_nonce. fold k.
    apply raises_bind_cont. intros r _.
    apply same_nonce_loop_zero; [| exact H0].
    intros ->. cbn in Hj. lia.
  - unfold flawed_signer.sign_with_affine_nonces. fold k.
    now apply (affine_loop_zero ecdsa self a b messages j).
  - unfold flawed_signer.sign_with_counter_nonce. fold k.
    now apply (counter_loop_zero ecdsa self k messages j).
Qed.

Lemma ecdsa_challenge_is_digest_witness :
  exists d1 d2,
    flawed_signer.sign_with_same_nonce secp256k1.package sample_ecdsa.self 0
      [sample.m1] (Some 1) = Return [d1]
    /\ flawed_signer.sign_with_affine_nonces secp256k1.package
         sample_ecdsa.other 0 [sample.m1] (Some 2) 2 1 = Return [d2]
    /\ flawed_signer.sig_z d2 = flawed_signer.sig_z d1.
Proof.
  assert (H1 : flawed_signer.sign_with_same_nonce secp256k1.package
                 sample_ecdsa.self 0 [sample.m1] (Some 1)
               = Return sample_run.same_nonce_1) by (vm_compute; reflexivity).
  assert (H2 : flawed_signer.sign_with_affine_nonces secp256k1.package
                 sample_ecdsa.other 0 [sample.m1] (Some 2) 2 1
               = Return sample_run.affine_2) by (vm_compute; reflexivity).
  destruct sample_run.same_nonce_1 as [| d1 [| ? ?]] eqn:E1; try discriminate E1.
  destruct sample_run.affine_2 as [| d2 [| ? ?]] eqn:E2; try discriminate E2.
  exists d1, d2. split; [exact H1 |]. split; [exact H2 |].
  refine (proj2 (ecdsa_challenge_is_digest secp256k1.package secp256k1.package
                   sample_ecdsa.self sample_ecdsa.other [sample.m1] [sample.m1]
                   [d1] [d2] 0 0 sample.m1 d1 d2 _ _ eq_refl eq_refl eq_refl
                   eq_refl)).
  - left. exists 0, (Some 1). exact H1.
  - right. left. exists 0, (Some 2), 2, 1. exact H2.
Defined.

Lemma zero_nonce_fails_witness :
  flawed_signer.SECP256k1_order mod flawed_signer.SECP256k1_order = 0
  /\ raises (flawed_signer.sign_with_same_nonce secp256k1.package
               sample_ecdsa.self 0 [sample.m1]
               (Some flawed_signer.SECP256k1_order))
  /\ raises (flawed_signer.sign_with_affine_nonces secp256k1.package
               sample_ecdsa.self 0 [sample.m1]
               (Some flawed_signer.SECP256k1_order) 2 1)
  /\ raises (flawed_signer.sign_with_counter_nonce secp256k1.package
               sample_ecdsa.self 0 [sample.m1]
               (Some flawed_signer.SECP256k1_order)).
Proof.
  assert (Hj : (0 < List.length [sample.m1])%nat) by (cbn; lia).
  destruct (zero_nonce_fails secp256k1.package sample_ecdsa.self 0 [sample.m1]
              (Some flawed_signer.SECP256k1_order) 2 1 0 Hj)
    as (Hsame & Haffine & Hcounter).
  split; [reflexivity |].
  split; [apply Hsame; reflexivity |].
  split; [apply Haffine; reflexivity | apply Hcounter; reflexivity].
Defined.

(** * The counter policies *)

Lemma hardcoded_step_loop_returns
  (self : flawed_eddsa_signer.FlawedEdDSASigner) (step start_nonce : Z)
  (messages : list bytes) :
  forall i,
    exists signatures,
      flawed_eddsa_signer.hardcoded_step_loop self step start_nonce i messages
      = Return signatures.
Proof.
  induction messages as [| m rest IH]; intros i.
  - exists []. reflexivity.
  - rewrite hardcoded_step_loop_step.
    destruct (IH (i + 1)) as [l ->]. eexists. reflexivity.
Qed.

Lemma hardcoded_step_loop_nth (self : flawed_eddsa_signer.FlawedEdDSASigner)
  (step start_nonce : Z) (messages : list bytes) :
  forall (i : Z) (j : nat) (message : bytes),
    nth_error messages j = Some message ->
    exists signatures,
      flawed_eddsa_signer.hardcoded_step_loop self step start_nonce i messages
      = Return signatures
      /\ nth_error signatures j =
         Some (signed self
                 ((start_nonce + (i + Z.of_nat j) * step)
                  mod flawed_eddsa_signer.CURVE_ORDER) message).
Proof.
  induction messages as [| m rest IH]; intros i j message Hj.
  - destruct j; discriminate Hj.
  - rewrite hardcoded_step_loop_step. destruct j as [| j].
    + injection Hj as ->.
      destruct (hardcoded_step_loop_returns self step start_nonce rest (i + 1))
        as [l Hl].
      rewrite Hl. eexists. split; [reflexivity |].
      cbn [nth_error]. now rewrite Z.add_0_r.
    + destruct (IH (i + 1) j message Hj) as [l [Hl Hnth]].
      rewrite Hl. eexists. split; [reflexivity |].
      cbn [nth_error]. rewrite Hnth.
      assert (E : i + 1 + Z.of_nat j = i + Z.of_nat (S j)) by lia.
      rewrite E. reflexivity.
Qed.

(** The EdDSA-style counter method consumes [start + i (mod n)] for the
    message of index [i]. *)
Lemma eddsa_counter_policy (self : flawed_eddsa_signer.FlawedEdDSASigner)
  (rnd : Z) (messages : list bytes) (start_nonce : option Z) (j : nat)
  (message : bytes) :
  nth_error messages j = Some message ->
  exists signatures,
    flawed_eddsa_signer.sign_with_counter_nonce self rnd messages start_nonce
    = Return signatures
    /\ nth_error signatures j =
       Some (signed self
               ((flawed_eddsa_signer.default_nonce rnd start_nonce
                 + Z.of_nat j) mod flawed_eddsa_signer.CURVE_ORDER) message).
Proof.
  intros Hj.
  unfold flawed_eddsa_signer.sign_with_counter_nonce,
    flawed_eddsa_signer.sign_with_affine_nonces.
  rewrite affine_loop_fixed_step with (start_nonce :=
    flawed_eddsa_signer.default_nonce rnd start_nonce); [| lia | lia |].
  - destruct (hardcoded_step_loop_nth self 1
                (flawed_eddsa_signer.default_nonce rnd start_nonce) messages
                0 j message Hj) as [l [Hl Hnth]].
    exists l. split; [exact Hl |]. rewrite Hnth.
    assert (E : (0 + Z.of_nat j) * 1 = Z.of_nat j) by lia.
    rewrite E. reflexivity.
  - f_equal. ring.
Qed.

(** C6, on the code. The ECDSA-style counter method steps by 123456, not
    by 1: from start nonce 1 the second message is signed under 123457,
    and its [r] is that of [123457 * G], not of [2 * G]. *)
Theorem ecdsa_counter_step_is_123456 :
  (forall start_nonce i,
      flawed_signer.counter_nonce start_nonce (i + 1) =
      (flawed_signer.counter_nonce start_nonce i + 123456)
      mod flawed_signer.SECP256k1_order)
  /\ flawed_signer.counter_nonce 1 0 = 1
  /\ flawed_signer.counter_nonce 1 1 = 123457
  /\ flawed_signer.counter_nonce 1 1
     <> (1 + 1) mod flawed_signer.SECP256k1_order
  /\ exists d1 d2,
       flawed_signer.sign_with_counter_nonce secp256k1.package
         sample_ecdsa.self 0 [sample.m1; sample.m2] (Some 1)
       = Return [d1; d2]
       /\ flawed_signer.nonce_r secp256k1.package 1
          = Return (flawed_signer.sig_r d1)
       /\ flawed_signer.nonce_r secp256k1.package 123457
          = Return (flawed_signer.sig_r d2)
       /\ flawed_signer.nonce_r secp256k1.package 2
          <> Return (flawed_signer.sig_r d2).
Proof.
  split.
  { intros start_nonce i. unfold flawed_signer.counter_nonce.
    rewrite Z.add_mod_idemp_l by discriminate.
    apply (f_equal (fun x => x mod flawed_signer.SECP256k1_order)). ring. }
  split; [reflexivity |].
  split; [reflexivity |].
  split; [vm_compute; discriminate |].
  assert (H : flawed_signer.sign_with_counter_nonce secp256k1.package
                sample_ecdsa.self 0 [sample.m1; sample.m2] (Some 1)
              = Return sample_run.counter_1) by (vm_compute; reflexivity).
  destruct sample_run.counter_1 as [| d1 [| d2 [| ? ?]]] eqn:E;
    try discriminate E.
  exists d1, d2. split; [exact H |].
  injection E as <- <-.
  split; [vm_compute; reflexivity |].
  split; [vm_compute; reflexivity |].
  vm_compute. discriminate.
Qed.

(** * [generate_fixtures] *)

Section Fixtures.

Import flawed_signer generate_fixtures.

Variable ecdsa : ecdsa_package.

Lemma getattr_same_nonce :
  getattr "sign_with_same_nonce" = Return m_sign_with_same_nonce.
Proof. reflexivity. Qed.

Lemma getattr_counter_nonce :
  getattr "sign_with_counter_nonce" = Return m_sign_with_counter_nonce.
Proof. reflexivity. Qed.

Lemma getattr_hardcoded_step :
  getattr "sign_with_hardcoded_step" =
    Raise (AttributeError
             "'FlawedSigner' object has no attribute 'sign_with_hardcoded_step'").
Proof. reflexivity. Qed.

(** No method of the class bears the name. *)
Lemma no_method_hardcoded_step (m : method) :
  method_name m <> "sign_with_hardcoded_step"%string.
Proof. destruct m; discriminate. Qed.

Lemma stage_run (signer : FlawedSigner) (name : string) (rnd : Z)
  (kw : kwargs) (filename : string) (files : list string) :
  stage ecdsa signer name rnd kw filename files =
    match getattr name with
    | Raise e => (files, Raise e)
    | Return m =>
        match call ecdsa m signer rnd messages kw with
        | Raise e => (files, Raise e)
        | Return _ => (files ++ [filename], Return tt)
        end
    end.
Proof.
  unfold stage, pbind, lift, save_signatures, write_json, emit.
  destruct (getattr name) as [m | e]; [| reflexivity].
  destruct (call ecdsa m signer rnd messages kw); reflexivity.
Qed.

(** The run, by the outcome of the constructor and of the first two
    signing calls. *)
Lemma generate_fixtures_run (d : draws) :
  generate_fixtures ecdsa d [] =
    match init ecdsa (generated d) None with
    | Raise e => ([], Raise e)
    | Return signer =>
        match sign_with_same_nonce ecdsa signer (rnd_same d) messages None with
        | Raise e => (["test_key_info.json"%string], Raise e)
        | Return _ =>
            match sign_with_counter_nonce ecdsa signer (rnd_counter d)
                    messages None with
            | Raise e =>
                (["test_key_info.json"%string;
                  "test_signatures_same_nonce.json"%string], Raise e)
            | Return _ =>
                (["test_key_info.json"%string;
                  "test_signatures_same_nonce.json"%string;
                  "test_signatures_counter.json"%string],
                 Raise (AttributeError
                          "'FlawedSigner' object has no attribute 'sign_with_hardcoded_step'"))
            end
        end
    end.
Proof.
  unfold generate_fixtures.
  unfold pbind at 1. unfold lift at 1.
  destruct (init ecdsa (generated d) None) as [signer | e]; [| reflexivity].
  unfold pbind at 1. unfold write_json at 1. unfold emit at 1.
  cbn [app].
  unfold pbind at 1. rewrite stage_run, getattr_same_nonce.
  change (call ecdsa m_sign_with_same_nonce signer (rnd_same d) messages [])
    with (sign_with_same_nonce ecdsa signer (rnd_same d) messages None).
  destruct (sign_with_same_nonce ecdsa signer (rnd_same d) messages None);
    [| reflexivity].
  cbn [app].
  unfold pbind at 1. rewrite stage_run, getattr_counter_nonce.
  change (call ecdsa m_sign_with_counter_nonce signer (rnd_counter d)
            messages [])
    with (sign_with_counter_nonce ecdsa signer (rnd_counter d) messages None).
  destruct (sign_with_counter_nonce ecdsa signer (rnd_counter d) messages None);
    [| reflexivity].
  cbn [app].
  unfold pbind at 1. rewrite stage_run, getattr_hardcoded_step. reflexivity.
Qed.

End Fixtures.

(** C9, as amended. In every run of [generate_fixtures] an exception ends
    the script and none of the hardcoded-step and the two
    affine-relationship fixture files is written; in every run whose
    constructor and same-nonce and counter signing calls return, that
    exception is the [AttributeError] of the missing method
    [sign_with_hardcoded_step], raised after the key-info, same-nonce and
    counter files were written. *)
Theorem fixtures_stop_at_hardcoded_step (ecdsa : flawed_signer.ecdsa_package)
  (d : generate_fixtures.draws) :
  let run := generate_fixtures.generate_fixtures ecdsa d [] in
  (raises (snd run)
   /\ ~ In "test_signatures_hardcoded_step.json"%string (fst run)
   /\ ~ In "test_signatures_affine.json"%string (fst run)
   /\ ~ In "test_signatures_affine_3x_plus_5.json"%string (fst run))
  /\ (forall signer signatures_same signatures_counter,
         flawed_signer.init ecdsa (generate_fixtures.generated d) None
         = Return signer ->
         flawed_signer.sign_with_same_nonce ecdsa signer
           (generate_fixtures.rnd_same d) generate_fixtures.messages None
         = Return signatures_same ->
         flawed_signer.sign_with_counter_nonce ecdsa signer
           (generate_fixtures.rnd_counter d) generate_fixtures.messages None
         = Return signatures_counter ->
         run = (["test_key_info.json"%string;
                 "test_signatures_same_nonce.json"%string;
                 "test_signatures_counter.json"%string],
                Raise (AttributeError
                         "'FlawedSigner' object has no attribute 'sign_with_hardcoded_step'"))).
Proof.
  intros run. subst run. rewrite generate_fixtures_run. split.
  - destruct (flawed_signer.init ecdsa _ None) as [signer | e].
    + destruct (flawed_signer.sign_with_same_nonce ecdsa signer _ _ None)
        as [l1 | e1].
      * destruct (flawed_signer.sign_with_counter_nonce ecdsa signer _ _ None)
          as [l2 | e2]; cbn [fst snd];
          (split; [eexists; reflexivity |]);
          (split; [| split]); intros Hin; cbn [In] in Hin;
          repeat (destruct Hin as [Hin | Hin]; [discriminate Hin |]);
          exact Hin.
      * cbn [fst snd]. split; [eexists; reflexivity |].
        (split; [| split]); intros Hin; cbn [In] in Hin;
          repeat (destruct Hin as [Hin | Hin]; [discriminate Hin |]);
          exact Hin.
    + cbn [fst snd]. split; [eexists; reflexivity |].
      (split; [| split]); intros Hin; exact Hin.
  - intros signer l1 l2 Hinit Hsame Hcounter.
    rewrite Hinit, Hsame, Hcounter. reflexivity.
Qed.

(** C9, the claim as stated: a run that draws the nonce 0 for the
    same-nonce call ends in the [TypeError] of that call, before the
    hardcoded-step stage is reached. *)
Lemma fixtures_run_ending_earlier :
  generate_fixtures.generate_fixtures secp256k1.package sample_draws.zero_nonce []
  = (["test_key_info.json"%string],
     Raise (TypeError "unsupported operand type(s) for %: 'NoneType' and 'int'")).
Proof.
  rewrite generate_fixtures_run.
  assert (Hinit : flawed_signer.init secp256k1.package
                    (generate_fixtures.generated sample_draws.zero_nonce) None
                  = Return sample_draws.signer) by (vm_compute; reflexivity).
  rewrite Hinit.
  assert (Hsame : flawed_signer.sign_with_same_nonce secp256k1.package
                    sample_draws.signer
                    (generate_fixtures.rnd_same sample_draws.zero_nonce)
                    generate_fixtures.messages None
                  = Raise (TypeError
                             "unsupported operand type(s) for %: 'NoneType' and 'int'"))
    by (vm_compute; reflexivity).
  rewrite Hsame. reflexivity.
Qed.

Lemma fixtures_stop_at_hardcoded_step_witness :
  generate_fixtures.generate_fixtures secp256k1.package sample_draws.ordinary []
  = (["test_key_info.json"%string;
      "test_signatures_same_nonce.json"%string;
      "test_signatures_counter.json"%string],
     Raise (AttributeError
              "'FlawedSigner' object has no attribute 'sign_with_hardcoded_step'")).
Proof.
  assert (Hinit : flawed_signer.init secp256k1.package
                    (generate_fixtures.generated sample_draws.ordinary) None
                  = Return sample_draws.signer) by (vm_compute; reflexivity).
  assert (Hsame : flawed_signer.sign_with_same_nonce secp256k1.package
                    sample_draws.signer
                    (generate_fixtures.rnd_same sample_draws.ordinary)
                    generate_fixtures.messages None
                  = Return sample_draws.signatures_same)
    by (vm_compute; reflexivity).
  assert (Hcounter : flawed_signer.sign_with_counter_nonce secp256k1.package
                       sample_draws.signer
                       (generate_fixtures.rnd_counter sample_draws.ordinary)
                       generate_fixtures.messages None
                     = Return sample_draws.signatures_counter)
    by (vm_compute; reflexivity).
  exact (proj2 (fixtures_stop_at_hardcoded_step secp256k1.package
                  sample_draws.ordinary)
           sample_draws.signer sample_draws.signatures_same
           sample_draws.signatures_counter Hinit Hsame Hcounter).
Defined.

(** C10. Falsy private keys: [FlawedEdDSASigner(b'')] takes the branch of
    [FlawedEdDSASigner()], so the length check, which rejects every other
    byte string that is not 32 bytes long, is skipped and the generated
    seed becomes the key; [FlawedSigner(0)] takes the branch of
    [FlawedSigner()] and keeps the generated key, the package never being
    asked to build a key from 0. *)
Theorem falsy_keys_are_replaced (verify_key : bytes -> bytes)
  (generated_seed : bytes) (ecdsa : flawed_signer.ecdsa_package)
  (generated : flawed_signer.SigningKey) :
  flawed_eddsa_signer.init verify_key generated_seed (Some [])
  = Return {| flawed_eddsa_signer.private_key := generated_seed;
              flawed_eddsa_signer.public_key := verify_key generated_seed |}
  /\ flawed_eddsa_signer.init verify_key generated_seed (Some [])
     = flawed_eddsa_signer.init verify_key generated_seed None
  /\ (forall seed,
         seed <> [] -> List.length seed <> 32%nat ->
         flawed_eddsa_signer.init verify_key generated_seed (Some seed)
         = Raise (ValueError "Private key must be 32 bytes"))
  /\ flawed_signer.init ecdsa generated (Some 0)
     = flawed_signer.init ecdsa generated None
  /\ flawed_signer.init ecdsa generated (Some 0)
     = (x_bytes <- to_bytes (flawed_signer.point_x generated) 32 big ;;
        Return {| flawed_signer.private_key :=
                    flawed_signer.secret_multiplier generated;
                  flawed_signer.public_key :=
                    (if flawed_signer.point_y generated mod 2 =? 0
                     then [x02] else [x03]) ++ x_bytes |}).
Proof.
  split; [reflexivity |].
  split; [reflexivity |].
  split.
  - intros seed Hne Hlen. unfold flawed_eddsa_signer.init.
    destruct seed as [| b seed]; [contradiction |].
    cbn [flawed_eddsa_signer.truthy].
    destruct (Nat.eqb_spec (List.length (b :: seed)) 32); [contradiction |].
    reflexivity.
  - split; reflexivity.
Qed.

(** * Further properties of the EdDSA-style signer *)

Section EdDSA_more.

Import flawed_eddsa_signer.

Variable self : FlawedEdDSASigner.
Variable rnd : Z.

Lemma same_nonce_loop_map (nonce : Z) (messages : list bytes) :
  same_nonce_loop self nonce (nonce mod CURVE_ORDER)
    (le_digits 32 (nonce mod CURVE_ORDER)) messages
  = map (signed self nonce) messages.
Proof.
  induction messages as [| message rest IH]; [reflexivity |].
  cbn [same_nonce_loop map]. rewrite IH. reflexivity.
Qed.

Lemma sign_with_same_nonce_map (messages : list bytes) (nonce : option Z) :
  sign_with_same_nonce self rnd messages nonce
  = Return (map (signed self (default_nonce rnd nonce)) messages).
Proof.
  unfold sign_with_same_nonce. rewrite to_bytes_reduced. cbn [rbind].
  rewrite same_nonce_loop_map. reflexivity.
Qed.

Lemma affine_loop_nth (a b : Z) (messages : list bytes) :
  forall (len i current_nonce : Z) (j : nat) (message : bytes),
    len = i + Z.of_nat (List.length messages) ->
    nth_error messages j = Some message ->
    exists signatures,
      affine_loop self a b len i current_nonce messages = Return signatures
      /\ List.length signatures = List.length messages
      /\ nth_error signatures j =
         Some (signed self (eddsa_affine_nonce a b current_nonce j) message).
Proof.
  induction messages as [| m rest IH]; intros len i current_nonce j message Hlen Hj.
  - destruct j; discriminate Hj.
  - rewrite affine_loop_step. destruct j as [| j].
    + injection Hj as ->.
      destruct (affine_loop_returns self a b len rest (i + 1)
                  (if i <? len - 1
                   then (a * current_nonce + b) mod CURVE_ORDER
                   else current_nonce)) as [l [Hl Hlen']].
      rewrite Hl. eexists. split; [reflexivity |].
      split; [cbn [List.length]; rewrite Hlen'; reflexivity | reflexivity].
    + cbn [nth_error] in Hj.
      assert (Hlt : (i <? len - 1) = true).
      { apply Z.ltb_lt. cbn [List.length] in Hlen.
        assert (Hsome : nth_error rest j <> None) by (rewrite Hj; discriminate).
        apply nth_error_Some in Hsome. lia. }
      rewrite Hlt.
      destruct (IH len (i + 1) ((a * current_nonce + b) mod CURVE_ORDER) j
                  message) as [l [Hl [Hlen' Hnth]]].
      * cbn [List.length] in Hlen. lia.
      * exact Hj.
      * rewrite Hl. eexists. split; [reflexivity |].
        split; [cbn [List.length]; rewrite Hlen'; reflexivity |].
        cbn [nth_error]. rewrite Hnth.
        unfold eddsa_affine_nonce. rewrite Nat.iter_succ_r. reflexivity.
Qed.

Lemma sign_with_affine_nonces_nth (messages : list bytes) (a b : Z)
  (start_nonce : option Z) (j : nat) (message : bytes) :
  nth_error messages j = Some message ->
  exists signatures,
    sign_with_affine_nonces self rnd messages a b start_nonce
    = Return signatures
    /\ List.length signatures = List.length messages
    /\ nth_error signatures j =
       Some (signed self
               (eddsa_affine_nonce a b (default_nonce rnd start_nonce) j)
               message).
Proof.
  intros Hj. unfold sign_with_affine_nonces.
  apply affine_loop_nth; [lia | exact Hj].
Qed.

Lemma sign_with_hardcoded_step_nth (messages : list bytes) (step : Z)
  (start_nonce : option Z) (j : nat) (message : bytes) :
  nth_error messages j = Some message ->
  exists signatures,
    sign_with_hardcoded_step self rnd messages step start_nonce
    = Return signatures
    /\ nth_error signatures j =
       Some (signed self
               ((default_nonce rnd start_nonce + Z.of_nat j * step)
                mod CURVE_ORDER) message).
Proof.
  intros Hj. unfold sign_with_hardcoded_step.
  destruct (hardcoded_step_loop_nth self step (default_nonce rnd start_nonce)
              messages 0 j message Hj) as [l [Hl Hnth]].
  exists l. split; [exact Hl |]. rewrite Hnth.
  assert (E : 0 + Z.of_nat j = Z.of_nat j) by lia. rewrite E. reflexivity.
Qed.

End EdDSA_more.

(** ** What [attack] makes of two genuine signatures *)

Lemma signature_of_signed_under (self : flawed_eddsa_signer.FlawedEdDSASigner)
  (nonce : Z) (message : bytes) :
  signature_of_record (signed self nonce message)
  = Return (signature_under self nonce message).
Proof. apply signature_of_signed. Qed.

Lemma challenge_congruent (self : flawed_eddsa_signer.FlawedEdDSASigner)
  (k k' : Z) (message : bytes) :
  k mod flawed_eddsa_signer.CURVE_ORDER = k' mod flawed_eddsa_signer.CURVE_ORDER ->
  challenge self k message = challenge self k' message.
Proof. intros E. unfold challenge. rewrite E. reflexivity. Qed.

Lemma signature_under_congruent
  (self : flawed_eddsa_signer.FlawedEdDSASigner) (k k' : Z) (message : bytes) :
  k mod flawed_eddsa_signer.CURVE_ORDER = k' mod flawed_eddsa_signer.CURVE_ORDER ->
  signature_under self k message = signature_under self k' message.
Proof.
  intros E. unfold signature_under.
  rewrite (challenge_congruent self k k' message E), E.
  rewrite (add_congruent _ _ _ _ E). reflexivity.
Qed.

Lemma sig_r_signed (self : flawed_eddsa_signer.FlawedEdDSASigner)
  (nonce : Z) (message : bytes) :
  flawed_eddsa_signer.sig_r (signed self nonce message)
  = hex (nonce mod flawed_eddsa_signer.CURVE_ORDER).
Proof.
  unfold signed, flawed_eddsa_signer.record.
  cbn [flawed_eddsa_signer.sig_r]. reflexivity.
Qed.

(** The recovery on the signatures of two nonces in the relation
    [k2 = alpha * k1 + beta (mod n)]. *)
Lemma attack_recovers (self : flawed_eddsa_signer.FlawedEdDSASigner)
  (k1 k2 : Z) (m1 m2 : bytes) (alpha beta : Z) :
  let n := flawed_eddsa_signer.CURVE_ORDER in
  k2 mod n = (alpha * k1 + beta) mod n ->
  challenge self k2 m2 mod n <> (alpha * challenge self k1 m1) mod n ->
  attacker.attack_result (signature_under self k1 m1)
    (signature_under self k2 m2) alpha beta
  = Return (Some (flawed_eddsa_signer.signing_scalar self)).
Proof.
  intros n Hrel Hindep.
  set (k2' := (alpha * k1 + beta) mod n).
  assert (Hk : k2 mod n = k2' mod n).
  { subst k2'. rewrite Z.mod_mod by discriminate. exact Hrel. }
  rewrite (signature_under_congruent self k2 k2' m2 Hk).
  rewrite (challenge_congruent self k2 k2' m2 Hk) in Hindep.
  set (h1 := challenge self k1 m1) in *.
  set (h2 := challenge self k2' m2) in *.
  unfold attacker.attack_result, signature_under.
  rewrite (attack_same_key_run _ _ _ _ _ _ _ _ _ _ _
             (attacker_challenge self k1 m1) (attacker_challenge self k2' m2)).
  fold h1. fold h2. change attacker.CURVE_ORDER with n.
  assert (Hden : (h2 - alpha * h1) mod n <> 0).
  { intros E. apply Hindep. apply Z.cong_iff_0. exact E. }
  destruct (Z.eqb_spec ((h2 - alpha * h1) mod n) 0) as [E | _]; [contradiction |].
  cbn [snd]. apply (f_equal (fun x => Return (Some x))).
  transitivity (flawed_eddsa_signer.signing_scalar self mod n).
  - exact (recover_algebra n (flawed_eddsa_signer.signing_scalar self) k1 h1 h2
             alpha beta order_prime Hden).
  - unfold flawed_eddsa_signer.signing_scalar. fold n.
    rewrite Z.mod_mod by discriminate. reflexivity.
Qed.

(** X1. Nonce reuse: [sign_with_same_nonce] always returns, one record
    per message; any two of its records carry the same [r]; and when the
    challenges of their two messages differ modulo [n], [attack] with
    [(alpha, beta) = (1, 0)] on the two records returns the signing
    scalar. *)
Theorem same_nonce_round_trip (self : flawed_eddsa_signer.FlawedEdDSASigner)
  (rnd : Z) (messages : list bytes) (nonce : option Z) :
  let n := flawed_eddsa_signer.CURVE_ORDER in
  let k := flawed_eddsa_signer.default_nonce rnd nonce in
  exists signatures,
    flawed_eddsa_signer.sign_with_same_nonce self rnd messages nonce
    = Return signatures
    /\ List.length signatures = List.length messages
    /\ forall i j di dj,
         nth_error signatures i = Some di ->
         nth_error signatures j = Some dj ->
         flawed_eddsa_signer.sig_r di = flawed_eddsa_signer.sig_r dj
         /\ forall mi mj,
              nth_error messages i = Some mi ->
              nth_error messages j = Some mj ->
              challenge self k mj mod n <> challenge self k mi mod n ->
              exists sigi sigj,
                signature_of_record di = Return sigi
                /\ signature_of_record dj = Return sigj
                /\ attacker.attack_result sigi sigj 1 0
                   = Return
                       (Some (from_bytes_little
                                (firstn 32
                                   (flawed_eddsa_signer.private_key self))
                              mod n)).
Proof.
  intros n k.
  exists (map (signed self k) messages).
  split; [apply sign_with_same_nonce_map |].
  split; [apply length_map |].
  intros i j di dj Hdi Hdj.
  rewrite nth_error_map in Hdi, Hdj.
  destruct (nth_error messages i) as [mi' |] eqn:Ei; [| discriminate Hdi].
  destruct (nth_error messages j) as [mj' |] eqn:Ej; [| discriminate Hdj].
  cbn [option_map] in Hdi, Hdj.
  injection Hdi as <-. injection Hdj as <-.
  split; [rewrite !sig_r_signed; reflexivity |].
  intros mi mj Hi Hj Hindep.
  injection Hi as <-. injection Hj as <-.
  exists (signature_under self k mi'), (signature_under self k mj').
  split; [apply signature_of_signed_under |].
  split; [apply signature_of_signed_under |].
  apply (attack_recovers self k k mi' mj' 1 0).
  - apply (f_equal (fun x => x mod n)). ring.
  - rewrite Z.mul_1_l. exact Hindep.
Qed.

Lemma same_nonce_round_trip_witness :
  exists signatures d1 d2 sig1 sig2,
    flawed_eddsa_signer.sign_with_same_nonce sample_signer.self 0
      [sample.m1; sample.m2] (Some 13) = Return signatures
    /\ nth_error signatures 0 = Some d1
    /\ nth_error signatures 1 = Some d2
    /\ flawed_eddsa_signer.sig_r d1 = flawed_eddsa_signer.sig_r d2
    /\ signature_of_record d1 = Return sig1
    /\ signature_of_record d2 = Return sig2
    /\ attacker.attack_result sig1 sig2 1 0
       = Return (Some (flawed_eddsa_signer.signing_scalar sample_signer.self)).
Proof.
  assert (Hindep :
            challenge sample_signer.self 13 sample.m2
            mod flawed_eddsa_signer.CURVE_ORDER
            <> challenge sample_signer.self 13 sample.m1
               mod flawed_eddsa_signer.CURVE_ORDER)
    by (vm_compute; discriminate).
  destruct (same_nonce_round_trip sample_signer.self 0 [sample.m1; sample.m2]
              (Some 13)) as (l & H & Hlen & Hall).
  destruct l as [| d1 [| d2 l']]; try discriminate Hlen.
  destruct (Hall 0%nat 1%nat d1 d2 eq_refl eq_refl) as [Hr Hrec].
  destruct (Hrec sample.m1 sample.m2 eq_refl eq_refl Hindep)
    as (sig1 & sig2 & Hs1 & Hs2 & Ha).
  exists (d1 :: d2 :: l'), d1, d2, sig1, sig2.
  split; [exact H |]. split; [reflexivity |]. split; [reflexivity |].
  split; [exact Hr |].
  split; [exact Hs1 |]. split; [exact Hs2 |]. exact Ha.
Defined.

(** X2. Any two consecutive records of [sign_with_affine_nonces], not
    only the first two, recover the scalar.  The [r] of record [j] is the
    nonce [k_j mod n], where [k_j] is the [j]-th iterate of the recurrence
    from the start nonce, and the [r] of record [j + 1] is
    [(a * k_j + b) mod n]; when the two challenges satisfy
    [h' <> a * h (mod n)], [attack] with [(a, b)] returns the signing
    scalar. *)
Theorem affine_consecutive_round_trip
  (self : flawed_eddsa_signer.FlawedEdDSASigner) (rnd : Z)
  (messages : list bytes) (a b : Z) (start_nonce : option Z) (j : nat)
  (m m' : bytes) :
  let n := flawed_eddsa_signer.CURVE_ORDER in
  let k := eddsa_affine_nonce a b
             (flawed_eddsa_signer.default_nonce rnd start_nonce) j in
  let k' := (a * k + b) mod n in
  nth_error messages j = Some m ->
  nth_error messages (S j) = Some m' ->
  exists signatures d d' sig sig',
    flawed_eddsa_signer.sign_with_affine_nonces self rnd messages a b
      start_nonce = Return signatures
    /\ nth_error signatures j = Some d
    /\ nth_error signatures (S j) = Some d'
    /\ flawed_eddsa_signer.sig_r d = hex (k mod n)
    /\ flawed_eddsa_signer.sig_r d' = hex k'
    /\ signature_of_record d = Return sig
    /\ signature_of_record d' = Return sig'
    /\ (challenge self k' m' mod n <> (a * challenge self k m) mod n ->
        attacker.attack_result sig sig' a b
        = Return (Some (from_bytes_little
                          (firstn 32 (flawed_eddsa_signer.private_key self))
                        mod n))).
Proof.
  intros n k k' Hj Hj'.
  destruct (sign_with_affine_nonces_nth self rnd messages a b start_nonce j m Hj)
    as (l & Hl & _ & Hnth).
  destruct (sign_with_affine_nonces_nth self rnd messages a b start_nonce (S j)
              m' Hj') as (l' & Hl' & _ & Hnth').
  rewrite Hl in Hl'. injection Hl' as <-.
  exists l, (signed self k m), (signed self k' m'),
    (signature_under self k m), (signature_under self k' m').
  split; [exact Hl |]. split; [exact Hnth |].
  split; [exact Hnth' |].
  split; [exact (sig_r_signed self k m) |].
  split.
  { rewrite sig_r_signed. subst k'. rewrite Z.mod_mod by discriminate.
    reflexivity. }
  split; [apply signature_of_signed_under |].
  split; [apply signature_of_signed_under |].
  intros Hindep.
  apply (attack_recovers self k k' m m' a b).
  - subst k'. rewrite Z.mod_mod by discriminate. reflexivity.
  - exact Hindep.
Qed.

Lemma affine_consecutive_round_trip_witness :
  exists signatures d d' sig sig',
    flawed_eddsa_signer.sign_with_affine_nonces sample_signer.self 0
      [sample.m1; sample.m2; sample.m1] 3 5 (Some 13) = Return signatures
    /\ nth_error signatures 1 = Some d
    /\ nth_error signatures 2 = Some d'
    /\ signature_of_record d = Return sig
    /\ signature_of_record d' = Return sig'
    /\ attacker.attack_result sig sig' 3 5
       = Return (Some (flawed_eddsa_signer.signing_scalar sample_signer.self)).
Proof.
  assert (Hindep :
            challenge sample_signer.self
              ((3 * eddsa_affine_nonce 3 5 13 1 + 5)
               mod flawed_eddsa_signer.CURVE_ORDER) sample.m1
            mod flawed_eddsa_signer.CURVE_ORDER
            <> (3 * challenge sample_signer.self (eddsa_affine_nonce 3 5 13 1)
                      sample.m2)
               mod flawed_eddsa_signer.CURVE_ORDER)
    by (vm_compute; discriminate).
  destruct (affine_consecutive_round_trip sample_signer.self 0
              [sample.m1; sample.m2; sample.m1] 3 5 (Some 13) 1 sample.m2
              sample.m1 eq_refl eq_refl)
    as (l & d & d' & sig & sig' & Hl & Hd & Hd' & _ & _ & Hs & Hs' & Ha).
  exists l, d, d', sig, sig'.
  split; [exact Hl |]. split; [exact Hd |]. split; [exact Hd' |].
  split; [exact Hs |]. split; [exact Hs' |]. exact (Ha Hindep).
Defined.

(** X3. Any two records of [sign_with_hardcoded_step], at indices [i]
    and [j] in either order, recover the scalar with
    [(alpha, beta) = (1, (j - i) * step)] when their challenges differ
    modulo [n]. *)
Theorem hardcoded_step_pair_round_trip
  (self : flawed_eddsa_signer.FlawedEdDSASigner) (rnd : Z)
  (messages : list bytes) (step : Z) (start_nonce : option Z) (i j : nat)
  (mi mj : bytes) :
  let n := flawed_eddsa_signer.CURVE_ORDER in
  let k0 := flawed_eddsa_signer.default_nonce rnd start_nonce in
  let ki := (k0 + Z.of_nat i * step) mod n in
  let kj := (k0 + Z.of_nat j * step) mod n in
  nth_error messages i = Some mi ->
  nth_error messages j = Some mj ->
  challenge self kj mj mod n <> challenge self ki mi mod n ->
  exists signatures di dj sigi sigj,
    flawed_eddsa_signer.sign_with_hardcoded_step self rnd messages step
      start_nonce = Return signatures
    /\ nth_error signatures i = Some di
    /\ nth_error signatures j = Some dj
    /\ signature_of_record di = Return sigi
    /\ signature_of_record dj = Return sigj
    /\ attacker.attack_result sigi sigj 1 ((Z.of_nat j - Z.of_nat i) * step)
       = Return (Some (from_bytes_little
                         (firstn 32 (flawed_eddsa_signer.private_key self))
                       mod n)).
Proof.
  intros n k0 ki kj Hi Hj Hindep.
  destruct (sign_with_hardcoded_step_nth self rnd messages step start_nonce i
              mi Hi) as (l & Hl & Hnth).
  destruct (sign_with_hardcoded_step_nth self rnd messages step start_nonce j
              mj Hj) as (l' & Hl' & Hnth').
  rewrite Hl in Hl'. injection Hl' as <-.
  exists l, (signed self ki mi), (signed self kj mj),
    (signature_under self ki mi), (signature_under self kj mj).
  split; [exact Hl |]. split; [exact Hnth |]. split; [exact Hnth' |].
  split; [apply signature_of_signed_under |].
  split; [apply signature_of_signed_under |].
  apply (attack_recovers self ki kj mi mj 1 ((Z.of_nat j - Z.of_nat i) * step)).
  - subst ki kj. rewrite Z.mod_mod by discriminate.
    rewrite Z.mul_1_l, Z.add_mod_idemp_l by discriminate.
    apply (f_equal (fun x => x mod n)). ring.
  - rewrite Z.mul_1_l. exact Hindep.
Qed.

Lemma hardcoded_step_pair_round_trip_witness :
  exists signatures di dj sigi sigj,
    flawed_eddsa_signer.sign_with_hardcoded_step sample_signer.self 0
      [sample.m1; sample.m2; sample.m1] 1234567 (Some 13) = Return signatures
    /\ nth_error signatures 2 = Some di
    /\ nth_error signatures 0 = Some dj
    /\ signature_of_record di = Return sigi
    /\ signature_of_record dj = Return sigj
    /\ attacker.attack_result sigi sigj 1 ((0 - 2) * 1234567)
       = Return (Some (flawed_eddsa_signer.signing_scalar sample_signer.self)).
Proof.
  assert (Hindep :
            challenge sample_signer.self
              ((13 + Z.of_nat 0 * 1234567) mod flawed_eddsa_signer.CURVE_ORDER)
              sample.m1
            mod flawed_eddsa_signer.CURVE_ORDER
            <> challenge sample_signer.self
                 ((13 + Z.of_nat 2 * 1234567)
                  mod flawed_eddsa_signer.CURVE_ORDER) sample.m1
               mod flawed_eddsa_signer.CURVE_ORDER)
    by (vm_compute; discriminate).
  exact (hardcoded_step_pair_round_trip sample_signer.self 0
           [sample.m1; sample.m2; sample.m1] 1234567 (Some 13) 2 0 sample.m1
           sample.m1 eq_refl eq_refl Hindep).
Defined.

(** X4. The [r] of record [i] of [sign_with_counter_nonce] is the nonce
    [(start + i) mod n], and any two records, at indices [i] and [j],
    recover the scalar with [(alpha, beta) = (1, j - i)] when their
    challenges differ modulo [n]. *)
Theorem counter_pair_round_trip
  (self : flawed_eddsa_signer.FlawedEdDSASigner) (rnd : Z)
  (messages : list bytes) (start_nonce : option Z) (i j : nat)
  (mi mj : bytes) :
  let n := flawed_eddsa_signer.CURVE_ORDER in
  let k0 := flawed_eddsa_signer.default_nonce rnd start_nonce in
  let ki := (k0 + Z.of_nat i) mod n in
  let kj := (k0 + Z.of_nat j) mod n in
  nth_error messages i = Some mi ->
  nth_error messages j = Some mj ->
  exists signatures di dj sigi sigj,
    flawed_eddsa_signer.sign_with_counter_nonce self rnd messages start_nonce
    = Return signatures
    /\ nth_error signatures i = Some di
    /\ nth_error signatures j = Some dj
    /\ flawed_eddsa_signer.sig_r di = hex ki
    /\ flawed_eddsa_signer.sig_r dj = hex kj
    /\ signature_of_record di = Return sigi
    /\ signature_of_record dj = Return sigj
    /\ (challenge self kj mj mod n <> challenge self ki mi mod n ->
        attacker.attack_result sigi sigj 1 (Z.of_nat j - Z.of_nat i)
        = Return (Some (from_bytes_little
                          (firstn 32 (flawed_eddsa_signer.private_key self))
                        mod n))).
Proof.
  intros n k0 ki kj Hi Hj.
  destruct (eddsa_counter_policy self rnd messages start_nonce i mi Hi)
    as (l & Hl & Hnth).
  destruct (eddsa_counter_policy self rnd messages start_nonce j mj Hj)
    as (l' & Hl' & Hnth').
  rewrite Hl in Hl'. injection Hl' as <-.
  exists l, (signed self ki mi), (signed self kj mj),
    (signature_under self ki mi), (signature_under self kj mj).
  split; [exact Hl |]. split; [exact Hnth |]. split; [exact Hnth' |].
  split.
  { rewrite sig_r_signed. subst ki. rewrite Z.mod_mod by discriminate.
    reflexivity. }
  split.
  { rewrite sig_r_signed. subst kj. rewrite Z.mod_mod by discriminate.
    reflexivity. }
  split; [apply signature_of_signed_under |].
  split; [apply signature_of_signed_under |].
  intros Hindep.
  apply (attack_recovers self ki kj mi mj 1 (Z.of_nat j - Z.of_nat i)).
  - subst ki kj. rewrite Z.mod_mod by discriminate.
    rewrite Z.mul_1_l, Z.add_mod_idemp_l by discriminate.
    apply (f_equal (fun x => x mod n)). ring.
  - rewrite Z.mul_1_l. exact Hindep.
Qed.

Lemma counter_pair_round_trip_witness :
  exists signatures di dj sigi sigj,
    flawed_eddsa_signer.sign_with_counter_nonce sample_signer.self 0
      [sample.m1; sample.m2; sample.m1] (Some 13) = Return signatures
    /\ nth_error signatures 0 = Some di
    /\ nth_error signatures 2 = Some dj
    /\ signature_of_record di = Return sigi
    /\ signature_of_record dj = Return sigj
    /\ attacker.attack_result sigi sigj 1 (2 - 0)
       = Return (Some (flawed_eddsa_signer.signing_scalar sample_signer.self)).
Proof.
  assert (Hindep :
            challenge sample_signer.self
              ((13 + Z.of_nat 2) mod flawed_eddsa_signer.CURVE_ORDER) sample.m1
            mod flawed_eddsa_signer.CURVE_ORDER
            <> challenge sample_signer.self
                 ((13 + Z.of_nat 0) mod flawed_eddsa_signer.CURVE_ORDER)
                 sample.m1
               mod flawed_eddsa_signer.CURVE_ORDER)
    by (vm_compute; discriminate).
  destruct (counter_pair_round_trip sample_signer.self 0
              [sample.m1; sample.m2; sample.m1] (Some 13) 0 2 sample.m1
              sample.m1 eq_refl eq_refl)
    as (l & di & dj & sigi & sigj & Hl & Hdi & Hdj & _ & _ & Hsi & Hsj & Ha).
  exists l, di, dj, sigi, sigj.
  split; [exact Hl |]. split; [exact Hdi |]. split; [exact Hdj |].
  split; [exact Hsi |]. split; [exact Hsj |]. exact (Ha Hindep).
Defined.

(** ** Every record the signer returns is a signature *)

Lemma signed_valid (self : flawed_eddsa_signer.FlawedEdDSASigner) (nonce : Z)
  (message : bytes) :
  valid_record self message (signed self nonce message).
Proof.
  exists (nonce mod flawed_eddsa_signer.CURVE_ORDER),
    ((nonce + challenge self nonce message
              * flawed_eddsa_signer.signing_scalar self)
     mod flawed_eddsa_signer.CURVE_ORDER),
    (challenge self nonce message).
  split; [apply signature_of_signed |].
  split; [apply Z.mod_pos_bound; reflexivity |].
  split; [apply Z.mod_pos_bound; reflexivity |].
  split; [apply attacker_challenge |].
  rewrite Z.add_mod_idemp_l by discriminate. reflexivity.
Qed.

Lemma Forall2_map_signed (self : flawed_eddsa_signer.FlawedEdDSASigner)
  (nonce : Z) (messages : list bytes) :
  Forall2 (valid_record self) messages (map (signed self nonce) messages).
Proof.
  induction messages as [| m rest IH]; cbn [map]; constructor;
    [apply signed_valid | exact IH].
Qed.

Lemma affine_loop_valid (self : flawed_eddsa_signer.FlawedEdDSASigner)
  (a b len : Z) (messages : list bytes) :
  forall i current_nonce,
    exists signatures,
      flawed_eddsa_signer.affine_loop self a b len i current_nonce messages
      = Return signatures
      /\ Forall2 (valid_record self) messages signatures.
Proof.
  induction messages as [| m rest IH]; intros i current_nonce.
  - exists []. split; [reflexivity | constructor].
  - rewrite affine_loop_step.
    destruct (IH (i + 1)
                (if i <? len - 1
                 then (a * current_nonce + b) mod flawed_eddsa_signer.CURVE_ORDER
                 else current_nonce)) as [l [Hl Hall]].
    rewrite Hl. eexists. split; [reflexivity |].
    constructor; [apply signed_valid | exact Hall].
Qed.

Lemma hardcoded_step_loop_valid (self : flawed_eddsa_signer.FlawedEdDSASigner)
  (step start_nonce : Z) (messages : list bytes) :
  forall i,
    exists signatures,
      flawed_eddsa_signer.hardcoded_step_loop self step start_nonce i messages
      = Return signatures
      /\ Forall2 (valid_record self) messages signatures.
Proof.
  induction messages as [| m rest IH]; intros i.
  - exists []. split; [reflexivity | constructor].
  - rewrite hardcoded_step_loop_step.
    destruct (IH (i + 1)) as [l [Hl Hall]].
    rewrite Hl. eexists. split; [reflexivity |].
    constructor; [apply signed_valid | exact Hall].
Qed.

(** X5. The four EdDSA-style signing methods never raise, whatever the
    messages, coefficients and nonce: each returns one record per message,
    in order, and every record reads back as a signature of its message
    under the signer's public key with [r] and [s] in [[0, n)] and
    [s = r + H(r, A, M) * a (mod n)]. *)
Theorem eddsa_signing_never_fails
  (self : flawed_eddsa_signer.FlawedEdDSASigner) (rnd : Z)
  (messages : list bytes) (a b step : Z) (nonce : option Z) :
  exists same affine counter stepped,
    flawed_eddsa_signer.sign_with_same_nonce self rnd messages nonce
    = Return same
    /\ flawed_eddsa_signer.sign_with_affine_nonces self rnd messages a b nonce
       = Return affine
    /\ flawed_eddsa_signer.sign_with_counter_nonce self rnd messages nonce
       = Return counter
    /\ flawed_eddsa_signer.sign_with_hardcoded_step self rnd messages step nonce
       = Return stepped
    /\ Forall2 (valid_record self) messages same
    /\ Forall2 (valid_record self) messages affine
    /\ Forall2 (valid_record self) messages counter
    /\ Forall2 (valid_record self) messages stepped.
Proof.
  destruct (affine_loop_valid self a b (Z.of_nat (List.length messages))
              messages 0 (flawed_eddsa_signer.default_nonce rnd nonce))
    as [affine [Haffine Vaffine]].
  destruct (affine_loop_valid self 1 1 (Z.of_nat (List.length messages))
              messages 0 (flawed_eddsa_signer.default_nonce rnd nonce))
    as [counter [Hcounter Vcounter]].
  destruct (hardcoded_step_loop_valid self step
              (flawed_eddsa_signer.default_nonce rnd nonce) messages 0)
    as [stepped [Hstepped Vstepped]].
  exists (map (signed self (flawed_eddsa_signer.default_nonce rnd nonce))
            messages), affine, counter, stepped.
  split; [apply sign_with_same_nonce_map |].
  split; [exact Haffine |]. split; [exact Hcounter |].
  split; [exact Hstepped |].
  split; [apply Forall2_map_signed |].
  split; [exact Vaffine |]. split; [exact Vcounter | exact Vstepped].
Qed.

(** X6. [get_key_info] gives the seed as an unreduced integer: for a
    32-byte seed, ['private_key'] encodes back to the seed, the scalar the
    signing methods use (and [attack] recovers) is ['private_key'] modulo
    [n], and the two are equal exactly when ['private_key'] is below [n];
    ['public_key_hex'] and ['public_key'] both decode to the public
    key. *)
Theorem key_info_private_key (self : flawed_eddsa_signer.FlawedEdDSASigner) :
  List.length (flawed_eddsa_signer.private_key self) = 32%nat ->
  let info := flawed_eddsa_signer_main.get_key_info self in
  let key := flawed_eddsa_signer_main.info_private_key info in
  let n := flawed_eddsa_signer.CURVE_ORDER in
  to_bytes key 32 little = Return (flawed_eddsa_signer.private_key self)
  /\ flawed_eddsa_signer.signing_scalar self = key mod n
  /\ (flawed_eddsa_signer.signing_scalar self = key <-> key < n)
  /\ fromhex (flawed_eddsa_signer_main.info_public_key_hex info)
     = Return (flawed_eddsa_signer.public_key self)
  /\ fromhex (flawed_eddsa_signer_main.info_public_key info)
     = Return (flawed_eddsa_signer.public_key self).
Proof.
  intros Hlen info key n.
  assert (Hfirst : firstn 32 (flawed_eddsa_signer.private_key self)
                   = flawed_eddsa_signer.private_key self).
  { apply firstn_all2. rewrite Hlen. apply le_n. }
  assert (Hkey : key = from_bytes_little (flawed_eddsa_signer.private_key self)).
  { subst key info. unfold flawed_eddsa_signer_main.get_key_info.
    cbn [flawed_eddsa_signer_main.info_private_key]. rewrite Hfirst. reflexivity. }
  pose proof (from_bytes_little_range (flawed_eddsa_signer.private_key self))
    as Hrange.
  rewrite Hlen, <- Hkey in Hrange.
  split.
  { rewrite to_bytes_little_ok by exact Hrange.
    rewrite Hkey, <- Hlen, le_digits_from_bytes_little. reflexivity. }
  split; [reflexivity |].
  split.
  { change (flawed_eddsa_signer.signing_scalar self) with (key mod n). split.
    - intros E. rewrite <- E. apply Z.mod_pos_bound. reflexivity.
    - intros Hlt. apply Z.mod_small. lia. }
  split; apply fromhex_bytes_hex.
Qed.

Lemma key_info_private_key_witness :
  List.length (flawed_eddsa_signer.private_key sample_signer.self) = 32%nat
  /\ to_bytes (flawed_eddsa_signer_main.info_private_key
                 (flawed_eddsa_signer_main.get_key_info sample_signer.self))
       32 little
     = Return (flawed_eddsa_signer.private_key sample_signer.self).
Proof.
  split; [reflexivity |].
  exact (proj1 (key_info_private_key sample_signer.self eq_refl)).
Defined.

(** * Further properties of [attack] *)

(** The value of [attack] in closed form, all cases. *)
Lemma attack_result_closed (r1 s1 r2 s2 : Z) (pk1 m1 pk2 m2 : bytes)
  (alpha beta : Z) :
  attacker.attack_result (r1, s1, pk1, m1) (r2, s2, pk2, m2) alpha beta =
    if negb (bytes_eqb pk1 pk2) then
      Raise (ValueError "Signatures must use the same public key")
    else
      h1 <- attacker.compute_h r1 pk1 m1 ;;
      h2 <- attacker.compute_h r2 pk1 m2 ;;
      let denominator := (h2 - alpha * h1) mod attacker.CURVE_ORDER in
      if denominator =? 0 then Return None
      else
        Return (Some (((s2 - alpha * s1 - beta) mod attacker.CURVE_ORDER
                       * Z.invmod denominator attacker.CURVE_ORDER)
                      mod attacker.CURVE_ORDER)).
Proof.
  destruct (bytes_eqb pk1 pk2) eqn:Epk; cbn [negb].
  - apply bytes_eqb_eq in Epk. subst pk2.
    destruct (attacker.compute_h r1 pk1 m1) as [h1 | e1] eqn:E1.
    + destruct (attacker.compute_h r2 pk1 m2) as [h2 | e2] eqn:E2.
      * unfold attacker.attack_result.
        rewrite (attack_same_key_run _ _ _ _ _ _ _ _ _ _ _ E1 E2).
        cbn [rbind].
        destruct ((h2 - alpha * h1) mod attacker.CURVE_ORDER =? 0); reflexivity.
      * unfold attacker.attack_result, attacker.attack.
        rewrite bytes_eqb_refl. cbn [negb].
        unfold pbind, emit, lift. rewrite E1, E2. reflexivity.
    + unfold attacker.attack_result, attacker.attack.
      rewrite bytes_eqb_refl. cbn [negb].
      unfold pbind, emit, lift. rewrite E1. reflexivity.
  - unfold attacker.attack_result.
    rewrite attack_mismatch_run; [reflexivity |].
    intros ->. rewrite bytes_eqb_refl in Epk. discriminate Epk.
Qed.

Lemma sub_congruent (q x x' y y' : Z) :
  x mod q = x' mod q -> y mod q = y' mod q -> (x - y) mod q = (x' - y') mod q.
Proof.
  intros Ex Ey. destruct (Z.eq_dec q 0) as [-> | Hq].
  - rewrite !Z.mod_0_r in *. subst. reflexivity.
  - rewrite (Zminus_mod x y), (Zminus_mod x' y'), Ex, Ey. reflexivity.
Qed.

Lemma mul_congruent (q x x' y y' : Z) :
  x mod q = x' mod q -> y mod q = y' mod q -> (x * y) mod q = (x' * y') mod q.
Proof.
  intros Ex Ey. destruct (Z.eq_dec q 0) as [-> | Hq].
  - rewrite !Z.mod_0_r in *. subst. reflexivity.
  - rewrite (Z.mul_mod x y), (Z.mul_mod x' y'), Ex, Ey by exact Hq. reflexivity.
Qed.

(** X7. Only the residues modulo [n] of the coefficients and of the [s]
    values enter [attack]: replacing [alpha], [beta], [s1] or [s2] by a
    congruent integer (a negative offset, an unreduced product) changes
    neither the value returned nor the exception raised. *)
Theorem attack_modulo_order (r1 s1 r2 s2 : Z) (pk1 m1 pk2 m2 : bytes)
  (alpha beta s1' s2' alpha' beta' : Z) :
  let n := attacker.CURVE_ORDER in
  s1 mod n = s1' mod n -> s2 mod n = s2' mod n ->
  alpha mod n = alpha' mod n -> beta mod n = beta' mod n ->
  attacker.attack_result (r1, s1, pk1, m1) (r2, s2, pk2, m2) alpha beta
  = attacker.attack_result (r1, s1', pk1, m1) (r2, s2', pk2, m2) alpha' beta'.
Proof.
  intros n Hs1 Hs2 Ha Hb. rewrite !attack_result_closed.
  destruct (negb (bytes_eqb pk1 pk2)); [reflexivity |].
  destruct (attacker.compute_h r1 pk1 m1) as [h1 | e1]; [| reflexivity].
  destruct (attacker.compute_h r2 pk1 m2) as [h2 | e2]; [| reflexivity].
  cbn [rbind]. fold n. cbv zeta.
  assert (Hden : (h2 - alpha * h1) mod n = (h2 - alpha' * h1) mod n).
  { apply sub_congruent; [reflexivity |].
    apply mul_congruent; [exact Ha | reflexivity]. }
  assert (Hnum : (s2 - alpha * s1 - beta) mod n
                 = (s2' - alpha' * s1' - beta') mod n).
  { apply sub_congruent; [| exact Hb].
    apply sub_congruent; [exact Hs2 |].
    apply mul_congruent; [exact Ha | exact Hs1]. }
  rewrite Hden, Hnum. reflexivity.
Qed.

Lemma attack_modulo_order_witness :
  attacker.attack_result (13, 5, sample.public_key, sample.m1)
    (17, 7, sample.public_key, sample.m2) 2 1
  = attacker.attack_result
      (13, 5 + attacker.CURVE_ORDER, sample.public_key, sample.m1)
      (17, 7 - attacker.CURVE_ORDER, sample.public_key, sample.m2)
      (2 - attacker.CURVE_ORDER) (1 + 3 * attacker.CURVE_ORDER).
Proof.
  apply (attack_modulo_order 13 5 17 7 sample.public_key sample.m1
           sample.public_key sample.m2 2 1 (5 + attacker.CURVE_ORDER)
           (7 - attacker.CURVE_ORDER) (2 - attacker.CURVE_ORDER)
           (1 + 3 * attacker.CURVE_ORDER)); reflexivity.
Defined.

(** X8. What [attack] returns is the solution of the linear congruence,
    whether or not the signatures are genuine: a returned scalar [a] lies
    in [[0, n)], satisfies [a * (h2 - alpha * h1) = s2 - alpha * s1 - beta
    (mod n)] for the recomputed challenges, and is the only such value in
    [[0, n)]. *)
Theorem attack_returns_the_solution (r1 s1 r2 s2 : Z) (pk1 m1 pk2 m2 : bytes)
  (alpha beta a : Z) :
  let n := attacker.CURVE_ORDER in
  attacker.attack_result (r1, s1, pk1, m1) (r2, s2, pk2, m2) alpha beta
  = Return (Some a) ->
  pk1 = pk2
  /\ 0 <= a < n
  /\ exists h1 h2,
       attacker.compute_h r1 pk1 m1 = Return h1
       /\ attacker.compute_h r2 pk1 m2 = Return h2
       /\ (a * (h2 - alpha * h1)) mod n = (s2 - alpha * s1 - beta) mod n
       /\ forall a',
            0 <= a' < n ->
            (a' * (h2 - alpha * h1)) mod n = (s2 - alpha * s1 - beta) mod n ->
            a' = a.
Proof.
  intros n H. rewrite attack_result_closed in H.
  destruct (bytes_eqb pk1 pk2) eqn:Epk; cbn [negb] in H; [| discriminate H].
  apply bytes_eqb_eq in Epk.
  destruct (attacker.compute_h r1 pk1 m1) as [h1 | e1]; [| discriminate H].
  destruct (attacker.compute_h r2 pk1 m2) as [h2 | e2]; [| discriminate H].
  cbn [rbind] in H. cbv zeta in H. fold n in H.
  set (den := (h2 - alpha * h1) mod n) in *.
  set (num := (s2 - alpha * s1 - beta) mod n) in *.
  destruct (Z.eqb_spec den 0) as [E0 | Hden]; [discriminate H |].
  injection H as Ha.
  assert (Hn0 : n <> 0) by discriminate.
  assert (Hinv : (Z.invmod den n * den) mod n = 1).
  { apply Z.invmod_prime; [exact order_prime |].
    subst den. rewrite Z.mod_mod by exact Hn0. exact Hden. }
  assert (Hsol : (a * (h2 - alpha * h1)) mod n = num).
  { rewrite <- Ha, Z.mul_mod_idemp_l by exact Hn0.
    rewrite <- Z.mul_mod_idemp_r by exact Hn0. fold den.
    rewrite <- Z.mul_assoc, <- Z.mul_mod_idemp_r, Hinv, Z.mul_1_r by exact Hn0.
    subst num. apply Z.mod_mod. exact Hn0. }
  split; [exact Epk |].
  split; [rewrite <- Ha; apply Z.mod_pos_bound; reflexivity |].
  exists h1, h2. split; [reflexivity |]. split; [reflexivity |].
  split; [exact Hsol |].
  intros a' Ha' Hsol'.
  assert (Hdiff : ((a' - a) * den) mod n = 0).
  { subst den. rewrite Z.mul_mod_idemp_r by exact Hn0.
    rewrite Z.mul_sub_distr_r. apply Z.cong_iff_0. congruence. }
  assert (Hcop : Z.coprime den n).
  { unfold Z.coprime. rewrite Z.gcd_comm.
    apply Z.coprime_prime_small; [exact order_prime |].
    pose proof (Z.mod_pos_bound (h2 - alpha * h1) n eq_refl) as Hb.
    fold den in Hb. lia. }
  pose proof (Z.cong_mul_cancel_r_coprime _ _ _ Hn0 Hcop Hdiff) as Hz.
  assert (Harange : 0 <= a < n)
    by (rewrite <- Ha; apply Z.mod_pos_bound; reflexivity).
  apply Z.mod_divide in Hz; [| exact Hn0].
  destruct Hz as [c Hc].
  assert (c = 0) by nia. subst c. lia.
Qed.

Lemma attack_returns_the_solution_witness :
  0 <= sample_attack.forged_solution < attacker.CURVE_ORDER.
Proof.
  exact (proj1 (proj2 (attack_returns_the_solution 13 5 17 7 sample.public_key
                         sample.m1 sample.public_key sample.m2 2 1
                         sample_attack.forged_solution
                         ltac:(vm_compute; reflexivity)))).
Defined.

(** * The secp256k1 scalar field *)

Lemma prime_9349 : Z.prime 9349.
Proof. apply (trial_division 9349 96); [lia | lia | vm_compute; reflexivity]. Qed.

Lemma prime_28181 : Z.prime 28181.
Proof. apply (trial_division 28181 167); [lia | lia | vm_compute; reflexivity]. Qed.

Lemma prime_120233 : Z.prime 120233.
Proof. apply (trial_division 120233 346); [lia | lia | vm_compute; reflexivity]. Qed.

Lemma prime_1627771 : Z.prime 1627771.
Proof. apply (trial_division 1627771 1275); [lia | lia | vm_compute; reflexivity]. Qed.

Lemma prime_44706919 : Z.prime 44706919.
Proof.
  apply (pocklington_cert _ 9349 2 prime_9349). vm_compute; reflexivity.
Qed.

Lemma prime_545358713 : Z.prime 545358713.
Proof.
  apply (pocklington_cert _ 28181 2 prime_28181). vm_compute; reflexivity.
Qed.

Lemma prime_297159362677 : Z.prime 297159362677.
Proof.
  apply (pocklington_cert _ 1627771 2 prime_1627771). vm_compute; reflexivity.
Qed.

Lemma prime_174723607534414371449 : Z.prime 174723607534414371449.
Proof.
  apply (pocklington_cert2 _ 44706919 120233 2 2 prime_44706919 prime_120233).
  vm_compute; reflexivity.
Qed.

Lemma prime_29047611873442575647497758179 :
  Z.prime 29047611873442575647497758179.
Proof.
  apply (pocklington_cert2 _ 297159362677 545358713 2 2 prime_297159362677
           prime_545358713).
  vm_compute; reflexivity.
Qed.

Lemma prime_341948486974166000522343609283189 :
  Z.prime 341948486974166000522343609283189.
Proof.
  apply (pocklington_cert _ 29047611873442575647497758179 2
           prime_29047611873442575647497758179).
  vm_compute; reflexivity.
Qed.

Lemma secp256k1_order_prime : Z.prime flawed_signer.SECP256k1_order.
Proof.
  apply (pocklington_cert2 _ 341948486974166000522343609283189
           174723607534414371449 2 2
           prime_341948486974166000522343609283189
           prime_174723607534414371449).
  vm_compute; reflexivity.
Qed.

Lemma secp256k1_order_ge_2 : 2 <= flawed_signer.SECP256k1_order.
Proof. discriminate. Qed.

Lemma gcd_one_nonzero (q k : Z) : 2 <= q -> Z.gcd k q = 1 -> k mod q <> 0.
Proof.
  intros Hq Hg H0. apply Z.mod_divide in H0; [| lia].
  assert (Hd : (q | 1)).
  { rewrite <- Hg. apply Z.gcd_greatest; [exact H0 | apply Z.divide_refl]. }
  apply Z.divide_1_r_nonneg in Hd; lia.
Qed.


(** [s = k^-1 * x mod q] satisfies [s * k = x (mod q)]. *)
Lemma invmod_equation (q k x : Z) :
  2 <= q -> Z.gcd k q = 1 ->
  (((Z.invmod k q * x) mod q) * k) mod q = x mod q.
Proof.
  intros Hq Hg. rewrite Z.mul_mod_idemp_l by lia.
  replace (Z.invmod k q * x * k) with (x * (Z.invmod k q * k)) by ring.
  rewrite <- Z.mul_mod_idemp_r by lia.
  rewrite (Z.invmod_coprime k q Hq Hg), Z.mul_1_r. reflexivity.
Qed.

(** Two ECDSA equations under nonces in the relation [k2 = a * k1 + b]
    give the key as a quotient. *)
Lemma ecdsa_recover_algebra (q d k1 k2 z1 z2 r1 r2 s1 s2 a b : Z) :
  Z.prime q ->
  (s1 * k1) mod q = (z1 + r1 * d) mod q ->
  (s2 * k2) mod q = (z2 + r2 * d) mod q ->
  k2 mod q = (a * k1 + b) mod q ->
  (a * s2 * r1 - s1 * r2) mod q <> 0 ->
  ((s1 * z2 - a * s2 * z1 - b * s1 * s2) mod q
   * Z.invmod ((a * s2 * r1 - s1 * r2) mod q) q) mod q = d mod q.
Proof.
  intros Hq H1 H2 H3 Hden.
  pose proof (Z.prime_ge_2 _ Hq) as Hq2.
  assert (Hq0 : q <> 0) by lia.
  assert (Hnum : (s1 * z2 - a * s2 * z1 - b * s1 * s2) mod q
                 = (d * ((a * s2 * r1 - s1 * r2) mod q)) mod q).
  { rewrite Z.mul_mod_idemp_r by exact Hq0.
    apply Z.cong_iff_ex in H1. destruct H1 as [c1 H1].
    apply Z.cong_iff_ex in H2. destruct H2 as [c2 H2].
    apply Z.cong_iff_ex in H3. destruct H3 as [c3 H3].
    apply Z.cong_iff_ex.
    exists (a * s2 * c1 - s1 * c2 + s1 * s2 * c3).
    assert (E1 : r1 * d = s1 * k1 - z1 - c1 * q) by lia.
    assert (E2 : r2 * d = s2 * k2 - z2 - c2 * q) by lia.
    assert (E3 : k2 = a * k1 + b + c3 * q) by lia.
    replace (d * (a * s2 * r1 - s1 * r2))
      with (a * s2 * (r1 * d) - s1 * (r2 * d)) by ring.
    rewrite E1, E2, E3. ring. }
  rewrite Hnum.
  set (den := (a * s2 * r1 - s1 * r2) mod q) in *.
  rewrite Z.mul_mod_idemp_l, <- Z.mul_assoc by exact Hq0.
  rewrite <- Z.mul_mod_idemp_r by exact Hq0.
  rewrite (Z.mul_comm den), Z.invmod_prime; [| exact Hq |].
  - rewrite Z.mul_1_r. reflexivity.
  - subst den. rewrite Z.mod_mod by exact Hq0. exact Hden.
Qed.

(** * The ECDSA-style signing methods *)

Section ECDSA_more.

Import flawed_signer.

Variable ecdsa : ecdsa_package.
Variable self : FlawedSigner.
Variable rnd : Z.

Lemma nonce_r_range (k r : Z) :
  nonce_r ecdsa k = Return r -> 0 <= r < SECP256k1_order.
Proof.
  unfold nonce_r.
  destruct (generator_mul_x ecdsa k) as [[x |] | e]; cbn [rbind];
    try discriminate.
  intros [= <-]. apply Z.mod_pos_bound. reflexivity.
Qed.

Lemma nonce_r_returns (k : Z) :
  (exists r, nonce_r ecdsa k = Return r)
  <-> exists x, generator_mul_x ecdsa k = Return (Some x).
Proof.
  unfold nonce_r. split.
  - intros [r H].
    destruct (generator_mul_x ecdsa k) as [[x |] | e]; cbn [rbind] in H;
      try discriminate.
    exists x. reflexivity.
  - intros [x ->]. cbn [rbind]. eexists. reflexivity.
Qed.


Lemma compute_s_inv (k z r s : Z) :
  compute_s self k z r = Return s ->
  k mod SECP256k1_order <> 0
  /\ 0 <= s < SECP256k1_order
  /\ (s * k) mod SECP256k1_order
     = (z + r * private_key self) mod SECP256k1_order.
Proof.
  unfold compute_s, pow_inv.
  destruct (Z.eqb_spec (Z.gcd k SECP256k1_order) 1) as [Hg | Hg];
    cbn [rbind]; [| discriminate].
  intros [= <-].
  split; [exact (gcd_one_nonzero _ _ secp256k1_order_ge_2 Hg) |].
  split; [apply Z.mod_pos_bound; reflexivity |].
  exact (invmod_equation _ _ _ secp256k1_order_ge_2 Hg).
Qed.

Lemma decode_utf8_inv (message : bytes) (text : string) :
  decode_utf8 message = Return text ->
  utf8_valid message = true /\ list_byte_of_string text = message.
Proof.
  unfold decode_utf8. destruct (utf8_valid message); [| discriminate].
  intros [= <-]. split; [reflexivity |].
  apply list_byte_of_string_of_list_byte.
Qed.


Lemma sign_one_inv (k : Z) (message : bytes) (index : option Z)
  (relation : option string) (d : signature_dict) :
  sign_one ecdsa self k message index relation = Return d ->
  nonce_ok ecdsa k = true /\ utf8_valid message = true
  /\ ecdsa_signed ecdsa self k message d
  /\ sig_nonce_index d = index /\ sig_nonce_relation d = relation.
Proof.
  unfold sign_one.
  destruct (nonce_r ecdsa k) as [r | e] eqn:Er; cbn [rbind]; [| discriminate].
  destruct (compute_s self k (hash_message message) r) as [s | e] eqn:Es;
    cbn [rbind]; [| discriminate].
  destruct (decode_utf8 message) as [text | e] eqn:Et; cbn [rbind];
    [| discriminate].
  intros [= <-].
  destruct (compute_s_inv _ _ _ _ Es) as [Hk [Hs Heq]].
  destruct (decode_utf8_inv _ _ Et) as [Hutf Htext].
  split.
  { unfold nonce_ok. apply andb_true_intro. split.
    - apply negb_true_iff, Z.eqb_neq. exact Hk.
    - destruct (proj1 (nonce_r_returns k) (ex_intro _ r Er)) as [x ->].
      reflexivity. }
  split; [exact Hutf |].
  split.
  { unfold ecdsa_signed.
    cbn [sig_message sig_z sig_r sig_s].
    split; [exact Htext |]. split; [reflexivity |].
    split; [exact Er |].
    split; [exact (nonce_r_range _ _ Er) |].
    split; [exact Hs | exact Heq]. }
  split; reflexivity.
Qed.

(** One iteration of each loop is [sign_one]. *)
Lemma affine_loop_cons (a b i k : Z) (message : bytes) (rest : list bytes) :
  affine_loop ecdsa self a b i k (message :: rest) =
    (d <- sign_one ecdsa self k message (Some i)
            (Some (nonce_relation a b i)) ;;
     l <- affine_loop ecdsa self a b (i + 1)
            ((a * k + b) mod SECP256k1_order) rest ;;
     Return (d :: l)).
Proof.
  cbn [affine_loop]. unfold sign_one.
  destruct (nonce_r ecdsa k) as [r | e]; cbn [rbind]; [| reflexivity].
  destruct (compute_s self k (hash_message message) r) as [s | e];
    cbn [rbind]; [| reflexivity].
  destruct (decode_utf8 message) as [text | e]; reflexivity.
Qed.

Lemma counter_loop_cons (start i : Z) (message : bytes) (rest : list bytes) :
  counter_loop ecdsa self start i (message :: rest) =
    (d <- sign_one ecdsa self (counter_nonce start i) message (Some i) None ;;
     l <- counter_loop ecdsa self start (i + 1) rest ;;
     Return (d :: l)).
Proof.
  cbn [counter_loop]. unfold sign_one.
  destruct (nonce_r ecdsa (counter_nonce start i)) as [r | e]; cbn [rbind];
    [| reflexivity].
  destruct (compute_s self (counter_nonce start i) (hash_message message) r)
    as [s | e]; cbn [rbind]; [| reflexivity].
  destruct (decode_utf8 message) as [text | e]; reflexivity.
Qed.

Lemma same_nonce_loop_cons (k r : Z) (message : bytes) (rest : list bytes) :
  nonce_r ecdsa k = Return r ->
  same_nonce_loop self k r (message :: rest) =
    (d <- sign_one ecdsa self k message None None ;;
     l <- same_nonce_loop self k r rest ;;
     Return (d :: l)).
Proof.
  intros Hr. cbn [same_nonce_loop]. unfold sign_one. rewrite Hr. cbn [rbind].
  destruct (compute_s self k (hash_message message) r) as [s | e];
    cbn [rbind]; [| reflexivity].
  destruct (decode_utf8 message) as [text | e]; reflexivity.
Qed.

(** What a returned list holds, loop by loop. *)
Lemma affine_loop_records (a b : Z) (messages : list bytes) :
  forall i k signatures,
    affine_loop ecdsa self a b i k messages = Return signatures ->
    List.length signatures = List.length messages
    /\ forall j message,
         nth_error messages j = Some message ->
         exists d,
           nth_error signatures j = Some d
           /\ sign_one ecdsa self (affine_nonce a b k j) message
                (Some (i + Z.of_nat j))
                (Some (nonce_relation a b (i + Z.of_nat j))) = Return d.
Proof.
  induction messages as [| message rest IH]; intros i k signatures H.
  - cbn [affine_loop] in H.
    injection H as <-. split; [reflexivity |].
    intros [| j] m Hm; discriminate Hm.
  - rewrite affine_loop_cons in H.
    destruct (sign_one ecdsa self k message _ _) as [d | e] eqn:Ed;
      cbn [rbind] in H; [| discriminate H].
    destruct (affine_loop ecdsa self a b (i + 1) _ rest) as [l | e] eqn:El;
      cbn [rbind] in H; [| discriminate H].
    injection H as <-.
    destruct (IH _ _ _ El) as [Hlen Hnth].
    split; [cbn [List.length]; rewrite Hlen; reflexivity |].
    intros [| j] m Hm; cbn [nth_error] in Hm |- *.
    + injection Hm as <-. exists d. split; [reflexivity |].
      cbn [Z.of_nat]. rewrite Z.add_0_r. exact Ed.
    + destruct (Hnth j m Hm) as [d' [Hd' Hs']]. exists d'.
      split; [exact Hd' |].
      unfold affine_nonce in *. rewrite Nat.iter_succ_r.
      replace (i + Z.of_nat (S j)) with (i + 1 + Z.of_nat j) by lia.
      exact Hs'.
Qed.

Lemma counter_loop_records (start : Z) (messages : list bytes) :
  forall i signatures,
    counter_loop ecdsa self start i messages = Return signatures ->
    List.length signatures = List.length messages
    /\ forall j message,
         nth_error messages j = Some message ->
         exists d,
           nth_error signatures j = Some d
           /\ sign_one ecdsa self (counter_nonce start (i + Z.of_nat j))
                message (Some (i + Z.of_nat j)) None = Return d.
Proof.
  induction messages as [| message rest IH]; intros i signatures H.
  - cbn [counter_loop] in H.
    injection H as <-. split; [reflexivity |].
    intros [| j] m Hm; discriminate Hm.
  - rewrite counter_loop_cons in H.
    destruct (sign_one ecdsa self _ message _ _) as [d | e] eqn:Ed;
      cbn [rbind] in H; [| discriminate H].
    destruct (counter_loop ecdsa self start (i + 1) rest) as [l | e] eqn:El;
      cbn [rbind] in H; [| discriminate H].
    injection H as <-.
    destruct (IH _ _ El) as [Hlen Hnth].
    split; [cbn [List.length]; rewrite Hlen; reflexivity |].
    intros [| j] m Hm; cbn [nth_error] in Hm |- *.
    + injection Hm as <-. exists d. split; [reflexivity |].
      cbn [Z.of_nat]. rewrite Z.add_0_r. exact Ed.
    + destruct (Hnth j m Hm) as [d' [Hd' Hs']]. exists d'.
      split; [exact Hd' |].
      replace (i + Z.of_nat (S j)) with (i + 1 + Z.of_nat j) by lia.
      exact Hs'.
Qed.

Lemma same_nonce_loop_records (k r : Z) (messages : list bytes) :
  nonce_r ecdsa k = Return r ->
  forall signatures,
    same_nonce_loop self k r messages = Return signatures ->
    List.length signatures = List.length messages
    /\ forall j message,
         nth_error messages j = Some message ->
         exists d,
           nth_error signatures j = Some d
           /\ sign_one ecdsa self k message None None = Return d.
Proof.
  intros Hr.
  induction messages as [| message rest IH]; intros signatures H.
  - cbn [same_nonce_loop] in H.
    injection H as <-. split; [reflexivity |].
    intros [| j] m Hm; discriminate Hm.
  - rewrite (same_nonce_loop_cons _ _ _ _ Hr) in H.
    destruct (sign_one ecdsa self k message None None) as [d | e] eqn:Ed;
      cbn [rbind] in H; [| discriminate H].
    destruct (same_nonce_loop self k r rest) as [l | e] eqn:El;
      cbn [rbind] in H; [| discriminate H].
    injection H as <-.
    destruct (IH _ eq_refl) as [Hlen Hnth].
    split; [cbn [List.length]; rewrite Hlen; reflexivity |].
    intros [| j] m Hm; cbn [nth_error] in Hm |- *.
    + injection Hm as <-. exists d. split; [reflexivity | exact Ed].
    + exact (Hnth j m Hm).
Qed.




End ECDSA_more.

Lemma nth_error_in_range {A : Type} (l : list A) (j : nat) :
  (j < List.length l)%nat -> exists x, nth_error l j = Some x.
Proof.
  intros Hj. destruct (nth_error l j) as [x |] eqn:E; [exists x; reflexivity |].
  apply nth_error_None in E. lia.
Qed.



(** X10. What the returned ECDSA-style records are. Each of the three
    methods returns one record per message, in order; the record of the
    message of index [j] carries the message text, its digest [z], the
    reduced x-coordinate [r] of [k_j * G] and a reduced [s] with
    [s * k_j = z + r * d (mod n)], where [d] is the private key of the
    signer and [k_j] is the nonce itself for [sign_with_same_nonce], the
    [j]-th iterate of [k -> (a * k + b) % n] for
    [sign_with_affine_nonces], and [(start + j * 123456) % n] for
    [sign_with_counter_nonce]; ['nonce_index'] is [j] in the last two and
    ['nonce_relation'] is set by the affine method only. *)
Theorem ecdsa_records_are_signatures (ecdsa : flawed_signer.ecdsa_package)
  (self : flawed_signer.FlawedSigner) (rnd : Z) (messages : list bytes)
  (nonce : option Z) (a b : Z) :
  (forall l,
      flawed_signer.sign_with_same_nonce ecdsa self rnd messages nonce
      = Return l ->
      records_of messages l
        (fun j message d =>
           ecdsa_signed ecdsa self (flawed_signer.default_nonce rnd nonce)
             message d
           /\ flawed_signer.sig_nonce_index d = None
           /\ flawed_signer.sig_nonce_relation d = None))
  /\ (forall l,
         flawed_signer.sign_with_affine_nonces ecdsa self rnd messages nonce
           a b = Return l ->
         records_of messages l
           (fun j message d =>
              ecdsa_signed ecdsa self
                (affine_nonce a b (flawed_signer.default_nonce rnd nonce) j)
                message d
              /\ flawed_signer.sig_nonce_index d = Some (Z.of_nat j)
              /\ flawed_signer.sig_nonce_relation d
                 = Some (flawed_signer.nonce_relation a b (Z.of_nat j))))
  /\ (forall l,
         flawed_signer.sign_with_counter_nonce ecdsa self rnd messages nonce
         = Return l ->
         records_of messages l
           (fun j message d =>
              ecdsa_signed ecdsa self
                (flawed_signer.counter_nonce
                   (flawed_signer.default_nonce rnd nonce) (Z.of_nat j))
                message d
              /\ flawed_signer.sig_nonce_index d = Some (Z.of_nat j)
              /\ flawed_signer.sig_nonce_relation d = None)).
Proof.
  set (k := flawed_signer.default_nonce rnd nonce).
  split; [| split]; intros l H; unfold records_of.
  - unfold flawed_signer.sign_with_same_nonce in H. fold k in H.
    destruct (flawed_signer.nonce_r ecdsa k) as [r | e] eqn:Er;
      cbn [rbind] in H; [| discriminate H].
    destruct (same_nonce_loop_records ecdsa self k r messages Er l H)
      as [Hlen Hnth].
    split; [exact Hlen |]. intros j m Hm.
    destruct (Hnth j m Hm) as [d [Hd Hs]]. exists d.
    split; [exact Hd |]. apply sign_one_inv in Hs.
    exact (proj2 (proj2 Hs)).
  - unfold flawed_signer.sign_with_affine_nonces in H. fold k in H.
    destruct (affine_loop_records ecdsa self a b messages 0 k l H)
      as [Hlen Hnth].
    split; [exact Hlen |]. intros j m Hm.
    destruct (Hnth j m Hm) as [d [Hd Hs]]. exists d.
    split; [exact Hd |]. rewrite Z.add_0_l in Hs. apply sign_one_inv in Hs.
    exact (proj2 (proj2 Hs)).
  - unfold flawed_signer.sign_with_counter_nonce in H. fold k in H.
    destruct (counter_loop_records ecdsa self k messages 0 l H)
      as [Hlen Hnth].
    split; [exact Hlen |]. intros j m Hm.
    destruct (Hnth j m Hm) as [d [Hd Hs]]. exists d.
    split; [exact Hd |]. rewrite Z.add_0_l in Hs. apply sign_one_inv in Hs.
    exact (proj2 (proj2 Hs)).
Qed.

Lemma ecdsa_records_are_signatures_witness :
  records_of [sample.m1; sample.m2] sample_more.affine_pair
    (fun j message d =>
       ecdsa_signed secp256k1.package sample_ecdsa.self
         (affine_nonce 2 1 1 j) message d
       /\ flawed_signer.sig_nonce_index d = Some (Z.of_nat j)
       /\ flawed_signer.sig_nonce_relation d
          = Some (flawed_signer.nonce_relation 2 1 (Z.of_nat j))).
Proof.
  exact (proj1 (proj2 (ecdsa_records_are_signatures secp256k1.package
                         sample_ecdsa.self 0 [sample.m1; sample.m2]
                         (Some 1) 2 1))
           sample_more.affine_pair ltac:(vm_compute; reflexivity)).
Defined.

(** X11. The ECDSA-style affine signer gives its key away. For any two
    consecutive records [(z1, r1, s1)], [(z2, r2, s2)] that
    [sign_with_affine_nonces] returns under the coefficients [(a, b)], if
    [a * s2 * r1 - s1 * r2] is nonzero modulo [n] then
    [(s1 * z2 - a * s2 * z1 - b * s1 * s2) / (a * s2 * r1 - s1 * r2)]
    modulo [n] is the private key of the signer modulo [n]. *)
Theorem ecdsa_affine_key_recovery (ecdsa : flawed_signer.ecdsa_package)
  (self : flawed_signer.FlawedSigner) (rnd : Z) (messages : list bytes)
  (nonce : option Z) (a b : Z) (l : list flawed_signer.signature_dict)
  (j : nat) (d1 d2 : flawed_signer.signature_dict) :
  let n := flawed_signer.SECP256k1_order in
  let z1 := flawed_signer.sig_z d1 in
  let r1 := flawed_signer.sig_r d1 in
  let s1 := flawed_signer.sig_s d1 in
  let z2 := flawed_signer.sig_z d2 in
  let r2 := flawed_signer.sig_r d2 in
  let s2 := flawed_signer.sig_s d2 in
  flawed_signer.sign_with_affine_nonces ecdsa self rnd messages nonce a b
  = Return l ->
  nth_error l j = Some d1 -> nth_error l (S j) = Some d2 ->
  (a * s2 * r1 - s1 * r2) mod n <> 0 ->
  ((s1 * z2 - a * s2 * z1 - b * s1 * s2) mod n
   * Z.invmod ((a * s2 * r1 - s1 * r2) mod n) n) mod n
  = flawed_signer.private_key self mod n.
Proof.
  intros n z1 r1 s1 z2 r2 s2 H H1 H2 Hden.
  unfold flawed_signer.sign_with_affine_nonces in H.
  set (k := flawed_signer.default_nonce rnd nonce) in H.
  destruct (affine_loop_records ecdsa self a b messages 0 k l H)
    as [Hlen Hnth].
  assert (Hj2 : (S j < List.length messages)%nat).
  { rewrite <- Hlen. apply nth_error_Some. rewrite H2. discriminate. }
  destruct (nth_error_in_range messages j) as [m1 Hm1]; [lia |].
  destruct (nth_error_in_range messages (S j)) as [m2 Hm2]; [lia |].
  destruct (Hnth j m1 Hm1) as [d1' [Hd1 Hs1]].
  destruct (Hnth (S j) m2 Hm2) as [d2' [Hd2 Hs2]].
  rewrite H1 in Hd1. injection Hd1 as <-.
  rewrite H2 in Hd2. injection Hd2 as <-.
  apply sign_one_inv in Hs1. destruct Hs1 as [_ [_ [Hs1 _]]].
  apply sign_one_inv in Hs2. destruct Hs2 as [_ [_ [Hs2 _]]].
  destruct Hs1 as [_ [_ [_ [_ [_ E1]]]]].
  destruct Hs2 as [_ [_ [_ [_ [_ E2]]]]].
  apply (ecdsa_recover_algebra n (flawed_signer.private_key self)
           (affine_nonce a b k j) (affine_nonce a b k (S j))
           z1 z2 r1 r2 s1 s2 a b secp256k1_order_prime E1 E2);
    [| exact Hden].
  unfold affine_nonce. rewrite Nat.iter_succ.
  apply Z.mod_mod. discriminate.
Qed.

Lemma ecdsa_affine_key_recovery_witness :
  exists d1 d2,
    nth_error sample_more.affine_pair 0 = Some d1
    /\ nth_error sample_more.affine_pair 1 = Some d2
    /\ ((flawed_signer.sig_s d1 * flawed_signer.sig_z d2
         - 2 * flawed_signer.sig_s d2 * flawed_signer.sig_z d1
         - 1 * flawed_signer.sig_s d1 * flawed_signer.sig_s d2)
        mod flawed_signer.SECP256k1_order
        * Z.invmod
            ((2 * flawed_signer.sig_s d2 * flawed_signer.sig_r d1
              - flawed_signer.sig_s d1 * flawed_signer.sig_r d2)
             mod flawed_signer.SECP256k1_order)
            flawed_signer.SECP256k1_order)
       mod flawed_signer.SECP256k1_order
       = flawed_signer.private_key sample_ecdsa.self
           mod flawed_signer.SECP256k1_order.
Proof.
  destruct sample_more.affine_pair as [| d1 [| d2 [| ? ?]]] eqn:E;
    try discriminate E.
  exists d1, d2. split; [reflexivity |]. split; [reflexivity |].
  apply (ecdsa_affine_key_recovery secp256k1.package sample_ecdsa.self 0
           [sample.m1; sample.m2] (Some 1) 2 1 [d1; d2] 0 d1 d2).
  - rewrite <- E. vm_compute. reflexivity.
  - reflexivity.
  - reflexivity.
  - injection E as <- <-. vm_compute. discriminate.
Defined.

(** * The special cases of the affine ECDSA-style signer *)

Section ECDSA_special.

Import flawed_signer.

Variable ecdsa : ecdsa_package.
Variable self : FlawedSigner.

Lemma sign_one_forget_relation (k : Z) (message : bytes) (index : option Z)
  (relation : option string) :
  on_return forget_relation (sign_one ecdsa self k message index relation)
  = sign_one ecdsa self k message index None.
Proof.
  unfold on_return, sign_one.
  destruct (nonce_r ecdsa k) as [r | e]; cbn [rbind]; [| reflexivity].
  destruct (compute_s self k (hash_message message) r) as [s | e];
    cbn [rbind]; [| reflexivity].
  destruct (decode_utf8 message) as [text | e]; reflexivity.
Qed.

Lemma sign_one_forget_nonce_keys (k : Z) (message : bytes) (index : option Z)
  (relation : option string) :
  on_return forget_nonce_keys (sign_one ecdsa self k message index relation)
  = sign_one ecdsa self k message None None.
Proof.
  unfold on_return, sign_one.
  destruct (nonce_r ecdsa k) as [r | e]; cbn [rbind]; [| reflexivity].
  destruct (compute_s self k (hash_message message) r) as [s | e];
    cbn [rbind]; [| reflexivity].
  destruct (decode_utf8 message) as [text | e]; reflexivity.
Qed.

Lemma counter_nonce_next (start i : Z) :
  (1 * counter_nonce start i + 123456) mod SECP256k1_order
  = counter_nonce start (i + 1).
Proof.
  unfold counter_nonce.
  rewrite Z.mul_1_l, Z.add_mod_idemp_l by discriminate.
  assert (E : start + i * 123456 + 123456 = start + (i + 1) * 123456) by ring.
  rewrite E. reflexivity.
Qed.

Lemma counter_loop_is_affine (start : Z) (messages : list bytes) :
  forall i,
    counter_loop ecdsa self start i messages
    = on_return (map forget_relation)
        (affine_loop ecdsa self 1 123456 i (counter_nonce start i) messages).
Proof.
  induction messages as [| message rest IH]; intros i.
  - reflexivity.
  - rewrite counter_loop_cons, affine_loop_cons.
    rewrite <- (sign_one_forget_relation (counter_nonce start i) message
                  (Some i) (Some (nonce_relation 1 123456 i))).
    destruct (sign_one ecdsa self (counter_nonce start i) message (Some i)
                (Some (nonce_relation 1 123456 i))) as [d | e];
      unfold on_return at 1 2; cbn [rbind]; [| reflexivity].
    rewrite counter_nonce_next, IH. unfold on_return.
    destruct (affine_loop ecdsa self 1 123456 (i + 1)
                (counter_nonce start (i + 1)) rest) as [l | e]; reflexivity.
Qed.

Lemma same_nonce_loop_is_affine (k r : Z) (messages : list bytes) :
  nonce_r ecdsa k = Return r -> 0 <= k < SECP256k1_order ->
  forall i,
    same_nonce_loop self k r messages
    = on_return (map forget_nonce_keys)
        (affine_loop ecdsa self 1 0 i k messages).
Proof.
  intros Hr Hk.
  induction messages as [| message rest IH]; intros i.
  - reflexivity.
  - rewrite (same_nonce_loop_cons ecdsa self k r message rest Hr),
      affine_loop_cons.
    rewrite <- (sign_one_forget_nonce_keys k message (Some i)
                  (Some (nonce_relation 1 0 i))).
    destruct (sign_one ecdsa self k message (Some i)
                (Some (nonce_relation 1 0 i))) as [d | e];
      unfold on_return at 1 2; cbn [rbind]; [| reflexivity].
    rewrite Z.mul_1_l, Z.add_0_r, (Z.mod_small k) by exact Hk.
    rewrite (IH (i + 1)). unfold on_return.
    destruct (affine_loop ecdsa self 1 0 (i + 1) k rest) as [l | e];
      reflexivity.
Qed.

End ECDSA_special.

(** X12. [sign_with_counter_nonce] is [sign_with_affine_nonces] with
    [a = 1] and [b = 123456]: for a start nonce in [[0, n)], given or
    drawn, the two calls raise the same exception or return the same
    records, apart from the ['nonce_relation'] key that only the affine
    method writes. *)
Theorem ecdsa_counter_is_affine (ecdsa : flawed_signer.ecdsa_package)
  (self : flawed_signer.FlawedSigner) (rnd : Z) (messages : list bytes)
  (nonce : option Z) :
  0 <= flawed_signer.default_nonce rnd nonce < flawed_signer.SECP256k1_order ->
  flawed_signer.sign_with_counter_nonce ecdsa self rnd messages nonce
  = on_return (map forget_relation)
      (flawed_signer.sign_with_affine_nonces ecdsa self rnd messages nonce
         1 123456).
Proof.
  intros Hk.
  unfold flawed_signer.sign_with_counter_nonce,
    flawed_signer.sign_with_affine_nonces.
  rewrite counter_loop_is_affine.
  unfold flawed_signer.counter_nonce at 1.
  rewrite Z.mul_0_l, Z.add_0_r, Z.mod_small by exact Hk. reflexivity.
Qed.

Lemma ecdsa_counter_is_affine_witness :
  flawed_signer.sign_with_counter_nonce secp256k1.package sample_ecdsa.self 0
    [sample.m1; sample.m2] (Some 1)
  = on_return (map forget_relation)
      (flawed_signer.sign_with_affine_nonces secp256k1.package
         sample_ecdsa.self 0 [sample.m1; sample.m2] (Some 1) 1 123456).
Proof.
  apply (ecdsa_counter_is_affine secp256k1.package sample_ecdsa.self 0
           [sample.m1; sample.m2] (Some 1)).
  split; [discriminate | reflexivity].
Defined.

(** X13. [sign_with_same_nonce] is [sign_with_affine_nonces] with [a = 1]
    and [b = 0]: for a nonce in [[0, n)] and at least one message, the
    two calls raise the same exception or return the same records, apart
    from the ['nonce_index'] and ['nonce_relation'] keys that only the
    affine method writes. *)
Theorem ecdsa_same_nonce_is_affine (ecdsa : flawed_signer.ecdsa_package)
  (self : flawed_signer.FlawedSigner) (rnd : Z) (messages : list bytes)
  (nonce : option Z) :
  messages <> [] ->
  0 <= flawed_signer.default_nonce rnd nonce < flawed_signer.SECP256k1_order ->
  flawed_signer.sign_with_same_nonce ecdsa self rnd messages nonce
  = on_return (map forget_nonce_keys)
      (flawed_signer.sign_with_affine_nonces ecdsa self rnd messages nonce
         1 0).
Proof.
  intros Hne Hk.
  unfold flawed_signer.sign_with_same_nonce,
    flawed_signer.sign_with_affine_nonces.
  set (k := flawed_signer.default_nonce rnd nonce) in *.
  destruct (flawed_signer.nonce_r ecdsa k) as [r | e] eqn:Er; cbn [rbind].
  - exact (same_nonce_loop_is_affine ecdsa self k r messages Er Hk 0).
  - destruct messages as [| message rest]; [contradiction |].
    rewrite affine_loop_cons. unfold sign_one. rewrite Er. reflexivity.
Qed.

Lemma ecdsa_same_nonce_is_affine_witness :
  flawed_signer.sign_with_same_nonce secp256k1.package sample_ecdsa.self 0
    [sample.m1; sample.m2] (Some 1)
  = on_return (map forget_nonce_keys)
      (flawed_signer.sign_with_affine_nonces secp256k1.package
         sample_ecdsa.self 0 [sample.m1; sample.m2] (Some 1) 1 0).
Proof.
  apply (ecdsa_same_nonce_is_affine secp256k1.package sample_ecdsa.self 0
           [sample.m1; sample.m2] (Some 1)).
  - discriminate.
  - split; [discriminate | reflexivity].
Defined.

(** * [FlawedSigner.__init__] *)

Lemma from_bytes_big_app (bs : bytes) (b : byte) :
  from_bytes_big (bs ++ [b]) = from_bytes_big bs * 256 + Z_of_byte b.
Proof. unfold from_bytes_big. rewrite fold_left_app. reflexivity. Qed.

Lemma from_bytes_big_rev (bs : bytes) :
  from_bytes_big (rev bs) = from_bytes_little bs.
Proof.
  induction bs as [| b bs IH]; [reflexivity |].
  cbn [rev from_bytes_little]. rewrite from_bytes_big_app, IH. ring.
Qed.

Lemma to_bytes_big_inv (z : Z) (len : nat) (bs : bytes) :
  to_bytes z len big = Return bs ->
  0 <= z < 256 ^ Z.of_nat len
  /\ List.length bs = len /\ from_bytes_big bs = z.
Proof.
  unfold to_bytes.
  destruct (Z.ltb_spec z 0) as [Hneg | Hlo]; [discriminate |].
  destruct (Z.leb_spec (256 ^ Z.of_nat len) z) as [Hbig | Hhi];
    [discriminate |].
  intros [= <-]. split; [lia |].
  unfold be_digits. split.
  - rewrite length_rev. apply length_le_digits.
  - rewrite from_bytes_big_rev, from_bytes_little_le_digits.
    apply Z.mod_small. lia.
Qed.

(** X14. The public key of a [FlawedSigner] is the 33-byte compressed
    encoding of the point of its key: whenever the constructor returns,
    the x-coordinate lies in [[0, 2^256)], the first byte is [02] for an
    even y-coordinate and [03] for an odd one, and the remaining 32 bytes
    read big-endian give x back.  The key is the generated one when the
    argument is [None] or [0] and the package's key for the argument
    otherwise, and ['private_key'] is stored as given, unreduced. *)
Theorem compressed_public_key (ecdsa : flawed_signer.ecdsa_package)
  (generated : flawed_signer.SigningKey) (private_key : option Z)
  (signer : flawed_signer.FlawedSigner) :
  flawed_signer.init ecdsa generated private_key = Return signer ->
  exists sk,
    ((flawed_signer.truthy private_key = false /\ sk = generated
      /\ flawed_signer.private_key signer
         = flawed_signer.secret_multiplier generated)
     \/ (exists k,
            private_key = Some k /\ k <> 0
            /\ flawed_signer.from_secret_exponent ecdsa k = Return sk
            /\ flawed_signer.private_key signer = k))
    /\ 0 <= flawed_signer.point_x sk < 2 ^ 256
    /\ List.length (flawed_signer.public_key signer) = 33%nat
    /\ hd_error (flawed_signer.public_key signer)
       = Some (if Z.even (flawed_signer.point_y sk) then x02 else x03)
    /\ from_bytes_big (tl (flawed_signer.public_key signer))
       = flawed_signer.point_x sk.
Proof.
  unfold flawed_signer.init. intros H.
  assert (Hshape :
    forall sk key,
      (x_bytes <- to_bytes (flawed_signer.point_x sk) 32 big ;;
       Return {| flawed_signer.private_key := key;
                 flawed_signer.public_key :=
                   (if flawed_signer.point_y sk mod 2 =? 0
                    then [x02] else [x03]) ++ x_bytes |}) = Return signer ->
      flawed_signer.private_key signer = key
      /\ 0 <= flawed_signer.point_x sk < 2 ^ 256
      /\ List.length (flawed_signer.public_key signer) = 33%nat
      /\ hd_error (flawed_signer.public_key signer)
         = Some (if Z.even (flawed_signer.point_y sk) then x02 else x03)
      /\ from_bytes_big (tl (flawed_signer.public_key signer))
         = flawed_signer.point_x sk).
  { intros sk key Hs.
    destruct (to_bytes (flawed_signer.point_x sk) 32 big) as [x_bytes | e]
      eqn:Ex; cbn [rbind] in Hs; [| discriminate Hs].
    injection Hs as <-.
    destruct (to_bytes_big_inv _ _ _ Ex) as [Hx [Hlen Hdec]].
    cbn [flawed_signer.private_key flawed_signer.public_key].
    split; [reflexivity |]. split; [exact Hx |].
    assert (Hpar : (flawed_signer.point_y sk mod 2 =? 0)
                   = Z.even (flawed_signer.point_y sk)).
    { rewrite Zeven_mod. reflexivity. }
    rewrite Hpar.
    destruct (Z.even (flawed_signer.point_y sk)); cbn [app hd_error tl List.length];
      (split; [rewrite Hlen; reflexivity |]);
      (split; [reflexivity | exact Hdec]). }
  destruct (flawed_signer.truthy private_key) eqn:Et.
  - destruct private_key as [k |]; [| discriminate Et].
    cbn [flawed_signer.truthy] in Et. apply negb_true_iff, Z.eqb_neq in Et.
    destruct (flawed_signer.from_secret_exponent ecdsa k) as [sk | e] eqn:Ek;
      cbn [rbind] in H; [| discriminate H].
    destruct (Hshape sk k H) as [Hkey Hrest].
    exists sk. split; [| exact Hrest].
    right. exists k.
    split; [reflexivity |]. split; [exact Et |].
    split; [exact Ek | exact Hkey].
  - cbn [rbind] in H.
    destruct (Hshape generated (flawed_signer.secret_multiplier generated) H)
      as [Hkey Hrest].
    exists generated. split; [| exact Hrest].
    left. split; [reflexivity |]. split; [reflexivity | exact Hkey].
Qed.

Lemma compressed_public_key_witness :
  exists sk,
    0 <= flawed_signer.point_x sk < 2 ^ 256
    /\ from_bytes_big (tl (flawed_signer.public_key sample_draws.signer))
       = flawed_signer.point_x sk.
Proof.
  destruct (compressed_public_key secp256k1.package sample_draws.key None
              sample_draws.signer ltac:(vm_compute; reflexivity))
    as [sk [_ [Hx [_ [_ Hdec]]]]].
  exists sk. split; [exact Hx | exact Hdec].
Defined.

(** * The two scripts *)

Lemma pbind_lift_return {S A B : Type} (m : result A) (a : A)
  (k : A -> prog S B) (s : S) :
  m = Return a -> pbind (lift m) k s = k a s.
Proof. intros ->. reflexivity. Qed.

Lemma pbind_lift_raise {S A B : Type} (m : result A) (e : exn)
  (k : A -> prog S B) (s : S) :
  m = Raise e -> pbind (lift m) k s = (s, Raise e).
Proof. intros ->. reflexivity. Qed.

Lemma pbind_emit {S B : Type} (ev : S) (k : unit -> prog (list S) B)
  (s : list S) :
  pbind (emit ev) k s = k tt (s ++ [ev]).
Proof. reflexivity. Qed.

(** The run of [create_test_signatures], by the outcome of the
    constructor and of the three signing calls. *)
Lemma create_test_signatures_cases (ecdsa : flawed_signer.ecdsa_package)
  (d : flawed_signer_main.draws) :
  flawed_signer_main.create_test_signatures ecdsa d [] =
    match flawed_signer.init ecdsa (flawed_signer_main.generated d) None with
    | Raise e => ([], Raise e)
    | Return signer =>
        match flawed_signer.sign_with_same_nonce ecdsa signer
                (flawed_signer_main.rnd_same d) flawed_signer_main.messages
                None with
        | Raise e => ([], Raise e)
        | Return _ =>
            match flawed_signer.sign_with_counter_nonce ecdsa signer
                    (flawed_signer_main.rnd_counter d)
                    flawed_signer_main.messages None with
            | Raise e =>
                (["test_signatures_same_nonce.json"%string;
                  "test_key_info.json"%string], Raise e)
            | Return _ =>
                match flawed_signer.sign_with_affine_nonces ecdsa signer
                        (flawed_signer_main.rnd_affine d)
                        flawed_signer_main.messages None 2 1 with
                | Raise e =>
                    (["test_signatures_same_nonce.json"%string;
                      "test_key_info.json"%string;
                      "test_signatures_counter.json"%string], Raise e)
                | Return _ =>
                    (["test_signatures_same_nonce.json"%string;
                      "test_key_info.json"%string;
                      "test_signatures_counter.json"%string;
                      "test_signatures_affine.json"%string],
                     Return (flawed_signer_main.get_key_info signer))
                end
            end
        end
    end.
Proof.
  unfold flawed_signer_main.create_test_signatures,
    generate_fixtures.save_signatures, generate_fixtures.write_json.
  destruct (flawed_signer.init ecdsa (flawed_signer_main.generated d) None)
    as [signer | e] eqn:Einit.
  2: { rewrite (pbind_lift_raise _ e _ _ eq_refl). reflexivity. }
  rewrite (pbind_lift_return _ signer _ _ eq_refl). cbv beta zeta.
  destruct (flawed_signer.sign_with_same_nonce ecdsa signer
              (flawed_signer_main.rnd_same d) flawed_signer_main.messages None)
    as [l1 | e] eqn:Esame.
  2: { rewrite (pbind_lift_raise _ e _ _ eq_refl). reflexivity. }
  rewrite (pbind_lift_return _ l1 _ _ eq_refl). cbv beta.
  rewrite !pbind_emit. cbv beta. cbn [app].
  destruct (flawed_signer.sign_with_counter_nonce ecdsa signer
              (flawed_signer_main.rnd_counter d) flawed_signer_main.messages
              None) as [l2 | e] eqn:Ecounter.
  2: { rewrite (pbind_lift_raise _ e _ _ eq_refl). reflexivity. }
  rewrite (pbind_lift_return _ l2 _ _ eq_refl). cbv beta.
  rewrite pbind_emit. cbv beta. cbn [app].
  destruct (flawed_signer.sign_with_affine_nonces ecdsa signer
              (flawed_signer_main.rnd_affine d) flawed_signer_main.messages
              None 2 1) as [l3 | e] eqn:Eaffine.
  2: { rewrite (pbind_lift_raise _ e _ _ eq_refl). reflexivity. }
  rewrite (pbind_lift_return _ l3 _ _ eq_refl). cbv beta.
  rewrite pbind_emit. cbv beta. cbn [app]. reflexivity.
Qed.

(** X15. [create_test_signatures] writes its four fixture files in the
    order same-nonce, key info, counter, affine and stops at the first
    call that raises, so the files written are none, the first two, the
    first three or all four: the key info is never saved without the
    same-nonce signatures.  The function returns only after all four
    files were written, and what it returns is the key information of
    the signer it built; it does so whenever the constructor and the
    three signing calls return. *)
Theorem create_test_signatures_run (ecdsa : flawed_signer.ecdsa_package)
  (d : flawed_signer_main.draws) :
  let run := flawed_signer_main.create_test_signatures ecdsa d [] in
  let files := ["test_signatures_same_nonce.json"%string;
                "test_key_info.json"%string;
                "test_signatures_counter.json"%string;
                "test_signatures_affine.json"%string] in
  In (fst run) [[]; firstn 2 files; firstn 3 files; files]
  /\ (forall info,
         snd run = Return info ->
         fst run = files
         /\ exists signer,
              flawed_signer.init ecdsa (flawed_signer_main.generated d) None
              = Return signer
              /\ info = flawed_signer_main.get_key_info signer)
  /\ (forall signer signatures_same signatures_counter signatures_affine,
         flawed_signer.init ecdsa (flawed_signer_main.generated d) None
         = Return signer ->
         flawed_signer.sign_with_same_nonce ecdsa signer
           (flawed_signer_main.rnd_same d) flawed_signer_main.messages None
         = Return signatures_same ->
         flawed_signer.sign_with_counter_nonce ecdsa signer
           (flawed_signer_main.rnd_counter d) flawed_signer_main.messages None
         = Return signatures_counter ->
         flawed_signer.sign_with_affine_nonces ecdsa signer
           (flawed_signer_main.rnd_affine d) flawed_signer_main.messages None
           2 1
         = Return signatures_affine ->
         run = (files, Return (flawed_signer_main.get_key_info signer))).
Proof.
  intros run files. subst run files.
  rewrite create_test_signatures_cases.
  split; [| split].
  - destruct (flawed_signer.init ecdsa _ None) as [signer | e];
      [| left; reflexivity].
    destruct (flawed_signer.sign_with_same_nonce ecdsa signer _ _ None);
      [| left; reflexivity].
    destruct (flawed_signer.sign_with_counter_nonce ecdsa signer _ _ None);
      [| right; left; reflexivity].
    destruct (flawed_signer.sign_with_affine_nonces ecdsa signer _ _ None 2 1);
      [| right; right; left; reflexivity].
    right; right; right; left; reflexivity.
  - intros info.
    destruct (flawed_signer.init ecdsa _ None) as [signer | e];
      [| discriminate].
    destruct (flawed_signer.sign_with_same_nonce ecdsa signer _ _ None);
      [| discriminate].
    destruct (flawed_signer.sign_with_counter_nonce ecdsa signer _ _ None);
      [| discriminate].
    destruct (flawed_signer.sign_with_affine_nonces ecdsa signer _ _ None 2 1);
      [| discriminate].
    cbn [fst snd]. intros [= <-]. split; [reflexivity |].
    exists signer. split; reflexivity.
  - intros signer l1 l2 l3 Hinit Hsame Hcounter Haffine.
    rewrite Hinit, Hsame, Hcounter, Haffine. reflexivity.
Qed.

Lemma create_test_signatures_run_witness :
  flawed_signer_main.create_test_signatures secp256k1.package
    sample_script.ordinary []
  = (["test_signatures_same_nonce.json"%string;
      "test_key_info.json"%string;
      "test_signatures_counter.json"%string;
      "test_signatures_affine.json"%string],
     Return (flawed_signer_main.get_key_info sample_draws.signer)).
Proof.
  exact (proj2 (proj2 (create_test_signatures_run secp256k1.package
                         sample_script.ordinary))
           sample_draws.signer sample_draws.signatures_same
           sample_draws.signatures_counter sample_script.signatures_affine
           ltac:(vm_compute; reflexivity) ltac:(vm_compute; reflexivity)
           ltac:(vm_compute; reflexivity) ltac:(vm_compute; reflexivity)).
Defined.

(** X16. The EdDSA-style [main] never raises in its signing: for every
    generated seed and every four drawn nonces it writes, in this order,
    the key information and the same-nonce, counter, affine and
    hardcoded-step fixtures, each of the four holding one record per
    test message (five), and every record reads back as a signature of
    its message under the key written to the key-information file. *)
Theorem eddsa_main_writes_five_fixtures (verify_key : bytes -> bytes)
  (d : flawed_eddsa_signer_main.draws) :
  let signer :=
    {| flawed_eddsa_signer.private_key :=
         flawed_eddsa_signer_main.generated_seed d;
       flawed_eddsa_signer.public_key :=
         verify_key (flawed_eddsa_signer_main.generated_seed d) |} in
  exists same counter affine stepped,
    flawed_eddsa_signer_main.main verify_key d []
    = ([("fixtures/test_eddsa_key_info.json"%string,
         flawed_eddsa_signer_main.KeyInfo
           (flawed_eddsa_signer_main.get_key_info signer));
        ("fixtures/test_eddsa_signatures_same_nonce.json"%string,
         flawed_eddsa_signer_main.Signatures same);
        ("fixtures/test_eddsa_signatures_counter.json"%string,
         flawed_eddsa_signer_main.Signatures counter);
        ("fixtures/test_eddsa_signatures_affine.json"%string,
         flawed_eddsa_signer_main.Signatures affine);
        ("fixtures/test_eddsa_signatures_hardcoded_step.json"%string,
         flawed_eddsa_signer_main.Signatures stepped)],
       Return tt)
    /\ List.length flawed_eddsa_signer_main.messages = 5%nat
    /\ Forall2 (valid_record signer) flawed_eddsa_signer_main.messages same
    /\ Forall2 (valid_record signer) flawed_eddsa_signer_main.messages counter
    /\ Forall2 (valid_record signer) flawed_eddsa_signer_main.messages affine
    /\ Forall2 (valid_record signer) flawed_eddsa_signer_main.messages stepped.
Proof.
  intros signer.
  set (messages := flawed_eddsa_signer_main.messages).
  pose proof (sign_with_same_nonce_map signer
                (flawed_eddsa_signer_main.rnd_same d) messages None) as Hsame.
  destruct (affine_loop_valid signer 1 1 (Z.of_nat (List.length messages))
              messages 0 (flawed_eddsa_signer_main.rnd_counter d))
    as [counter [Hcounter Vcounter]].
  destruct (affine_loop_valid signer 2 1 (Z.of_nat (List.length messages))
              messages 0 (flawed_eddsa_signer_main.rnd_affine d))
    as [affine [Haffine Vaffine]].
  destruct (hardcoded_step_loop_valid signer 1234567
              (flawed_eddsa_signer_main.rnd_step d) messages 0)
    as [stepped [Hstepped Vstepped]].
  change (flawed_eddsa_signer.sign_with_counter_nonce signer
            (flawed_eddsa_signer_main.rnd_counter d) messages None
          = Return counter) in Hcounter.
  change (flawed_eddsa_signer.sign_with_affine_nonces signer
            (flawed_eddsa_signer_main.rnd_affine d) messages 2 1 None
          = Return affine) in Haffine.
  change (flawed_eddsa_signer.sign_with_hardcoded_step signer
            (flawed_eddsa_signer_main.rnd_step d) messages 1234567 None
          = Return stepped) in Hstepped.
  exists (map (signed signer (flawed_eddsa_signer_main.rnd_same d)) messages),
    counter, affine, stepped.
  split.
  { unfold flawed_eddsa_signer_main.main, flawed_eddsa_signer_main.dump.
    fold messages.
    rewrite (pbind_lift_return _ signer _ _ eq_refl). cbv beta zeta.
    rewrite pbind_emit. cbv beta.
    rewrite (pbind_lift_return _ _ _ _ Hsame). cbv beta.
    rewrite pbind_emit. cbv beta.
    rewrite (pbind_lift_return _ _ _ _ Hcounter). cbv beta.
    rewrite pbind_emit. cbv beta.
    rewrite (pbind_lift_return _ _ _ _ Haffine). cbv beta.
    rewrite pbind_emit. cbv beta.
    rewrite (pbind_lift_return _ _ _ _ Hstepped). cbv beta.
    reflexivity. }
  split; [reflexivity |].
  split; [apply Forall2_map_signed |].
  split; [exact Vcounter |]. split; [exact Vaffine | exact Vstepped].
Qed.

(** * When [attack] raises *)

Lemma attacker_compute_h_cases (r : Z) (pk m : bytes) :
  (0 <= r < 2 ^ 256 /\ exists h, attacker.compute_h r pk m = Return h)
  \/ (~ 0 <= r < 2 ^ 256
      /\ exists msg, attacker.compute_h r pk m = Raise (OverflowError msg)).
Proof.
  change (2 ^ 256) with (256 ^ Z.of_nat 32).
  unfold attacker.compute_h, to_bytes.
  set (bound := 256 ^ Z.of_nat 32).
  destruct (Z.ltb_spec r 0) as [Hneg | Hlo].
  - right. split; [lia |]. eexists. reflexivity.
  - destruct (Z.leb_spec bound r) as [Hbig | Hhi].
    + right. split; [lia |]. eexists. reflexivity.
    + left. split; [lia |]. eexists. reflexivity.
Qed.

(** X17. [attack] returns, a scalar or [None], exactly when the two
    public keys are equal and both [r] values fit 32 bytes, whatever the
    [s] values and the coefficients; the only exceptions it raises are
    the [ValueError] of mismatched keys and, for equal keys, the
    [OverflowError] of an [r] outside [[0, 2^256)]. *)
Theorem attack_returns_iff (r1 s1 r2 s2 : Z) (pk1 m1 pk2 m2 : bytes)
  (alpha beta : Z) :
  ((exists v,
       attacker.attack_result (r1, s1, pk1, m1) (r2, s2, pk2, m2) alpha beta
       = Return v)
   <-> pk1 = pk2 /\ 0 <= r1 < 2 ^ 256 /\ 0 <= r2 < 2 ^ 256)
  /\ (forall e,
         attacker.attack_result (r1, s1, pk1, m1) (r2, s2, pk2, m2) alpha beta
         = Raise e ->
         (pk1 <> pk2
          /\ e = ValueError "Signatures must use the same public key")
         \/ (pk1 = pk2 /\ ~ (0 <= r1 < 2 ^ 256 /\ 0 <= r2 < 2 ^ 256)
             /\ exists msg, e = OverflowError msg)).
Proof.
  rewrite attack_result_closed.
  destruct (bytes_eqb pk1 pk2) eqn:Epk; cbn [negb].
  - apply bytes_eqb_eq in Epk.
    destruct (attacker_compute_h_cases r1 pk1 m1) as [[H1 [h1 E1]] | [H1 [w1 E1]]];
      rewrite E1; cbn [rbind].
    + destruct (attacker_compute_h_cases r2 pk1 m2)
        as [[H2 [h2 E2]] | [H2 [w2 E2]]]; rewrite E2; cbn [rbind].
      * split.
        -- split; [intros _; split; [exact Epk | split; assumption] |].
           intros _.
           destruct ((h2 - alpha * h1) mod attacker.CURVE_ORDER =? 0);
             eexists; reflexivity.
        -- intros e He.
           destruct ((h2 - alpha * h1) mod attacker.CURVE_ORDER =? 0);
             discriminate He.
      * split.
        -- split; [intros [v Hv]; discriminate Hv |].
           intros [_ [_ Hr2]]. contradiction.
        -- intros e [= <-]. right. split; [exact Epk |].
           split; [intros [_ Hr2]; contradiction |].
           exists w2. reflexivity.
    + split.
      * split; [intros [v Hv]; discriminate Hv |].
        intros [_ [Hr1 _]]. contradiction.
      * intros e [= <-]. right. split; [exact Epk |].
        split; [intros [Hr1 _]; contradiction |].
        exists w1. reflexivity.
  - assert (Hne : pk1 <> pk2).
    { intros ->. rewrite bytes_eqb_refl in Epk. discriminate Epk. }
    split.
    + split; [intros [v Hv]; discriminate Hv |].
      intros [Heq _]. contradiction.
    + intros e [= <-]. left. split; [exact Hne | reflexivity].
Qed.
